(** * A trading system and its habit-correction backtester

    A shallow embedding of [OOP_TermProject_ver2.cpp]: the basic trading
    system of its section 4 ([Stock], [Position], [Portfolio], [Order],
    [Transaction], [Market], [Account], [User]) and the backtester of its
    section 5 ([TradingStrategy], [PanicSellStrategy], [DCAStrategy],
    [HoldStrategy], [BacktestEngine], [BacktestReport]), together with
    the properties its specification states about the backtester and
    further properties read off the code.

    Machine types are modelled as the program has them on an LP64 target:
    - [int] is a 32-bit and [long] a 64-bit two's-complement integer,
      carried in [Z] with the wrap-around written out at every operation;
    - [double] is IEEE-754 binary64, carried in [spec_float] with the
      correctly rounded operations of [SpecFloat];
    - an integer division that traps (zero divisor, or [LONG_MIN / -1])
      ends the program; functions that perform one return an [option];
    - objects shared through pointers live in an explicit heap, and the
      static counters, the clock and the random numbers in an explicit
      environment.

    The first part embeds the program, the second states and proves the
    properties.  The properties that depend on how doubles round rest on
    a small theory of binary64 rounding developed in the middle of the
    second part.  What the program prints is not modelled. *)

From Stdlib Require Import String ZArith List Bool Lia SpecFloat.
From Stdlib Require Import Permutation Sorted Reals Lra.
From Stdlib Require OrderedTypeEx.
Import ListNotations.
Local Open Scope Z_scope.

(** ** Machine integers *)

Module Machine.

(** The value of [x] reduced to a signed [w]-bit integer. *)
Definition wrap (w x : Z) : Z := (x + 2 ^ (w - 1)) mod 2 ^ w - 2 ^ (w - 1).

Definition int_min : Z := - 2 ^ 31.
Definition int_max : Z := 2 ^ 31 - 1.
Definition long_min : Z := - 2 ^ 63.
Definition long_max : Z := 2 ^ 63 - 1.

Definition to_int (x : Z) : Z := wrap 32 x.
Definition to_long (x : Z) : Z := wrap 64 x.

Definition in_int (x : Z) : Prop := int_min <= x <= int_max.
Definition in_long (x : Z) : Prop := long_min <= x <= long_max.

(** [a / b] on [long] operands: the quotient truncated toward zero.  The
    division traps when the divisor is zero or the quotient is not
    representable, which ends the program: [None]. *)
Definition long_div (a b : Z) : option Z :=
  if (b =? 0) || ((a =? long_min) && (b =? -1)) then None
  else Some (Z.quot a b).

End Machine.

(** ** Doubles *)

Definition double : Type := spec_float.

Module Double.

Definition prec : Z := 53.
Definition emax : Z := 1024.

(** [(double)n] for an [int] or [long] [n]: round to nearest, ties to even. *)
Definition of_Z (n : Z) : double := binary_normalize prec emax n 0 false.

Definition mul : double -> double -> double := SFmul prec emax.
Definition div : double -> double -> double := SFdiv prec emax.
Definition add : double -> double -> double := SFadd prec emax.
Definition ltb : double -> double -> bool := SFltb.
Definition leb : double -> double -> bool := SFleb.

Definition zero : double := S754_zero false.

(** A decimal literal [n / d] of the source, for [n] and [d] that are
    exact as doubles: the double nearest to the quotient. *)
Definition lit (n d : Z) : double := div (of_Z n) (of_Z d).

(** The integer part of a finite double (truncation toward zero). *)
Definition trunc (x : double) : option Z :=
  match x with
  | S754_zero _ => Some 0
  | S754_finite s m e => Some (cond_Zopp s (Z.shiftl (Zpos m) e))
  | S754_infinity _ | S754_nan => None
  end.

(** [(long)x] and [(int)x].  A NaN, an infinity or a value whose integer
    part is out of range has no defined conversion in C++; the model
    takes what the x86-64 conversion instruction stores then, the most
    negative integer of the destination type. *)
Definition to_long (x : double) : Z :=
  match trunc x with
  | Some z =>
      if (Machine.long_min <=? z) && (z <=? Machine.long_max) then z
      else Machine.long_min
  | None => Machine.long_min
  end.

Definition to_int (x : double) : Z :=
  match trunc x with
  | Some z =>
      if (Machine.int_min <=? z) && (z <=? Machine.int_max) then z
      else Machine.int_min
  | None => Machine.int_min
  end.

End Double.

(** ** 5.1 [TradingStrategy]: the ledger every strategy carries *)

Record TradingStrategy : Type := mkTradingStrategy {
  name : string;
  cash : Z;                 (* long *)
  shares : Z;               (* int *)
  avgPrice : Z;             (* int *)
  equityHistory : list Z;   (* vector<long> *)
  buyCount : Z;             (* int *)
  sellCount : Z             (* int *)
}.

Section Ledger.

Import Machine.

(** The constructor [TradingStrategy(n, initCash)]. *)
Definition newTradingStrategy (n : string) (initCash : Z) : TradingStrategy :=
  mkTradingStrategy n initCash 0 0 [] 0 0.

Definition buy_cost (price qty : Z) : Z := to_long (price * qty).

(** [(long)(amount * feeRate)], the fee charged on a trade of [amount]. *)
Definition trade_fee (amount : Z) (feeRate : double) : Z :=
  Double.to_long (Double.mul (Double.of_Z amount) feeRate).

Definition buy (s : TradingStrategy) (price qty : Z) (feeRate : double)
  : TradingStrategy :=
  let cost := buy_cost price qty in
  let fee := trade_fee cost feeRate in
  if (cash s >=? to_long (cost + fee)) && (qty >? 0) then
    let totalCost := to_long (to_long (avgPrice s * shares s) + cost) in
    let shares' := to_int (shares s + qty) in
    let avgPrice' :=
      if shares' >? 0 then to_int (Z.quot totalCost shares') else 0 in
    mkTradingStrategy (name s)
      (to_long (cash s - to_long (cost + fee)))
      shares' avgPrice' (equityHistory s)
      (to_int (buyCount s + 1)) (sellCount s)
  else s.

Definition sellAll (s : TradingStrategy) (price : Z) (feeRate : double)
  : TradingStrategy :=
  if shares s >? 0 then
    let revenue := to_long (price * shares s) in
    let fee := trade_fee revenue feeRate in
    mkTradingStrategy (name s)
      (to_long (cash s + to_long (revenue - fee)))
      0 0 (equityHistory s)
      (buyCount s) (to_int (sellCount s + 1))
  else s.

Definition getTotalValue (s : TradingStrategy) (price : Z) : Z :=
  to_long (cash s + to_long (shares s * price)).

Definition recordEquity (s : TradingStrategy) (price : Z) : TradingStrategy :=
  mkTradingStrategy (name s) (cash s) (shares s) (avgPrice s)
    (equityHistory s ++ [getTotalValue s price])
    (buyCount s) (sellCount s).

End Ledger.

(** ** 5.2 [PanicSellStrategy] *)

Module PanicSellStrategy.

Import Machine.

Record t : Type := mk {
  base : TradingStrategy;
  stopLossRate : double;
  feeRate : double;
  hasBought : bool
}.

Definition new (initCash : Z) (threshold fee : double) : t :=
  mk (newTradingStrategy "쫄보 (Panic Seller)"%string initCash) threshold fee false.

(** The trading part of [onPrice], before the equity is recorded.  [None]
    when the division that computes the quantity traps. *)
Definition trade (p : t) (price : Z) : option t :=
  let s := base p in
  if negb (hasBought p) && (cash s >=? price) then
    match long_div (cash s)
            (to_int (price +
               Double.to_int (Double.mul (Double.of_Z price) (feeRate p)))) with
    | None => None
    | Some q =>
        let qty := to_int q in
        if qty >? 0 then
          Some (mk (buy s price qty (feeRate p))
                   (stopLossRate p) (feeRate p) true)
        else Some p
    end
  else if (shares s >? 0) && (avgPrice s >? 0) then
    let profitRate :=
      Double.div (Double.of_Z (to_int (price - avgPrice s)))
                 (Double.of_Z (avgPrice s)) in
    if Double.leb profitRate (stopLossRate p) then
      Some (mk (sellAll s price (feeRate p))
               (stopLossRate p) (feeRate p) (hasBought p))
    else Some p
  else Some p.

Definition onPrice (p : t) (idx price : Z) (changeRate : double) : option t :=
  match trade p price with
  | None => None
  | Some p' =>
      Some (mk (recordEquity (base p') price)
               (stopLossRate p') (feeRate p') (hasBought p'))
  end.

End PanicSellStrategy.

(** ** 5.3 [DCAStrategy] *)

Module DCAStrategy.

Import Machine.

Record t : Type := mk {
  base : TradingStrategy;
  dcaDropRate : double;
  dcaInterval : Z;          (* int *)
  buyRatio : double;
  feeRate : double;
  lastBuyIndex : Z;         (* int *)
  lastBuyPrice : Z          (* int *)
}.

Definition new (initCash : Z) (dropRate : double) (interval : Z)
    (ratio fee : double) : t :=
  mk (newTradingStrategy "코치 (DCA)"%string initCash)
     dropRate interval ratio fee (-1) 0.

Definition shouldBuy (d : t) (idx price : Z) : bool :=
  let s := base d in
  if (lastBuyIndex d <? 0) && (cash s >=? price) then true
  else if cash s >=? price then
    let intervalMet :=
      to_int (to_int idx - lastBuyIndex d) >=? dcaInterval d in
    let dropMet :=
      (lastBuyPrice d >? 0) &&
      Double.leb
        (Double.div (Double.of_Z (to_int (price - lastBuyPrice d)))
                    (Double.of_Z (lastBuyPrice d)))
        (dcaDropRate d) in
    intervalMet || dropMet
  else false.

(** The amount a triggered buy sets out to spend. *)
Definition buyAmount (d : t) (price : Z) : Z :=
  let amount :=
    Double.to_long (Double.mul (Double.of_Z (cash (base d))) (buyRatio d)) in
  if amount <? price then cash (base d) else amount.

(** The quantity a triggered buy computes; [None] when the division traps. *)
Definition buyQty (d : t) (price : Z) : option Z :=
  match long_div (buyAmount d price)
          (to_int (price +
             Double.to_int (Double.mul (Double.of_Z price) (feeRate d)))) with
  | None => None
  | Some q => Some (to_int q)
  end.

Definition with_base (d : t) (s : TradingStrategy) : t :=
  mk s (dcaDropRate d) (dcaInterval d) (buyRatio d) (feeRate d)
     (lastBuyIndex d) (lastBuyPrice d).

Definition trade (d : t) (idx price : Z) : option t :=
  if shouldBuy d idx price then
    match buyQty d price with
    | None => None
    | Some qty =>
        if qty >? 0 then
          Some (mk (buy (base d) price qty (feeRate d))
                   (dcaDropRate d) (dcaInterval d) (buyRatio d) (feeRate d)
                   (to_int idx) price)
        else Some d
    end
  else Some d.

Definition onPrice (d : t) (idx price : Z) (changeRate : double) : option t :=
  match trade d idx price with
  | None => None
  | Some d' => Some (with_base d' (recordEquity (base d') price))
  end.

End DCAStrategy.

(** ** 5.4 [HoldStrategy] *)

Module HoldStrategy.

Import Machine.

Record t : Type := mk {
  base : TradingStrategy;
  initialBuyRatio : double;
  feeRate : double;
  hasBought : bool
}.

Definition new (initCash : Z) (ratio fee : double) : t :=
  mk (newTradingStrategy "존버 (Holder)"%string initCash) ratio fee false.

Definition trade (h : t) (price : Z) : option t :=
  let s := base h in
  if negb (hasBought h) && (cash s >=? price) then
    let buyAmount :=
      Double.to_long (Double.mul (Double.of_Z (cash s)) (initialBuyRatio h)) in
    match long_div buyAmount
            (to_int (price +
               Double.to_int (Double.mul (Double.of_Z price) (feeRate h)))) with
    | None => None
    | Some q =>
        let qty := to_int q in
        if qty >? 0 then
          Some (mk (buy s price qty (feeRate h))
                   (initialBuyRatio h) (feeRate h) true)
        else Some h
    end
  else Some h.

Definition onPrice (h : t) (idx price : Z) (changeRate : double) : option t :=
  match trade h price with
  | None => None
  | Some h' =>
      Some (mk (recordEquity (base h') price)
               (initialBuyRatio h') (feeRate h') (hasBought h'))
  end.

End HoldStrategy.

(** ** The strategies behind the common [TradingStrategy] interface *)

Inductive Strategy : Type :=
| PanicSell (p : PanicSellStrategy.t)
| DCA (d : DCAStrategy.t)
| Hold (h : HoldStrategy.t).

Definition ledger (s : Strategy) : TradingStrategy :=
  match s with
  | PanicSell p => PanicSellStrategy.base p
  | DCA d => DCAStrategy.base d
  | Hold h => HoldStrategy.base h
  end.

(** The virtual call [s->onPrice(idx, price, rate)]. *)
Definition onPrice (s : Strategy) (idx price : Z) (rate : double)
  : option Strategy :=
  match s with
  | PanicSell p => option_map PanicSell (PanicSellStrategy.onPrice p idx price rate)
  | DCA d => option_map DCA (DCAStrategy.onPrice d idx price rate)
  | Hold h => option_map Hold (HoldStrategy.onPrice h idx price rate)
  end.

(** The virtual call [s->onFinish(lastPrice)]; no strategy overrides the
    empty default. *)
Definition onFinish (s : Strategy) (lastPrice : Z) : Strategy := s.

(** ** 3.2, 3.3, 4.1: configuration, report record, price history *)

Record BacktestConfig : Type := mkBacktestConfig {
  initialCash : Z;          (* long *)
  feeRate : double;
  panicThreshold : double;
  dcaDropRate : double;
  dcaInterval : Z;          (* int *)
  dcaBuyRatio : double;
  holdBuyRatio : double
}.

Definition DEFAULT_FEE_RATE : double := Double.lit 15 100000.
Definition DEFAULT_PANIC_THRESHOLD : double := Double.lit (-10) 100.
Definition DEFAULT_DCA_DROP_RATE : double := Double.lit (-5) 100.
Definition DEFAULT_DCA_INTERVAL : Z := 5.
Definition DEFAULT_DCA_BUY_RATIO : double := Double.lit 25 100.
Definition DEFAULT_HOLD_BUY_RATIO : double := Double.lit 5 10.
Definition DEFAULT_INITIAL_CASH : Z := 10000000.

Definition defaultBacktestConfig : BacktestConfig :=
  mkBacktestConfig DEFAULT_INITIAL_CASH DEFAULT_FEE_RATE
    DEFAULT_PANIC_THRESHOLD DEFAULT_DCA_DROP_RATE DEFAULT_DCA_INTERVAL
    DEFAULT_DCA_BUY_RATIO DEFAULT_HOLD_BUY_RATIO.

Record StrategyReport : Type := mkStrategyReport {
  strategyName : string;
  rInitialCash : Z;         (* long initialCash *)
  finalEquity : Z;          (* long *)
  totalReturn : double;
  maxDrawdown : double;
  rBuyCount : Z;            (* int buyCount *)
  rSellCount : Z;           (* int sellCount *)
  finalShares : Z;          (* int *)
  rAvgPrice : Z             (* int avgPrice *)
}.

(** [Stock::getPriceAt] on the price history. *)
Definition getPriceAt (priceHistory : list Z) (idx : nat) : Z :=
  nth idx priceHistory (-1).

(** ** 5.5 [BacktestEngine] *)

Module BacktestEngine.

Import Machine.

Record t : Type := mk {
  priceHistory : list Z;            (* stock->priceHistory, vector<int> *)
  config : BacktestConfig;
  strategies : list Strategy;
  results : list StrategyReport
}.

Definition new (prices : list Z) (cfg : BacktestConfig) : t :=
  mk prices cfg [] [].

Definition addStrategy (e : t) (s : Strategy) : t :=
  mk (priceHistory e) (config e) (strategies e ++ [s]) (results e).

(** One iteration of the loop of [calculateMDD], on the pair of locals
    [(peak, maxDD)]. *)
Definition mdd_step (st : Z * double) (equity : Z) : Z * double :=
  let '(peak, maxDD) := st in
  let peak := if equity >? peak then equity else peak in
  if peak >? 0 then
    let dd := Double.div (Double.of_Z (to_long (peak - equity)))
                         (Double.of_Z peak) in
    (peak, if Double.ltb maxDD dd then dd else maxDD)
  else (peak, maxDD).

Definition calculateMDD (history : list Z) : double :=
  match history with
  | [] => Double.zero
  | _ => Double.mul (snd (fold_left mdd_step history (0, Double.zero)))
                    (Double.of_Z 100)
  end.

Definition buildReport (cfg : BacktestConfig) (s : Strategy) (lastPrice : Z)
  : StrategyReport :=
  let b := ledger s in
  let final := getTotalValue b lastPrice in
  mkStrategyReport (name b) (initialCash cfg) final
    (Double.mul
       (Double.div (Double.of_Z (to_long (final - initialCash cfg)))
                   (Double.of_Z (initialCash cfg)))
       (Double.of_Z 100))
    (calculateMDD (equityHistory b))
    (buyCount b) (sellCount b) (shares b) (avgPrice b).

(** The inner loop of [runBattle]: every strategy, in registration order,
    sees the tick.  A trap in any of them ends the program. *)
Fixpoint tickAll (ss : list Strategy) (i price : Z) (rate : double)
  : option (list Strategy) :=
  match ss with
  | [] => Some []
  | s :: rest =>
      match onPrice s i price rate with
      | None => None
      | Some s' =>
          match tickAll rest i price rate with
          | None => None
          | Some rest' => Some (s' :: rest')
          end
      end
  end.

Definition changeRate (i price prevPrice : Z) : double :=
  if i =? 0 then Double.zero
  else Double.mul
         (Double.div (Double.of_Z (to_int (price - prevPrice)))
                     (Double.of_Z prevPrice))
         (Double.of_Z 100).

(** The outer loop of [runBattle] from index [i] on, with [n] iterations
    left. *)
Fixpoint ticks (prices : list Z) (n i : nat) (prevPrice : Z)
    (ss : list Strategy) : option (list Strategy) :=
  match n with
  | O => Some ss
  | S n' =>
      let price := getPriceAt prices i in
      match tickAll ss (Z.of_nat i) price
              (changeRate (Z.of_nat i) price prevPrice) with
      | None => None
      | Some ss' => ticks prices n' (S i) price ss'
      end
  end.

Definition runBattle (e : t) : option t :=
  let len := length (priceHistory e) in
  match len with
  | O => Some e
  | S _ =>
      let prevPrice := getPriceAt (priceHistory e) 0 in
      match ticks (priceHistory e) len 0 prevPrice (strategies e) with
      | None => None
      | Some ss =>
          let lastPrice := getPriceAt (priceHistory e) (len - 1) in
          let ss' := map (fun s => onFinish s lastPrice) ss in
          Some (mk (priceHistory e) (config e) ss'
                   (results e ++
                    map (fun s => buildReport (config e) s lastPrice) ss'))
      end
  end.

End BacktestEngine.

(** ** 5.6 [BacktestReport] *)

Module BacktestReport.

(** [swap(ranked[j], ranked[j + 1])]. *)
Definition swap (j : nat) (v : list StrategyReport) : list StrategyReport :=
  match nth_error v j, nth_error v (S j) with
  | Some a, Some b => firstn j v ++ b :: a :: skipn (S (S j)) v
  | _, _ => v
  end.

(** The body of the inner loop of [printRanking] at index [j]. *)
Definition compare_swap (v : list StrategyReport) (j : nat)
  : list StrategyReport :=
  match nth_error v j, nth_error v (S j) with
  | Some a, Some b =>
      if Double.ltb (totalReturn a) (totalReturn b) then swap j v else v
  | _, _ => v
  end.

(** The inner loop of pass [i]: [j = 0 .. size - 1 - i - 1]. *)
Definition pass (v : list StrategyReport) (i : nat) : list StrategyReport :=
  fold_left compare_swap (seq 0 (length v - 1 - i)) v.

(** The vector [ranked] that [printRanking] prints: [i = 0 .. size - 1]. *)
Definition ranked (results : list StrategyReport) : list StrategyReport :=
  fold_left pass (seq 0 (length results)) results.

(** The name [printRanking] prints as the winner, [ranked[0].strategyName];
    element 0 of an empty vector is undefined. *)
Definition winner (results : list StrategyReport) : option string :=
  option_map strategyName (nth_error (ranked results) 0).

End BacktestReport.

(** ** 4. The basic trading system *)

(** A step that can leave the defined behaviour of the program (a null or
    dangling pointer is dereferenced) returns an [option]; the steps are
    chained with this notation. *)
Notation "x <- e ;; k" :=
  (match e with Some x => k | None => None end)
  (at level 61, e at next level, right associativity).
Notation "' p <- e ;; k" :=
  (match e with Some p => k | None => None end)
  (at level 61, p pattern, e at next level, right associativity).

(** *** 4.1 [Stock] *)

Module Stock.

Import Machine.

Record t : Type := mk {
  code : string;
  name : string;
  currentPrice : Z;         (* int *)
  previousPrice : Z;        (* int *)
  priceHistory : list Z     (* vector<int> *)
}.

Definition new (c n : string) (p : Z) : t := mk c n p p [].

Definition updatePrice (s : t) (newPrice : Z) : t :=
  mk (code s) (name s) newPrice (currentPrice s) (priceHistory s).

Definition addPriceHistory (s : t) (price : Z) : t :=
  mk (code s) (name s) (currentPrice s) (previousPrice s)
     (priceHistory s ++ [price]).

Definition getChangeRate (s : t) : double :=
  if previousPrice s =? 0 then Double.zero
  else Double.mul
         (Double.div (Double.of_Z (to_int (currentPrice s - previousPrice s)))
                     (Double.of_Z (previousPrice s)))
         (Double.of_Z 100).

Definition getPriceAt (s : t) (idx : nat) : Z := getPriceAt (priceHistory s) idx.

Definition getHistoryLength (s : t) : nat := length (priceHistory s).

End Stock.

(** *** The program's environment

    [Stock] objects live on the heap and are shared through [Stock*]
    pointers by the market, the positions and the transactions.  The heap
    is the list of the stocks allocated so far and an address is an index
    into it; [None] is [nullptr].  Beside the heap the environment holds
    the two static id counters, the value [time(0)] returns and the
    sequence of values [rand()] returns with the number already drawn. *)

Definition ptr : Type := option nat.

Record World : Type := mkWorld {
  heap : list Stock.t;
  nextOrderId : Z;          (* Order::nextOrderId, int *)
  nextTransactionId : Z;    (* Transaction::nextTransactionId, int *)
  clock : Z;                (* time(0) *)
  randoms : nat -> Z;       (* the values of rand(), in call order *)
  drawn : nat
}.

Definition RAND_MAX : Z := 2147483647.

(** The state of a freshly started program. *)
Definition startWorld (now : Z) (rs : nat -> Z) : World :=
  mkWorld [] 1 1 now rs 0.

(** [*p]; dereferencing [nullptr] or an address that holds no stock is
    undefined. *)
Definition deref (h : list Stock.t) (p : ptr) : option Stock.t :=
  match p with
  | Some a => nth_error h a
  | None => None
  end.

(** [new Stock(c, n, p)]. *)
Definition newStock (w : World) (c n : string) (p : Z) : ptr * World :=
  (Some (length (heap w)),
   mkWorld (heap w ++ [Stock.new c n p]) (nextOrderId w)
     (nextTransactionId w) (clock w) (randoms w) (drawn w)).

(** The heap with the stock at address [a] replaced. *)
Definition store (h : list Stock.t) (a : nat) (s : Stock.t) : list Stock.t :=
  match nth_error h a with
  | Some _ => firstn a h ++ s :: skipn (S a) h
  | None => h
  end.

Definition withHeap (w : World) (h : list Stock.t) : World :=
  mkWorld h (nextOrderId w) (nextTransactionId w) (clock w) (randoms w)
    (drawn w).

(** [rand()]. *)
Definition rand (w : World) : Z * World :=
  (randoms w (drawn w),
   mkWorld (heap w) (nextOrderId w) (nextTransactionId w) (clock w)
     (randoms w) (S (drawn w))).

(** *** 4.2 [Position] *)

Module Position.

Import Machine.

Record t : Type := mk {
  stock : ptr;              (* Stock* *)
  quantity : Z;             (* int *)
  avgPrice : Z;             (* int *)
  totalInvested : Z         (* long *)
}.

Definition new (s : ptr) (qty price : Z) : t :=
  mk s qty price (if qty >? 0 then to_long (qty * price) else 0).

(** The default arguments: [Position()]. *)
Definition empty : t := new None 0 0.

Definition addQuantity (p : t) (qty price : Z) : t :=
  let totalInvested' := to_long (totalInvested p + to_long (qty * price)) in
  let quantity' := to_int (quantity p + qty) in
  mk (stock p) quantity'
     (if quantity' >? 0 then to_int (Z.quot totalInvested' quantity') else 0)
     totalInvested'.

Definition reduceQuantity (p : t) (qty : Z) : bool * t :=
  if qty >? quantity p then (false, p)
  else
    let quantity' := to_int (quantity p - qty) in
    if quantity' =? 0 then (true, mk (stock p) 0 0 0)
    else (true, mk (stock p) quantity' (avgPrice p)
                   (to_long (quantity' * avgPrice p))).

Definition getCurrentValue (h : list Stock.t) (p : t) : option Z :=
  match stock p with
  | None => Some 0
  | Some _ =>
      s <- deref h (stock p);;
      Some (to_long (Stock.currentPrice s * quantity p))
  end.

Definition getProfit (h : list Stock.t) (p : t) : option Z :=
  v <- getCurrentValue h p;;
  Some (to_long (v - totalInvested p)).

Definition getProfitRate (h : list Stock.t) (p : t) : option double :=
  if totalInvested p =? 0 then Some Double.zero
  else
    profit <- getProfit h p;;
    Some (Double.mul
            (Double.div (Double.of_Z profit) (Double.of_Z (totalInvested p)))
            (Double.of_Z 100)).

End Position.

(** *** 4.3 [Portfolio] *)

Module Portfolio.

Import Machine.

(** [map<string, Position>]: the entries in the order of their keys, which
    is the order the map is iterated in. *)
Definition t : Type := list (string * Position.t).

Definition empty : t := [].

(** [positions.find(code)]. *)
Fixpoint find (code : string) (m : t) : option Position.t :=
  match m with
  | [] => None
  | (k, v) :: rest => if String.eqb code k then Some v else find code rest
  end.

(** [positions[code] = v] for a [code] the map does not hold: a new entry,
    at its place in the order of the keys. *)
Fixpoint insert (code : string) (v : Position.t) (m : t) : t :=
  match m with
  | [] => [(code, v)]
  | (k, v') :: rest =>
      match String.compare code k with
      | Lt => (code, v) :: m
      | Eq => (code, v) :: rest
      | Gt => (k, v') :: insert code v rest
      end
  end.

(** The map after the entry of [code] has been changed in place to [v]. *)
Fixpoint update (code : string) (v : Position.t) (m : t) : t :=
  match m with
  | [] => []
  | (k, v') :: rest =>
      if String.eqb code k then (k, v) :: rest
      else (k, v') :: update code v rest
  end.

(** [positions.erase(code)]. *)
Definition erase (code : string) (m : t) : t :=
  filter (fun e => negb (String.eqb code (fst e))) m.

Definition addPosition (h : list Stock.t) (pf : t) (s : ptr) (qty price : Z)
  : option t :=
  st <- deref h s;;
  let code := Stock.code st in
  match find code pf with
  | Some pos => Some (update code (Position.addQuantity pos qty price) pf)
  | None => Some (insert code (Position.new s qty price) pf)
  end.

Definition reducePosition (pf : t) (code : string) (qty : Z) : bool * t :=
  match find code pf with
  | None => (false, pf)
  | Some pos =>
      let '(result, pos') := Position.reduceQuantity pos qty in
      let pf' := update code pos' pf in
      if result && (Position.quantity pos' =? 0) then (result, erase code pf')
      else (result, pf')
  end.

(** [getPosition]: the position of [code], [None] for [nullptr]. *)
Definition getPosition (pf : t) (code : string) : option Position.t :=
  find code pf.

Definition hasPosition (pf : t) (code : string) : bool :=
  match find code pf with
  | Some _ => true
  | None => false
  end.

Fixpoint sumOver (f : Position.t -> option Z) (m : t) (total : Z) : option Z :=
  match m with
  | [] => Some total
  | (_, pos) :: rest =>
      v <- f pos;;
      sumOver f rest (to_long (total + v))
  end.

Definition getTotalValue (h : list Stock.t) (pf : t) : option Z :=
  sumOver (Position.getCurrentValue h) pf 0.

Definition getTotalProfit (h : list Stock.t) (pf : t) : option Z :=
  sumOver (Position.getProfit h) pf 0.

End Portfolio.

(** *** 4.4 [Order] *)

Inductive OrderType : Type := BUY | SELL.
Inductive PriceType : Type := MARKET | LIMIT.
Inductive OrderStatus : Type := PENDING | COMPLETED | CANCELLED.

Module Order.

Import Machine.

Record t : Type := mk {
  orderId : Z;              (* int *)
  stockCode : string;
  orderType : OrderType;
  priceType : PriceType;
  requestedPrice : Z;       (* int *)
  quantity : Z;             (* int *)
  status : OrderStatus;
  timestamp : Z             (* time_t *)
}.

(** The constructor takes the next id from the static counter. *)
Definition new (w : World) (code : string) (ot : OrderType) (pt : PriceType)
    (price qty : Z) : t * World :=
  (mk (nextOrderId w) code ot pt price qty PENDING (clock w),
   mkWorld (heap w) (to_int (nextOrderId w + 1)) (nextTransactionId w)
     (clock w) (randoms w) (drawn w)).

Definition withStatus (o : t) (st : OrderStatus) : t :=
  mk (orderId o) (stockCode o) (orderType o) (priceType o)
     (requestedPrice o) (quantity o) st (timestamp o).

Definition execute (o : t) : t := withStatus o COMPLETED.
Definition cancel (o : t) : t := withStatus o CANCELLED.

Definition isPending (o : t) : bool :=
  match status o with
  | PENDING => true
  | _ => false
  end.

End Order.

(** *** 4.5 [Transaction] *)

Module Transaction.

Import Machine.

Record t : Type := mk {
  transactionId : Z;        (* int *)
  orderId : Z;              (* int *)
  stockCode : string;
  stockName : string;
  type : string;
  quantity : Z;             (* int *)
  price : Z;                (* int *)
  totalAmount : Z;          (* long *)
  fee : Z;                  (* int *)
  timestamp : Z             (* time_t *)
}.

(** [(int)(amount * DEFAULT_FEE_RATE)]. *)
Definition feeOf (amount : Z) : Z :=
  Double.to_int (Double.mul (Double.of_Z amount) DEFAULT_FEE_RATE).

Definition new (w : World) (order : Order.t) (stock : ptr) (execPrice : Z)
  : option (t * World) :=
  s <- deref (heap w) stock;;
  let totalAmount := to_long (execPrice * Order.quantity order) in
  Some (mk (nextTransactionId w) (Order.orderId order)
           (Stock.code s) (Stock.name s)
           (match Order.orderType order with
            | BUY => "BUY"%string
            | SELL => "SELL"%string
            end)
           (Order.quantity order) execPrice totalAmount (feeOf totalAmount)
           (clock w),
        mkWorld (heap w) (nextOrderId w) (to_int (nextTransactionId w + 1))
          (clock w) (randoms w) (drawn w)).

Definition getNetAmount (x : t) : Z :=
  if String.eqb (type x) "BUY" then to_long (totalAmount x + fee x)
  else to_long (totalAmount x - fee x).

End Transaction.

(** *** 4.6 [Market] *)

Module Market.

Import Machine.

Record t : Type := mk {
  stocks : list ptr         (* vector<Stock *> *)
}.

Definition new : t := mk [].

Definition addStock (m : t) (stock : ptr) : t := mk (stocks m ++ [stock]).

(** The loop of [getStock]: the first stock of the list with the code;
    [Some None] is the result [nullptr]. *)
Fixpoint findStock (h : list Stock.t) (l : list ptr) (code : string)
  : option ptr :=
  match l with
  | [] => Some None
  | s :: rest =>
      st <- deref h s;;
      if String.eqb (Stock.code st) code then Some s
      else findStock h rest code
  end.

Definition getStock (h : list Stock.t) (m : t) (code : string) : option ptr :=
  findStock h (stocks m) code.

(** The rate [simulatePriceChange] draws for one stock, from the two
    values of [rand()] it uses. *)
Definition drawRate (r1 r2 : Z) : double :=
  let randVal := Z.rem r1 100 in
  if randVal <? 95 then
    Double.div (Double.of_Z (to_int (Z.rem r2 601 - 300))) (Double.of_Z 10000)
  else
    Double.div (Double.of_Z (to_int (- to_int (Z.rem r2 1001 + 500))))
               (Double.of_Z 10000).

(** The price [simulatePriceChange] moves a stock to. *)
Definition nextPrice (price : Z) (rate : double) : Z :=
  let newPrice :=
    Double.to_int
      (Double.mul (Double.of_Z price) (Double.add (Double.of_Z 1) rate)) in
  if newPrice <? 1 then 1 else newPrice.

Fixpoint simulateAll (w : World) (l : list ptr) : option World :=
  match l with
  | [] => Some w
  | stock :: rest =>
      let '(r1, w1) := rand w in
      let '(r2, w2) := rand w1 in
      match stock with
      | Some a =>
          s <- nth_error (heap w2) a;;
          simulateAll
            (withHeap w2
               (store (heap w2) a
                  (Stock.updatePrice s
                     (nextPrice (Stock.currentPrice s) (drawRate r1 r2)))))
            rest
      | None => None
      end
  end.

Definition simulatePriceChange (w : World) (m : t) : option World :=
  simulateAll w (stocks m).

End Market.

(** *** 4.6 [Account] *)

Module Account.

Import Machine.

Record t : Type := mk {
  accountNumber : string;
  balance : Z;                          (* long *)
  portfolio : Portfolio.t;
  orders : list Order.t;
  transactions : list Transaction.t
}.

Definition new (accNum : string) (initBal : Z) : t :=
  mk accNum initBal Portfolio.empty [] [].

Definition deposit (a : t) (amount : Z) : t :=
  if amount >? 0 then
    mk (accountNumber a) (to_long (balance a + amount)) (portfolio a)
       (orders a) (transactions a)
  else a.

Definition withdraw (a : t) (amount : Z) : bool * t :=
  if balance a >=? amount then
    (true, mk (accountNumber a) (to_long (balance a - amount)) (portfolio a)
              (orders a) (transactions a))
  else (false, a).

Definition placeOrder (a : t) (order : Order.t) : bool * t :=
  (true, mk (accountNumber a) (balance a) (portfolio a)
            (orders a ++ [order]) (transactions a)).

(** The loop of [executeOrder] over the orders from [rest] on; [done] are
    the orders it has passed. *)
Fixpoint executeLoop (w : World) (m : Market.t) (orderId : Z) (a : t)
    (done rest : list Order.t) : option (bool * t * World) :=
  match rest with
  | [] => Some (false, a, w)
  | order :: rest' =>
      let next := executeLoop w m orderId a (done ++ [order]) rest' in
      if (Order.orderId order =? orderId) && Order.isPending order then
        stock <- Market.getStock (heap w) m (Order.stockCode order);;
        match stock with
        | None => Some (false, a, w)
        | Some _ =>
            s <- deref (heap w) stock;;
            let currentPrice := Stock.currentPrice s in
            let totalCost := to_long (currentPrice * Order.quantity order) in
            let fee := Transaction.feeOf totalCost in
            match Order.orderType order with
            | BUY =>
                if balance a >=? to_long (totalCost + fee) then
                  pf <- Portfolio.addPosition (heap w) (portfolio a) stock
                             (Order.quantity order) currentPrice;;
                  let order' := Order.execute order in
                  '(x, w') <- Transaction.new w order' stock currentPrice;;
                  Some (true,
                        mk (accountNumber a)
                           (to_long (balance a - to_long (totalCost + fee)))
                           pf (done ++ order' :: rest')
                           (transactions a ++ [x]),
                        w')
                else next
            | SELL =>
                if Portfolio.hasPosition (portfolio a) (Stock.code s) then
                  match Portfolio.getPosition (portfolio a) (Stock.code s) with
                  | Some pos =>
                    if Position.quantity pos >=? Order.quantity order then
                      let pf :=
                        snd (Portfolio.reducePosition (portfolio a)
                               (Stock.code s) (Order.quantity order)) in
                      let netRevenue := to_long (totalCost - fee) in
                      let order' := Order.execute order in
                      '(x, w') <- Transaction.new w order' stock currentPrice;;
                      Some (true,
                            mk (accountNumber a)
                               (to_long (balance a + netRevenue))
                               pf (done ++ order' :: rest')
                               (transactions a ++ [x]),
                            w')
                    else next
                  | None => next
                  end
                else next
            end
        end
      else next
  end.

Definition executeOrder (w : World) (a : t) (orderId : Z) (m : Market.t)
  : option (bool * t * World) :=
  executeLoop w m orderId a [] (orders a).

Definition getBalance (a : t) : Z := balance a.

Definition getTotalAssetValue (h : list Stock.t) (a : t) : option Z :=
  v <- Portfolio.getTotalValue h (portfolio a);;
  Some (to_long (balance a + v)).

End Account.

(** *** 4.8 [User] *)

Module User.

Record t : Type := mk {
  userId : string;
  password : string;
  name : string;
  account : Account.t       (* Account*, owned *)
}.

Definition new (id pw n : string) : t :=
  mk id pw n (Account.new (id ++ "_ACC") 0).

Definition login (u : t) (id pw : string) : bool :=
  String.eqb (userId u) id && String.eqb (password u) pw.

Definition getAccount (u : t) : Account.t := account u.

End User.

(** * Properties *)

(** ** Machine integers: values in range are not changed by a conversion *)

Section MachineFacts.

Import Machine.

Lemma wrap_range (w x : Z) :
  0 < w -> - 2 ^ (w - 1) <= wrap w x < 2 ^ (w - 1).
Proof.
  intros Hw. unfold wrap.
  assert (H2 : 2 ^ w = 2 * 2 ^ (w - 1)).
  { rewrite <- Z.pow_succ_r by lia. f_equal. lia. }
  assert (Hp : 0 < 2 ^ (w - 1)) by (apply Z.pow_pos_nonneg; lia).
  pose proof (Z.mod_pos_bound (x + 2 ^ (w - 1)) (2 ^ w)) as Hm.
  lia.
Qed.

Lemma wrap_small (w x : Z) :
  0 < w -> - 2 ^ (w - 1) <= x < 2 ^ (w - 1) -> wrap w x = x.
Proof.
  intros Hw Hx. unfold wrap.
  assert (H2 : 2 ^ w = 2 * 2 ^ (w - 1)).
  { rewrite <- Z.pow_succ_r by lia. f_equal. lia. }
  rewrite Z.mod_small by lia. lia.
Qed.

Lemma to_int_id (x : Z) : in_int x -> to_int x = x.
Proof.
  unfold in_int, int_min, int_max, to_int. intros H.
  apply wrap_small; simpl in *; lia.
Qed.

Lemma to_long_id (x : Z) : in_long x -> to_long x = x.
Proof.
  unfold in_long, long_min, long_max, to_long. intros H.
  apply wrap_small; simpl in *; lia.
Qed.

Lemma to_int_range (x : Z) : in_int (to_int x).
Proof.
  unfold in_int, int_min, int_max, to_int.
  pose proof (wrap_range 32 x ltac:(lia)) as H. simpl in *. lia.
Qed.

Lemma to_long_range (x : Z) : in_long (to_long x).
Proof.
  unfold in_long, long_min, long_max, to_long.
  pose proof (wrap_range 64 x ltac:(lia)) as H. simpl in *. lia.
Qed.

(** The product of two [int]s is a [long]. *)
Lemma int_mul_in_long (a b : Z) : in_int a -> in_int b -> in_long (a * b).
Proof.
  unfold in_int, in_long, int_min, int_max, long_min, long_max.
  simpl. intros Ha Hb. nia.
Qed.

Lemma long_div_some (a b : Z) :
  0 < b -> long_div a b = Some (Z.quot a b).
Proof.
  intros Hb. unfold long_div.
  destruct (Z.eqb_spec b 0); [lia|].
  destruct (Z.eqb_spec b (-1)); [lia|].
  now rewrite andb_false_r.
Qed.

(** A quotient truncated toward zero lies between two bounds of the
    weighted average it computes. *)
Lemma quot_between (lo hi t n : Z) :
  0 < n -> lo * n <= t <= hi * n -> lo <= Z.quot t n <= hi.
Proof.
  intros Hn [Hlo Hhi]. split.
  - rewrite <- (Z.quot_mul lo n) by lia. now apply Z.quot_le_mono.
  - rewrite <- (Z.quot_mul hi n) by lia. now apply Z.quot_le_mono.
Qed.

End MachineFacts.

(** ** The ledger operations [buy] and [sellAll] *)

Section LedgerFacts.

Import Machine.

(** The refusal rule of [buy] as the specification words it,
    [quantity <= 0] or [cash < price*quantity*(1+feeRate)], evaluated in
    the program's arithmetic. *)
Definition spec_buy_refuses (s : TradingStrategy) (price qty : Z)
    (feeRate : double) : bool :=
  (qty <=? 0) ||
  Double.ltb (Double.of_Z (cash s))
    (Double.mul (Double.of_Z (price * qty))
                (Double.add (Double.of_Z 1) feeRate)).

(** The side conditions under which a call [buy(price, qty, feeRate)] on
    ledger [s] stays within the machine types: operands in range, and no
    signed overflow in the amount charged, the cash left, the shares held
    and the counter. *)
Record buy_in_range (s : TradingStrategy) (price qty : Z) (feeRate : double)
  : Prop := {
  bir_cash : in_long (cash s);
  bir_shares : 0 <= shares s;
  bir_avg : in_int (avgPrice s);
  bir_price : in_int price;
  bir_qty : in_int qty;
  bir_charge : in_long (price * qty + trade_fee (price * qty) feeRate);
  bir_left : in_long (cash s - (price * qty + trade_fee (price * qty) feeRate));
  bir_held : shares s + qty <= int_max;
  bir_count : in_int (buyCount s + 1)
}.

Lemma buy_cost_exact (price qty : Z) :
  in_int price -> in_int qty -> buy_cost price qty = price * qty.
Proof.
  intros Hp Hq. unfold buy_cost. apply to_long_id.
  now apply int_mul_in_long.
Qed.

Lemma buy_refused (s : TradingStrategy) (price qty : Z) (feeRate : double) :
  buy_in_range s price qty feeRate ->
  qty <= 0 \/ cash s < price * qty + trade_fee (price * qty) feeRate ->
  buy s price qty feeRate = s.
Proof.
  intros R H. unfold buy.
  rewrite (buy_cost_exact price qty (bir_price _ _ _ _ R) (bir_qty _ _ _ _ R)).
  rewrite (to_long_id _ (bir_charge _ _ _ _ R)).
  destruct H as [H|H].
  - destruct (Z.gtb_spec qty 0); [lia|]. now rewrite andb_false_r.
  - destruct (Z.geb_spec (cash s)
                (price * qty + trade_fee (price * qty) feeRate)); [lia|].
    reflexivity.
Qed.

Lemma buy_total_in_long (a n p q : Z) :
  in_int a -> 0 <= n <= int_max -> in_int p -> 0 < q <= int_max ->
  in_long (a * n) /\ in_long (a * n + p * q).
Proof.
  unfold in_int, in_long, int_min, int_max, long_min, long_max. simpl.
  intros Ha Hn Hp Hq. split; nia.
Qed.

Lemma buy_accepted (s : TradingStrategy) (price qty : Z) (feeRate : double) :
  buy_in_range s price qty feeRate ->
  0 < qty ->
  price * qty + trade_fee (price * qty) feeRate <= cash s ->
  buy s price qty feeRate =
  mkTradingStrategy (name s)
    (cash s - (price * qty + trade_fee (price * qty) feeRate))
    (shares s + qty)
    (Z.quot (avgPrice s * shares s + price * qty) (shares s + qty))
    (equityHistory s) (buyCount s + 1) (sellCount s).
Proof.
  intros R Hq Hc. destruct R.
  assert (Hqr : 0 < qty <= int_max).
  { unfold in_int in *. lia. }
  assert (Hn : 0 <= shares s <= int_max) by lia.
  destruct (buy_total_in_long _ _ _ _ bir_avg0 Hn bir_price0 Hqr) as [T1 T2].
  unfold buy.
  rewrite (buy_cost_exact price qty) by assumption.
  rewrite (to_long_id _ bir_charge0).
  destruct (Z.geb_spec (cash s)
              (price * qty + trade_fee (price * qty) feeRate)); [|lia].
  destruct (Z.gtb_spec qty 0); [|lia]. simpl.
  rewrite (to_long_id _ T1), (to_long_id _ T2), (to_long_id _ bir_left0).
  rewrite (to_int_id (shares s + qty))
    by (unfold in_int, int_min in *; simpl in *; lia).
  rewrite (to_int_id _ bir_count0).
  destruct (Z.gtb_spec (shares s + qty) 0); [|lia].
  rewrite to_int_id; [reflexivity|].
  assert (Hb : Z.min (avgPrice s) price <=
               Z.quot (avgPrice s * shares s + price * qty) (shares s + qty)
               <= Z.max (avgPrice s) price).
  { apply quot_between; [lia|]. split; nia. }
  unfold in_int in *. lia.
Qed.

(** C1, counterexample: with cash 1, price 1, quantity 1 and fee rate 0.5
    the specification's refusal rule holds (1 < 1 * 1.5), yet [buy]
    goes through: the fee is (long)0.5 = 0 and the code compares the cash
    with cost + fee = 1. *)
Lemma buy_guard_counterexample :
  let s := newTradingStrategy EmptyString 1 in
  spec_buy_refuses s 1 1 (Double.lit 1 2) = true /\
  buy s 1 1 (Double.lit 1 2) <> s /\
  cash (buy s 1 1 (Double.lit 1 2)) = 0 /\
  shares (buy s 1 1 (Double.lit 1 2)) = 1.
Proof.
  vm_compute. repeat split; try reflexivity. discriminate.
Qed.

(** C1 (amended): [buy(price, qty, feeRate)] charges
    [price*qty + fee] with [fee = (long)(price*qty*feeRate)].  As long as
    the call stays within the machine types, it leaves the ledger
    unchanged when [qty <= 0] or [cash < price*qty + fee]; otherwise cash
    decreases by exactly [price*qty + fee], shares increase by [qty],
    avgPrice becomes [(avgPrice*shares + price*qty) / (shares + qty)]
    truncated toward zero (the floor when the numerator is not negative),
    the buy counter increases by exactly one and nothing else changes. *)
Theorem buy_spec (s : TradingStrategy) (price qty : Z) (feeRate : double) :
  buy_in_range s price qty feeRate ->
  let charge := price * qty + trade_fee (price * qty) feeRate in
  let total := avgPrice s * shares s + price * qty in
  let s' := buy s price qty feeRate in
  (qty <= 0 \/ cash s < charge -> s' = s) /\
  (0 < qty /\ charge <= cash s ->
     cash s' = cash s - charge /\
     shares s' = shares s + qty /\
     avgPrice s' = Z.quot total (shares s + qty) /\
     (0 <= total -> avgPrice s' = total / (shares s + qty)) /\
     buyCount s' = buyCount s + 1 /\
     sellCount s' = sellCount s /\
     equityHistory s' = equityHistory s /\
     name s' = name s).
Proof.
  intros R charge total s'. split.
  - intros H. now apply buy_refused.
  - intros [Hq Hc]. subst s'.
    rewrite (buy_accepted s price qty feeRate R Hq Hc). simpl.
    repeat split.
    intros Ht. apply Z.quot_div_nonneg; [assumption|].
    pose proof (bir_shares _ _ _ _ R). lia.
Qed.

Lemma buy_spec_witness :
  let s := newTradingStrategy EmptyString 1000 in
  let s' := buy s 100 9 (Double.lit 1 1000) in
  (9 <= 0 \/ cash s < 100 * 9 + trade_fee (100 * 9) (Double.lit 1 1000)
     -> s' = s) /\
  (0 < 9 /\ 100 * 9 + trade_fee (100 * 9) (Double.lit 1 1000) <= cash s ->
     cash s' = cash s - (100 * 9 + trade_fee (100 * 9) (Double.lit 1 1000)) /\
     shares s' = shares s + 9 /\
     avgPrice s' = Z.quot (avgPrice s * shares s + 100 * 9) (shares s + 9) /\
     (0 <= avgPrice s * shares s + 100 * 9 ->
      avgPrice s' = (avgPrice s * shares s + 100 * 9) / (shares s + 9)) /\
     buyCount s' = buyCount s + 1 /\
     sellCount s' = sellCount s /\
     equityHistory s' = equityHistory s /\
     name s' = name s).
Proof.
  apply (buy_spec (newTradingStrategy EmptyString 1000) 100 9 (Double.lit 1 1000)).
  constructor; vm_compute; try split; intro; discriminate.
Defined.

(** C2, counterexample: one share held at average 10, one more bought at
    11: the new average is 21/2 = 10, and 2 * 10 is not 1 * 10 + 11. *)
Lemma buy_cost_basis_counterexample :
  let s := mkTradingStrategy EmptyString 100 1 10 [] 0 0 in
  let s' := buy s 11 1 Double.zero in
  s' <> s /\
  shares s' * avgPrice s' <> shares s * avgPrice s + 11 * 1.
Proof.
  vm_compute. split; discriminate.
Qed.

(** C2 (amended): after a successful buy that stays within the machine
    types, [shares_after * avgPrice_after] differs from
    [shares_before * avgPrice_before + price*qty] by exactly the remainder
    of the truncated division that computes the average; for a total that
    is not negative it therefore lies in
    [(total - shares_after, total]]. *)
Theorem buy_cost_basis (s : TradingStrategy) (price qty : Z) (feeRate : double) :
  buy_in_range s price qty feeRate ->
  0 < qty ->
  price * qty + trade_fee (price * qty) feeRate <= cash s ->
  let total := shares s * avgPrice s + price * qty in
  let s' := buy s price qty feeRate in
  shares s' * avgPrice s' + Z.rem total (shares s') = total /\
  (0 <= total ->
   total - shares s' < shares s' * avgPrice s' <= total).
Proof.
  intros R Hq Hc total s'. subst s'.
  rewrite (buy_accepted s price qty feeRate R Hq Hc). simpl.
  pose proof (bir_shares _ _ _ _ R) as Hs.
  replace (avgPrice s * shares s + price * qty) with total
    by (unfold total; lia).
  pose proof (Z.quot_rem' total (shares s + qty)) as Hqr.
  split; [lia|].
  intros Ht.
  pose proof (Z.rem_bound_pos total (shares s + qty) Ht ltac:(lia)). lia.
Qed.

Lemma buy_cost_basis_witness :
  let s := mkTradingStrategy EmptyString 100 1 10 [] 0 0 in
  let total := shares s * avgPrice s + 11 * 1 in
  let s' := buy s 11 1 Double.zero in
  shares s' * avgPrice s' + Z.rem total (shares s') = total /\
  (0 <= total ->
   total - shares s' < shares s' * avgPrice s' <= total).
Proof.
  apply (buy_cost_basis (mkTradingStrategy EmptyString 100 1 10 [] 0 0) 11 1 Double.zero).
  - constructor; vm_compute; try split; intro; discriminate.
  - reflexivity.
  - vm_compute. discriminate.
Defined.

(** The side conditions under which [sellAll(price, feeRate)] on ledger
    [s] stays within the machine types. *)
Record sell_in_range (s : TradingStrategy) (price : Z) (feeRate : double)
  : Prop := {
  sir_cash : in_long (cash s);
  sir_shares : in_int (shares s);
  sir_price : in_int price;
  sir_net : in_long (price * shares s - trade_fee (price * shares s) feeRate);
  sir_after : in_long (cash s + (price * shares s
                                 - trade_fee (price * shares s) feeRate));
  sir_count : in_int (sellCount s + 1)
}.

(** With [shares > 0], [sellAll(price, feeRate)] leaves [shares = 0] and
    [avgPrice = 0], adds exactly [price*shares - fee] to the cash, with
    [fee = (long)(price*shares*feeRate)], and one to the sell counter,
    and changes nothing else; with [shares = 0] the whole ledger is
    unchanged.  (For calls that stay within the machine types.) *)
Lemma sellAll_effect (s : TradingStrategy) (price : Z) (feeRate : double) :
  sell_in_range s price feeRate ->
  let revenue := price * shares s in
  let s' := sellAll s price feeRate in
  (0 < shares s ->
     shares s' = 0 /\ avgPrice s' = 0 /\
     cash s' = cash s + (revenue - trade_fee revenue feeRate) /\
     sellCount s' = sellCount s + 1 /\
     buyCount s' = buyCount s /\
     equityHistory s' = equityHistory s /\
     name s' = name s) /\
  (shares s = 0 -> s' = s).
Proof.
  intros R revenue s'. subst s'. unfold sellAll. split.
  - intros Hs. destruct (Z.gtb_spec (shares s) 0); [|lia]. simpl.
    destruct R.
    rewrite (to_long_id (price * shares s))
      by (now apply int_mul_in_long).
    rewrite (to_long_id _ sir_net0), (to_long_id _ sir_after0).
    rewrite (to_int_id _ sir_count0). repeat split.
  - intros Hs. rewrite Hs. reflexivity.
Qed.

End LedgerFacts.

(** ** [PanicSellStrategy] *)

Module PanicSellFacts.

Import Machine PanicSellStrategy.

(** C6: on the prices 100, 90, 81 with starting cash 1000, fee rate 0 and
    threshold -0.10, the panic seller buys 10 shares at tick 0 (cash 0,
    shares 10, avgPrice 100); at tick 1 the profit rate (90-100)/100 is
    the double -0.10 itself, the comparison [<=] with the threshold
    succeeds, and everything is sold: cash 900, shares 0.  Tick 2 changes
    nothing, and the equity recorded is 1000, 900, 900. *)
Theorem panic_scenario :
  let threshold := Double.lit (-10) 100 in
  let p0 := new 1000 threshold Double.zero in
  exists p1 p2 p3,
    onPrice p0 0 100 (BacktestEngine.changeRate 0 100 100) = Some p1 /\
    (cash (base p1), shares (base p1), avgPrice (base p1)) = (0, 10, 100) /\
    buyCount (base p1) = 1 /\
    Double.div (Double.of_Z (90 - 100)) (Double.of_Z 100) = threshold /\
    Double.leb (Double.div (Double.of_Z (90 - avgPrice (base p1)))
                           (Double.of_Z (avgPrice (base p1))))
               (stopLossRate p1) = true /\
    onPrice p1 1 90 (BacktestEngine.changeRate 1 90 100) = Some p2 /\
    (cash (base p2), shares (base p2), avgPrice (base p2)) = (900, 0, 0) /\
    sellCount (base p2) = 1 /\
    onPrice p2 2 81 (BacktestEngine.changeRate 2 81 90) = Some p3 /\
    (cash (base p3), shares (base p3)) = (900, 0) /\
    (buyCount (base p3), sellCount (base p3)) = (1, 1) /\
    equityHistory (base p3) = [1000; 900; 900].
Proof.
  intros threshold p0.
  eexists _, _, _.
  repeat split; vm_compute; reflexivity.
Qed.

(** The states a panic seller can be in: those its [onPrice] reaches from
    the state [init], whatever ticks it is given. *)
Inductive reachable (init : t) : t -> Prop :=
| reach_init : reachable init init
| reach_tick p idx price rate p' :
    reachable init p -> onPrice p idx price rate = Some p' ->
    reachable init p'.

(** What holds of every reachable state: nothing has happened before the
    first buy attempt, and once sold the position is empty. *)
Definition single_shot (p : t) : Prop :=
  let s := base p in
  (hasBought p = false -> buyCount s = 0 /\ sellCount s = 0 /\ shares s = 0) /\
  0 <= buyCount s <= 1 /\
  (sellCount s = 0 \/
   sellCount s = 1 /\ shares s = 0 /\ hasBought p = true).

Lemma buy_counts (s : TradingStrategy) (price qty : Z) (f : double) :
  buy s price qty f = s \/
  buyCount (buy s price qty f) = to_int (buyCount s + 1) /\
  sellCount (buy s price qty f) = sellCount s.
Proof.
  unfold buy.
  destruct ((cash s >=? _) && (qty >? 0)); [right|left]; now simpl.
Qed.

Lemma trade_single_shot (p p' : t) (price : Z) :
  single_shot p -> trade p price = Some p' -> single_shot p'.
Proof.
  unfold single_shot, trade. intros (Hnb & Hb & Hs) H.
  destruct (negb (hasBought p) && (cash (base p) >=? price)) eqn:Eg.
  - apply andb_prop in Eg as [Enb _].
    apply negb_true_iff in Enb. specialize (Hnb Enb) as (B0 & S0 & Sh0).
    destruct (long_div _ _) as [q|]; [|discriminate].
    destruct (to_int q >? 0).
    + injection H as <-. cbn [base hasBought].
      destruct (buy_counts (base p) price (to_int q) (feeRate p))
        as [E|[E1 E2]].
      * rewrite E. repeat split; try discriminate; try lia.
      * rewrite E1, E2, B0, S0. change (to_int (0 + 1)) with 1.
        repeat split; try discriminate; lia.
    + injection H as <-. rewrite Enb. repeat split; lia.
  - destruct ((shares (base p) >? 0) && (avgPrice (base p) >? 0)) eqn:Eh.
    + apply andb_prop in Eh as [Esh _].
      destruct (Z.gtb_spec (shares (base p)) 0) as [Hsh|]; [|discriminate].
      assert (Hbt : hasBought p = true).
      { destruct (hasBought p); [reflexivity|].
        destruct (Hnb eq_refl) as (_ & _ & Z0). lia. }
      assert (Hs0 : sellCount (base p) = 0).
      { destruct Hs as [Hs|(_ & Hs & _)]; [assumption|lia]. }
      destruct (Double.leb _ _).
      * injection H as <-. unfold sellAll. cbn [base hasBought].
        destruct (Z.gtb_spec (shares (base p)) 0); [|lia].
        cbn [shares sellCount buyCount].
        rewrite Hs0, Hbt. change (to_int (0 + 1)) with 1.
        repeat split; try discriminate; lia.
      * injection H as <-. exact (conj Hnb (conj Hb Hs)).
    + injection H as <-. exact (conj Hnb (conj Hb Hs)).
Qed.

Lemma reachable_single_shot (init p : t) :
  single_shot init -> reachable init p -> single_shot p.
Proof.
  intros Hi R. induction R as [|p idx price rate p' R IH H]; [assumption|].
  unfold onPrice in H.
  destruct (trade p price) as [q|] eqn:Et; [|discriminate].
  injection H as <-.
  pose proof (trade_single_shot p q price IH Et) as Hq.
  exact Hq.
Qed.

Lemma new_single_shot (initCash : Z) (threshold fee : double) :
  single_shot (new initCash threshold fee).
Proof.
  unfold single_shot. simpl. repeat split; lia.
Qed.

(** C7: over any run, whatever the prices and the configuration, the
    panic seller buys at most once and sells at most once; and from a
    state in which it has sold, a tick never buys: the buy counter stays
    as it is and the position stays empty. *)
Theorem panic_single_shot_run (initCash : Z) (threshold fee : double) (p : t) :
  reachable (new initCash threshold fee) p ->
  0 <= buyCount (base p) <= 1 /\
  0 <= sellCount (base p) <= 1 /\
  (sellCount (base p) = 1 ->
   forall idx price rate p',
     onPrice p idx price rate = Some p' ->
     buyCount (base p') = buyCount (base p) /\
     sellCount (base p') = 1 /\
     shares (base p') = 0).
Proof.
  intros R.
  pose proof (reachable_single_shot _ _ (new_single_shot _ _ _) R)
    as (Hnb & Hb & Hs).
  split; [assumption|]. split; [lia|].
  intros H1 idx price rate p' H.
  destruct Hs as [Hs|(_ & Hsh & Hbt)]; [lia|].
  unfold onPrice in H.
  destruct (trade p price) as [q|] eqn:Et; [|discriminate].
  injection H as <-. simpl.
  unfold trade in Et. rewrite Hbt, Hsh in Et. simpl in Et.
  injection Et as <-. now rewrite Hsh.
Qed.

(** The panic seller of the scenario above after its first two ticks. *)
Definition scenario_after_sale : t :=
  Eval vm_compute in
    let p0 := new 1000 (Double.lit (-10) 100) Double.zero in
    match onPrice p0 0 100 Double.zero with
    | Some p1 =>
        match onPrice p1 1 90 (BacktestEngine.changeRate 1 90 100) with
        | Some p2 => p2
        | None => p1
        end
    | None => p0
    end.

Lemma panic_single_shot_run_witness :
  0 <= buyCount (base scenario_after_sale) <= 1 /\
  0 <= sellCount (base scenario_after_sale) <= 1 /\
  (sellCount (base scenario_after_sale) = 1 ->
   forall idx price rate p',
     onPrice scenario_after_sale idx price rate = Some p' ->
     buyCount (base p') = buyCount (base scenario_after_sale) /\
     sellCount (base p') = 1 /\
     shares (base p') = 0).
Proof.
  apply (panic_single_shot_run 1000 (Double.lit (-10) 100) Double.zero).
  eapply reach_tick with (idx := 1) (price := 90)
                         (rate := BacktestEngine.changeRate 1 90 100).
  - eapply reach_tick with (idx := 0) (price := 100) (rate := Double.zero).
    + apply reach_init.
    + vm_compute. reflexivity.
  - vm_compute. reflexivity.
Defined.

End PanicSellFacts.

(** ** [DCAStrategy] *)

Module DCAFacts.

Import Machine DCAStrategy.







End DCAFacts.

(** ** [BacktestEngine]: one equity snapshot per tick *)

Module EngineFacts.

Import Machine BacktestEngine.

(** The fee rate a strategy was configured with. *)
Definition feeRateOf (s : Strategy) : double :=
  match s with
  | PanicSell p => PanicSellStrategy.feeRate p
  | DCA d => DCAStrategy.feeRate d
  | Hold h => HoldStrategy.feeRate h
  end.

(** The divisor of the quantity computation, [price + (int)(price * feeRate)]. *)
Definition perShareCost (f : double) (price : Z) : Z :=
  to_int (price + Double.to_int (Double.mul (Double.of_Z price) f)).

(** [recorded s i prev prices snaps s']: replaying [prices] from tick [i]
    takes strategy [s] to [s'], and [snaps] lists, in tick order, the
    total value of the ledger at each tick's price once the tick has been
    traded. *)
Inductive recorded : Strategy -> Z -> Z -> list Z -> list Z -> Strategy -> Prop :=
| rec_done s i prev : recorded s i prev [] [] s
| rec_tick s i prev price rest s1 snaps s2 :
    onPrice s i price (changeRate i price prev) = Some s1 ->
    recorded s1 (i + 1) price rest snaps s2 ->
    recorded s i prev (price :: rest)
             (getTotalValue (ledger s1) price :: snaps) s2.

Lemma recordEquity_value (b : TradingStrategy) (price : Z) :
  getTotalValue (recordEquity b price) price = getTotalValue b price.
Proof. reflexivity. Qed.

(** The common contract of [onPrice]: whatever the strategy does, the
    tick ends by appending the total value at the tick's price. *)
Lemma onPrice_appends (s s' : Strategy) (i price : Z) (rate : double) :
  onPrice s i price rate = Some s' ->
  equityHistory (ledger s') =
  equityHistory (ledger s) ++ [getTotalValue (ledger s') price].
Proof.
  destruct s as [p|d|h]; simpl.
  - unfold PanicSellStrategy.onPrice.
    destruct (PanicSellStrategy.trade p price) as [p'|] eqn:E; [|discriminate].
    intros H. injection H as <-. cbn [ledger PanicSellStrategy.base].
    rewrite recordEquity_value. cbn [recordEquity equityHistory].
    f_equal. unfold PanicSellStrategy.trade in E.
    repeat match type of E with
           | (if ?c then _ else _) = _ => destruct c
           | match ?c with Some _ => _ | None => _ end = _ => destruct c
           | Some _ = Some _ => injection E as <-
           | None = Some _ => discriminate
           end; cbn [PanicSellStrategy.base]; try reflexivity.
    + unfold buy. destruct (_ && _); reflexivity.
    + unfold sellAll. destruct (_ >? _); reflexivity.
  - unfold DCAStrategy.onPrice.
    destruct (DCAStrategy.trade d i price) as [d'|] eqn:E; [|discriminate].
    intros H. injection H as <-.
    cbn [ledger DCAStrategy.base DCAStrategy.with_base].
    rewrite recordEquity_value. cbn [recordEquity equityHistory].
    f_equal. unfold DCAStrategy.trade in E.
    repeat match type of E with
           | (if ?c then _ else _) = _ => destruct c
           | match ?c with Some _ => _ | None => _ end = _ => destruct c
           | Some _ = Some _ => injection E as <-
           | None = Some _ => discriminate
           end; cbn [DCAStrategy.base]; try reflexivity.
    unfold buy. destruct (_ && _); reflexivity.
  - unfold HoldStrategy.onPrice.
    destruct (HoldStrategy.trade h price) as [h'|] eqn:E; [|discriminate].
    intros H. injection H as <-. cbn [ledger HoldStrategy.base].
    rewrite recordEquity_value. cbn [recordEquity equityHistory].
    f_equal. unfold HoldStrategy.trade in E.
    repeat match type of E with
           | (if ?c then _ else _) = _ => destruct c
           | match ?c with Some _ => _ | None => _ end = _ => destruct c
           | Some _ = Some _ => injection E as <-
           | None = Some _ => discriminate
           end; cbn [HoldStrategy.base]; try reflexivity.
    unfold buy. destruct (_ && _); reflexivity.
Qed.

Lemma recorded_history (s s' : Strategy) (i prev : Z) (prices snaps : list Z) :
  recorded s i prev prices snaps s' ->
  equityHistory (ledger s') = equityHistory (ledger s) ++ snaps /\
  length snaps = length prices.
Proof.
  induction 1 as [|s i prev price rest s1 snaps s2 H1 _ [IH1 IH2]].
  - now rewrite app_nil_r.
  - rewrite IH1, (onPrice_appends _ _ _ _ _ H1), <- app_assoc. simpl.
    now rewrite IH2.
Qed.

(** The loop of [runBattle] read as a walk over the prices not yet
    replayed. *)
Fixpoint replay (prices : list Z) (i prevPrice : Z) (ss : list Strategy)
  : option (list Strategy) :=
  match prices with
  | [] => Some ss
  | price :: rest =>
      match tickAll ss i price (changeRate i price prevPrice) with
      | None => None
      | Some ss' => replay rest (i + 1) price ss'
      end
  end.

Lemma ticks_replay (rest : list Z) :
  forall (done : list Z) (prev : Z) (ss : list Strategy),
    ticks (done ++ rest) (length rest) (length done) prev ss =
    replay rest (Z.of_nat (length done)) prev ss.
Proof.
  induction rest as [|price rest IH]; intros done prev ss; [reflexivity|].
  cbn [length ticks replay]. unfold getPriceAt.
  rewrite nth_middle.
  destruct (tickAll ss _ price _) as [ss'|]; [|reflexivity].
  specialize (IH (done ++ [price]) price ss').
  rewrite <- app_assoc, length_app in IH. cbn [app length] in IH.
  rewrite Nat.add_1_r in IH. rewrite IH. f_equal. lia.
Qed.

Lemma ticks_all (prices : list Z) (prev : Z) (ss : list Strategy) :
  ticks prices (length prices) 0 prev ss = replay prices 0 prev ss.
Proof. exact (ticks_replay prices [] prev ss). Qed.

Lemma tickAll_pointwise (ss ss' : list Strategy) (i price : Z) (rate : double) :
  tickAll ss i price rate = Some ss' ->
  Forall2 (fun s s' => onPrice s i price rate = Some s') ss ss'.
Proof.
  revert ss'. induction ss as [|s rest IH]; simpl; intros ss' H.
  - injection H as <-. constructor.
  - destruct (onPrice s i price rate) as [s1|] eqn:E1; [|discriminate].
    destruct (tickAll rest i price rate) as [rest1|]; [|discriminate].
    injection H as <-. constructor; auto.
Qed.

Lemma replay_recorded (prices : list Z) :
  forall (i prev : Z) (ss ss' : list Strategy),
    replay prices i prev ss = Some ss' ->
    Forall2 (fun s s' => exists snaps, recorded s i prev prices snaps s') ss ss'.
Proof.
  induction prices as [|price rest IH]; simpl; intros i prev ss ss' H.
  - injection H as <-. induction ss; constructor; auto.
    exists []. constructor.
  - destruct (tickAll ss i price (changeRate i price prev)) as [ss1|] eqn:E;
      [|discriminate].
    apply tickAll_pointwise in E. apply IH in H. clear IH.
    revert ss' H. induction E as [|s s1 l l1 Hs _ IHE]; intros ss' H.
    + inversion H. constructor.
    + inversion H as [|? s2 ? l2 [snaps Hr] Hrest]; subst.
      constructor; [|now apply IHE].
      eexists. econstructor; eassumption.
Qed.

Lemma onFinish_id (ss : list Strategy) (lastPrice : Z) :
  map (fun s => onFinish s lastPrice) ss = ss.
Proof. unfold onFinish. apply map_id. Qed.

End EngineFacts.

(** ** Comparison of doubles *)

Section CompareFacts.

Ltac cmp_cases :=
  repeat match goal with
         | |- context [Z.compare ?a ?b] =>
             destruct (Z.compare_spec a b); subst
         | |- context [Pos.compare ?a ?b] =>
             destruct (Pos.compare_spec a b); subst
         end;
  simpl in *; try reflexivity; try discriminate; try lia.

Lemma ltb_asym (x y : double) :
  Double.ltb x y = true -> Double.ltb y x = false.
Proof.
  unfold Double.ltb, SFltb, SFcompare.
  destruct x as [[]|[]| |[] mx ex], y as [[]|[]| |[] my ey];
    try reflexivity; try discriminate;
    change (Pos.compare_cont Eq) with Pos.compare; cmp_cases.
Qed.

Lemma ltb_irrefl (x : double) : Double.ltb x x = false.
Proof.
  destruct (Double.ltb x x) eqn:E; [|reflexivity].
  now rewrite (ltb_asym x x E) in E.
Qed.

(** On doubles that are numbers, "not less than" is transitive. *)
Lemma ltb_false_trans (x y z : double) :
  x <> S754_nan -> y <> S754_nan -> z <> S754_nan ->
  Double.ltb x y = false -> Double.ltb y z = false -> Double.ltb x z = false.
Proof.
  unfold Double.ltb, SFltb, SFcompare. intros Hx Hy Hz.
  destruct x as [[]|[]| |[] mx ex]; try congruence;
  destruct y as [[]|[]| |[] my ey]; try congruence;
  destruct z as [[]|[]| |[] mz ez]; try congruence;
    try reflexivity; try discriminate;
    change (Pos.compare_cont Eq) with Pos.compare; cmp_cases.
Qed.

End CompareFacts.

(** ** [BacktestReport]: the ranking *)

Module RankingFacts.

Import BacktestReport.

(** [a] has the strictly smaller total return. *)
Definition ltR (a b : StrategyReport) : bool :=
  Double.ltb (totalReturn a) (totalReturn b).

(** [a] may stand before [b] in a descending order of total return. *)
Definition geR (a b : StrategyReport) : Prop := ltR a b = false.

(** Equal total returns: neither is smaller. *)
Definition same_return (a b : StrategyReport) : bool :=
  negb (ltR a b) && negb (ltR b a).

(** The total return is a number. *)
Definition comparable (r : StrategyReport) : Prop :=
  totalReturn r <> S754_nan.

Lemma geR_trans (a b c : StrategyReport) :
  comparable a -> comparable b -> comparable c ->
  geR a b -> geR b c -> geR a c.
Proof. unfold geR, ltR, comparable. apply ltb_false_trans. Qed.

Lemma ltR_geR (a b : StrategyReport) : ltR a b = true -> geR b a.
Proof. unfold geR, ltR. apply ltb_asym. Qed.

Lemma geR_refl (a : StrategyReport) : geR a a.
Proof. unfold geR, ltR. apply ltb_irrefl. Qed.

(** The comparisons [j = 0 .. k-1] of the inner loop read as one walk
    from the left that carries the element currently at position [j]. *)
Fixpoint bubble (k : nat) (l : list StrategyReport) : list StrategyReport :=
  match k, l with
  | S k', a :: b :: rest =>
      if ltR a b then b :: bubble k' (a :: rest) else a :: bubble k' (b :: rest)
  | _, _ => l
  end.

(** The outer loop from pass [i] on, [n] passes left. *)
Fixpoint passes (n i : nat) (l : list StrategyReport) : list StrategyReport :=
  match n with
  | O => l
  | S n' => passes n' (S i) (bubble (length l - 1 - i) l)
  end.

Lemma compare_swap_at (pre rest : list StrategyReport) (a b : StrategyReport) :
  compare_swap (pre ++ a :: b :: rest) (length pre) =
  pre ++ (if ltR a b then b :: a :: rest else a :: b :: rest).
Proof.
  unfold compare_swap, swap.
  assert (Ha : nth_error (pre ++ a :: b :: rest) (length pre) = Some a).
  { rewrite nth_error_app2, Nat.sub_diag by lia. reflexivity. }
  assert (Hb : nth_error (pre ++ a :: b :: rest) (S (length pre)) = Some b).
  { rewrite nth_error_app2 by lia.
    replace (S (length pre) - length pre)%nat with 1%nat by lia. reflexivity. }
  rewrite Ha, Hb. fold (ltR a b). destruct (ltR a b); [|reflexivity].
  rewrite firstn_app, Nat.sub_diag, firstn_all, firstn_O, app_nil_r.
  rewrite skipn_app, skipn_all2 by lia.
  replace (S (S (length pre)) - length pre)%nat with 2%nat by lia.
  reflexivity.
Qed.

Lemma compare_swap_end (v : list StrategyReport) (j : nat) :
  (length v <= S j)%nat -> compare_swap v j = v.
Proof.
  intros H. unfold compare_swap.
  destruct (nth_error v j); [|reflexivity].
  assert (E : nth_error v (S j) = None) by (apply nth_error_None; lia).
  now rewrite E.
Qed.

Lemma inner_loop_end (k : nat) :
  forall (j : nat) (v : list StrategyReport),
    (length v <= S j)%nat -> fold_left compare_swap (seq j k) v = v.
Proof.
  induction k as [|k IH]; intros j v H; [reflexivity|].
  cbn [seq fold_left]. rewrite compare_swap_end by assumption.
  apply IH. lia.
Qed.

(** The inner loop, entered at index [length pre], is the walk [bubble]
    on the rest of the vector. *)
Lemma inner_loop_bubble (k : nat) :
  forall (pre l : list StrategyReport),
    fold_left compare_swap (seq (length pre) k) (pre ++ l) = pre ++ bubble k l.
Proof.
  induction k as [|k IH]; intros pre l; [now destruct l|].
  destruct l as [|a [|b rest]].
  - apply inner_loop_end. rewrite app_nil_r. lia.
  - apply inner_loop_end. rewrite length_app. simpl. lia.
  - cbn [seq fold_left bubble]. rewrite compare_swap_at.
    destruct (ltR a b).
    + specialize (IH (pre ++ [b]) (a :: rest)).
      rewrite <- app_assoc, length_app in IH. cbn [app length] in IH.
      rewrite Nat.add_1_r in IH. rewrite IH, <- app_assoc. reflexivity.
    + specialize (IH (pre ++ [a]) (b :: rest)).
      rewrite <- app_assoc, length_app in IH. cbn [app length] in IH.
      rewrite Nat.add_1_r in IH. rewrite IH, <- app_assoc. reflexivity.
Qed.

Lemma pass_bubble (v : list StrategyReport) (i : nat) :
  pass v i = bubble (length v - 1 - i) v.
Proof. exact (inner_loop_bubble (length v - 1 - i) [] v). Qed.

Lemma outer_loop_passes (n : nat) :
  forall (i : nat) (v : list StrategyReport),
    fold_left pass (seq i n) v = passes n i v.
Proof.
  induction n as [|n IH]; intros i v; [reflexivity|].
  cbn [seq fold_left passes]. now rewrite pass_bubble, IH.
Qed.

(** The two loops of [printRanking] are [length results] passes of
    [bubble]. *)
Lemma ranked_passes (results : list StrategyReport) :
  ranked results = passes (length results) 0 results.
Proof. apply outer_loop_passes. Qed.

Lemma bubble_0 (l : list StrategyReport) : bubble 0 l = l.
Proof. now destruct l. Qed.

Lemma bubble_step (k : nat) (a b : StrategyReport) (rest : list StrategyReport) :
  bubble (S k) (a :: b :: rest) =
  if ltR a b then b :: bubble k (a :: rest) else a :: bubble k (b :: rest).
Proof. reflexivity. Qed.

Lemma bubble_perm (k : nat) :
  forall l, Permutation l (bubble k l).
Proof.
  induction k as [|k IH]; intros l; [now rewrite bubble_0|].
  destruct l as [|a [|b rest]]; try apply Permutation_refl.
  rewrite bubble_step. destruct (ltR a b).
  - rewrite perm_swap. apply perm_skip, IH.
  - apply perm_skip, IH.
Qed.

Lemma bubble_length (k : nat) (l : list StrategyReport) :
  length (bubble k l) = length l.
Proof. symmetry. apply Permutation_length, bubble_perm. Qed.

(** Comparisons that stay inside a prefix leave the rest alone. *)
Lemma bubble_app (k : nat) :
  forall pre suf, (k < length pre)%nat ->
                  bubble k (pre ++ suf) = bubble k pre ++ suf.
Proof.
  induction k as [|k IH]; intros pre suf Hk; [now rewrite !bubble_0|].
  destruct pre as [|a [|b rest]]; simpl in Hk; try lia.
  cbn [app]. rewrite !bubble_step.
  destruct (ltR a b); cbn [app]; f_equal;
    apply (IH (_ :: rest) suf); simpl; lia.
Qed.

(** A full run of the inner loop over a segment leaves one of its
    smallest elements in last place. *)
Lemma bubble_min (l : list StrategyReport) :
  forall a, Forall comparable (a :: l) ->
    exists init m,
      bubble (length l) (a :: l) = init ++ [m] /\
      Forall (fun y => geR y m) (a :: l).
Proof.
  induction l as [|b rest IH]; intros a Hc.
  - exists [], a. split; [reflexivity|]. constructor; [apply geR_refl|constructor].
  - cbn [length]. rewrite bubble_step.
    inversion Hc as [|? ? Ha Hc']; subst.
    inversion Hc' as [|? ? Hb Hrest]; subst.
    destruct (ltR a b) eqn:E.
    + destruct (IH a (Forall_cons _ Ha Hrest)) as (init & m & Eq & Hm).
      exists (b :: init), m. rewrite Eq. split; [reflexivity|].
      inversion Hm as [|? ? Ham Hrm]; subst.
      assert (Hcm : comparable m).
      { assert (Hin : In m (a :: rest)).
        { apply (Permutation_in m (Permutation_sym (bubble_perm (length rest) (a :: rest)))).
          rewrite Eq. apply in_or_app. right. now left. }
        rewrite Forall_forall in Hrest. destruct Hin as [<-|Hin]; auto. }
      constructor; [assumption|]. constructor; [|assumption].
      apply (geR_trans b a m); auto. now apply ltR_geR.
    + destruct (IH b Hc') as (init & m & Eq & Hm).
      exists (a :: init), m. rewrite Eq. split; [reflexivity|].
      inversion Hm as [|? ? Hbm Hrm]; subst.
      assert (Hcm : comparable m).
      { assert (Hin : In m (b :: rest)).
        { apply (Permutation_in m (Permutation_sym (bubble_perm (length rest) (b :: rest)))).
          rewrite Eq. apply in_or_app. right. now left. }
        rewrite Forall_forall in Hc'. auto. }
      constructor; [|assumption].
      apply (geR_trans a b m); auto.
Qed.

Lemma passes_perm (n : nat) :
  forall i l, Permutation l (passes n i l).
Proof.
  induction n as [|n IH]; intros i l; simpl; [apply Permutation_refl|].
  eapply Permutation_trans; [apply bubble_perm|apply IH].
Qed.

(** The loop invariant of the outer loop: after [i] passes the last [i]
    places hold, in descending order, elements that none of the others
    is smaller than. *)
Lemma passes_sorted (n : nat) :
  forall i pre suf,
    length pre = n -> length suf = i ->
    Forall comparable (pre ++ suf) ->
    StronglySorted geR suf ->
    Forall (fun x => Forall (geR x) suf) pre ->
    StronglySorted geR (passes n i (pre ++ suf)).
Proof.
  induction n as [|n IH]; intros i pre suf Hn Hi Hc Hs Hps.
  - destruct pre; [|discriminate]. exact Hs.
  - cbn [passes]. rewrite length_app, Hn, Hi.
    replace (S n + i - 1 - i)%nat with n by lia.
    destruct pre as [|a pre0]; [discriminate|].
    injection Hn as Hn.
    rewrite bubble_app by (simpl; lia).
    apply Forall_app in Hc as [Hcp Hcs].
    destruct (bubble_min pre0 a Hcp) as (init & m & Eq & Hm).
    subst n. rewrite Eq, <- app_assoc. cbn [app].
    assert (Hperm : Permutation (a :: pre0) (init ++ [m])).
    { rewrite <- Eq. apply bubble_perm. }
    assert (Hmin : In m (a :: pre0)).
    { apply (Permutation_in m (Permutation_sym Hperm)).
      apply in_or_app. right. now left. }
    assert (Hinit : forall x, In x init -> In x (a :: pre0)).
    { intros x Hx. apply (Permutation_in x (Permutation_sym Hperm)).
      apply in_or_app. now left. }
    rewrite Forall_forall in Hps, Hm, Hcp.
    apply IH.
    + apply Permutation_length in Hperm. rewrite length_app in Hperm.
      simpl in Hperm. lia.
    + simpl. lia.
    + apply Forall_app. split.
      * apply Forall_forall. intros x Hx. apply Hcp. auto.
      * constructor; auto.
    + constructor; [assumption|]. auto.
    + apply Forall_forall. intros x Hx. constructor; auto.
Qed.

Lemma ranked_sorted (l : list StrategyReport) :
  Forall comparable l -> StronglySorted geR (ranked l).
Proof.
  intros Hc. rewrite ranked_passes.
  rewrite <- (app_nil_r l) at 2.
  apply passes_sorted; auto.
  - now rewrite app_nil_r.
  - constructor.
  - apply Forall_forall. intros. constructor.
Qed.

(** On a vector already in descending order no comparison swaps. *)
Lemma bubble_sorted (k : nat) :
  forall l, StronglySorted geR l -> bubble k l = l.
Proof.
  induction k as [|k IH]; intros l Hs; [apply bubble_0|].
  destruct l as [|a [|b rest]]; try reflexivity.
  rewrite bubble_step.
  inversion Hs as [|? ? Hs' Ha]; subst.
  inversion Ha as [|? ? Hab _]; subst.
  unfold geR in Hab. rewrite Hab. f_equal. now apply IH.
Qed.

Lemma passes_sorted_id (n : nat) :
  forall i l, StronglySorted geR l -> passes n i l = l.
Proof.
  induction n as [|n IH]; intros i l Hs; simpl; [reflexivity|].
  rewrite bubble_sorted by assumption. now apply IH.
Qed.

(** Elements with equal returns are never swapped. *)
Lemma bubble_stable (x : StrategyReport) (k : nat) :
  forall l, Forall comparable (x :: l) ->
    filter (same_return x) (bubble k l) = filter (same_return x) l.
Proof.
  induction k as [|k IH]; intros l Hc; [now rewrite bubble_0|].
  destruct l as [|a [|b rest]]; try reflexivity.
  rewrite bubble_step.
  inversion Hc as [|? ? Hx Hl]; subst.
  inversion Hl as [|? ? Ha Hl']; subst.
  inversion Hl' as [|? ? Hb Hrest]; subst.
  destruct (ltR a b) eqn:E.
  - cbn [filter]. rewrite (IH (a :: rest)) by (repeat constructor; auto).
    cbn [filter].
    destruct (same_return x a) eqn:Ea, (same_return x b) eqn:Eb;
      try reflexivity.
    exfalso. unfold same_return in Ea, Eb.
    apply andb_prop in Ea as [_ Ea]. apply andb_prop in Eb as [Eb _].
    apply negb_true_iff in Ea, Eb.
    pose proof (geR_trans a x b Ha Hx Hb Ea Eb) as Hab.
    unfold geR in Hab. congruence.
  - cbn [filter]. rewrite (IH (b :: rest)) by (repeat constructor; auto).
    reflexivity.
Qed.

Lemma passes_stable (x : StrategyReport) (n : nat) :
  forall i l, Forall comparable (x :: l) ->
    filter (same_return x) (passes n i l) = filter (same_return x) l.
Proof.
  induction n as [|n IH]; intros i l Hc; simpl; [reflexivity|].
  rewrite IH, bubble_stable; auto.
  inversion Hc; subst. constructor; auto.
  eapply Permutation_Forall; [apply bubble_perm|assumption].
Qed.

(** C9: on reports whose total returns are numbers, the vector [ranked]
    that [printRanking] builds is a permutation of the reports, in
    descending order of total return, with reports of equal return in
    their original (registration) order; ranking it again, or ranking any
    vector that is already in descending order, changes nothing. *)
Theorem ranked_spec (results : list StrategyReport) :
  Forall comparable results ->
  Permutation results (ranked results) /\
  StronglySorted geR (ranked results) /\
  (forall x, comparable x ->
     filter (same_return x) (ranked results) =
     filter (same_return x) results) /\
  ranked (ranked results) = ranked results /\
  (StronglySorted geR results -> ranked results = results).
Proof.
  intros Hc. pose proof (ranked_sorted results Hc) as Hs.
  rewrite (ranked_passes (ranked results)).
  rewrite (ranked_passes results) in *.
  split; [apply passes_perm|].
  split; [assumption|].
  split; [intros x Hx; apply passes_stable; now constructor|].
  split; [|apply passes_sorted_id].
  now apply passes_sorted_id.
Qed.

(** Four reports with total returns -11, 27, 7 and 27 (in percent). *)
Definition sample_reports : list StrategyReport :=
  map (fun nr : string * Z =>
         mkStrategyReport (fst nr) 100 (100 + snd nr)
           (Double.mul (Double.div (Double.of_Z (snd nr)) (Double.of_Z 100))
                       (Double.of_Z 100))
           Double.zero 0 0 0 0)
      [("panic"%string, -11); ("dca"%string, 27);
       ("hold"%string, 7); ("late"%string, 27)].

Lemma ranked_spec_witness :
  Permutation sample_reports (ranked sample_reports) /\
  StronglySorted geR (ranked sample_reports) /\
  (forall x, comparable x ->
     filter (same_return x) (ranked sample_reports) =
     filter (same_return x) sample_reports) /\
  ranked (ranked sample_reports) = ranked sample_reports /\
  (StronglySorted geR sample_reports -> ranked sample_reports = sample_reports).
Proof.
  apply (ranked_spec sample_reports).
  repeat constructor; vm_compute; discriminate.
Defined.

Example ranked_sample :
  map strategyName (ranked sample_reports) =
  ["dca"; "late"; "hold"; "panic"]%string.
Proof. vm_compute. reflexivity. Qed.

End RankingFacts.

(** * Binary64 arithmetic: what rounding guarantees *)

(** ** Real values of doubles *)

Definition bpow (e : Z) : R := powerRZ 2 e.

Lemma bpow_gt_0 (e : Z) : (0 < bpow e)%R.
Proof. apply powerRZ_lt. lra. Qed.

Lemma bpow_plus (a b : Z) : bpow (a + b) = (bpow a * bpow b)%R.
Proof. apply powerRZ_add. lra. Qed.

Lemma bpow_0 : bpow 0 = 1%R.
Proof. reflexivity. Qed.

Lemma bpow_1 : bpow 1 = 2%R.
Proof. unfold bpow. simpl. lra. Qed.

Lemma bpow_IZR (e : Z) : 0 <= e -> bpow e = IZR (2 ^ e).
Proof.
  intros He. unfold bpow. rewrite <- (Z2Nat.id e He).
  rewrite <- pow_powerRZ. now rewrite pow_IZR.
Qed.

Lemma bpow_le (a b : Z) : a <= b -> (bpow a <= bpow b)%R.
Proof.
  intros H. replace b with (a + (b - a)) by lia. rewrite bpow_plus.
  rewrite (bpow_IZR (b - a)) by lia.
  assert (1 <= 2 ^ (b - a)) by (apply (Z.pow_le_mono_r 2 0); lia).
  apply IZR_le in H0. pose proof (bpow_gt_0 a). nra.
Qed.

Lemma bpow_lt (a b : Z) : a < b -> (bpow a < bpow b)%R.
Proof.
  intros H. replace b with (a + (b - a)) by lia. rewrite bpow_plus.
  rewrite (bpow_IZR (b - a)) by lia.
  assert (2 <= 2 ^ (b - a)).
  { change 2 with (2 ^ 1) at 1. apply Z.pow_le_mono_r; lia. }
  apply IZR_le in H0. pose proof (bpow_gt_0 a). nra.
Qed.

Definition F2R (m e : Z) : R := (IZR m * bpow e)%R.

Lemma F2R_shift (m e k : Z) : 0 <= k -> F2R (m * 2 ^ k) e = F2R m (e + k).
Proof.
  intros Hk. unfold F2R. rewrite mult_IZR, bpow_plus, (bpow_IZR k Hk). ring.
Qed.

Lemma F2R_le (m1 m2 e : Z) : m1 <= m2 -> (F2R m1 e <= F2R m2 e)%R.
Proof.
  intros H. apply IZR_le in H. unfold F2R. pose proof (bpow_gt_0 e). nra.
Qed.

Lemma F2R_lt_inv (m1 m2 e : Z) : (F2R m1 e < F2R m2 e)%R -> m1 < m2.
Proof.
  intros H. apply lt_IZR. unfold F2R in H. pose proof (bpow_gt_0 e). nra.
Qed.

Lemma F2R_le_inv (m1 m2 e : Z) : (F2R m1 e <= F2R m2 e)%R -> m1 <= m2.
Proof.
  intros H. apply le_IZR. unfold F2R in H. pose proof (bpow_gt_0 e). nra.
Qed.

(** ** The number of binary digits *)

Lemma digits2_pos_bounds (p : positive) :
  2 ^ (Zpos (digits2_pos p) - 1) <= Zpos p < 2 ^ Zpos (digits2_pos p).
Proof.
  induction p as [p IH|p IH|]; cbn [digits2_pos].
  - rewrite Pos2Z.inj_succ.
    replace (Z.succ (Zpos (digits2_pos p)) - 1)
      with (Z.succ (Zpos (digits2_pos p) - 1)) by lia.
    rewrite !Z.pow_succ_r by lia. lia.
  - rewrite Pos2Z.inj_succ.
    replace (Z.succ (Zpos (digits2_pos p)) - 1)
      with (Z.succ (Zpos (digits2_pos p) - 1)) by lia.
    rewrite !Z.pow_succ_r by lia. lia.
  - simpl. lia.
Qed.

Lemma Zdigits2_bounds (m : Z) :
  0 < m -> 0 < Zdigits2 m /\ 2 ^ (Zdigits2 m - 1) <= m < 2 ^ Zdigits2 m.
Proof.
  destruct m as [|p|p]; try lia. intros _. simpl.
  split; [lia|apply digits2_pos_bounds].
Qed.

Lemma Zdigits2_unique (m k : Z) :
  2 ^ (k - 1) <= m < 2 ^ k -> 0 < k -> Zdigits2 m = k.
Proof.
  intros [Hlo Hhi] Hk.
  assert (Hm : 0 < m).
  { assert (0 < 2 ^ (k - 1)) by (apply Z.pow_pos_nonneg; lia). lia. }
  destruct (Zdigits2_bounds m Hm) as (Hd & Hdlo & Hdhi).
  destruct (Z.lt_trichotomy (Zdigits2 m) k) as [H|[H|H]]; [|assumption|].
  - assert (2 ^ Zdigits2 m <= 2 ^ (k - 1)) by (apply Z.pow_le_mono_r; lia). lia.
  - assert (2 ^ k <= 2 ^ (Zdigits2 m - 1)) by (apply Z.pow_le_mono_r; lia). lia.
Qed.

Lemma Zdigits2_le (m k : Z) : 0 <= k -> 0 <= m < 2 ^ k -> Zdigits2 m <= k.
Proof.
  intros Hk [Hm0 Hm]. destruct (Z.eq_dec m 0) as [->|Hz]; [simpl; lia|].
  destruct (Zdigits2_bounds m ltac:(lia)) as (Hd & Hdlo & Hdhi).
  destruct (Z_le_gt_dec (Zdigits2 m) k) as [H|H]; [assumption|].
  assert (2 ^ k <= 2 ^ (Zdigits2 m - 1)) by (apply Z.pow_le_mono_r; lia). lia.
Qed.

Lemma Zdigits2_ge (m k : Z) : 0 < k -> 2 ^ (k - 1) <= m -> k <= Zdigits2 m.
Proof.
  intros Hk Hm.
  assert (0 < 2 ^ (k - 1)) by (apply Z.pow_pos_nonneg; lia).
  destruct (Zdigits2_bounds m ltac:(lia)) as (Hd & Hdlo & Hdhi).
  destruct (Z_le_gt_dec k (Zdigits2 m)) as [H'|H']; [assumption|].
  assert (2 ^ Zdigits2 m <= 2 ^ (k - 1)) by (apply Z.pow_le_mono_r; lia). lia.
Qed.

(** Digits of a mantissa shifted right by [n] places. *)
Lemma Zdigits2_div_pow (m n : Z) :
  0 < m -> 0 <= n -> n < Zdigits2 m ->
  Zdigits2 (m / 2 ^ n) = Zdigits2 m - n.
Proof.
  intros Hm Hn Hlt.
  destruct (Zdigits2_bounds m Hm) as (Hd & Hdlo & Hdhi).
  assert (Hp : 0 < 2 ^ n) by (apply Z.pow_pos_nonneg; lia).
  apply Zdigits2_unique; [|lia]. split.
  - apply Z.div_le_lower_bound; [assumption|].
    rewrite <- Z.pow_add_r by lia.
    replace (n + (Zdigits2 m - n - 1)) with (Zdigits2 m - 1) by lia. assumption.
  - apply Z.div_lt_upper_bound; [assumption|].
    rewrite <- Z.pow_add_r by lia.
    replace (n + (Zdigits2 m - n)) with (Zdigits2 m) by lia. assumption.
Qed.

Lemma div_pow_small (m n : Z) :
  0 <= m -> 0 <= n -> Zdigits2 m <= n -> m / 2 ^ n = 0.
Proof.
  intros Hm Hn Hd. apply Z.div_small. split; [assumption|].
  destruct (Z.eq_dec m 0) as [->|Hz]; [apply Z.pow_pos_nonneg; lia|].
  destruct (Zdigits2_bounds m ltac:(lia)) as (Hd0 & Hdlo & Hdhi).
  assert (2 ^ Zdigits2 m <= 2 ^ n) by (apply Z.pow_le_mono_r; lia). lia.
Qed.

(** ** Shifting a mantissa right, with round and sticky bits *)

(** [inb x e mrs]: the record [mrs] locates the real [x] on the grid of
    step [2^e]: at [m], strictly inside the lower half of the cell above
    [m], at its middle, or strictly inside its upper half. *)
Definition inb (x : R) (e : Z) (mrs : shr_record) : Prop :=
  let m := IZR (shr_m mrs) in
  let u := bpow e in
  match shr_r mrs, shr_s mrs with
  | false, false => x = (m * u)%R
  | false, true => (m * u < x < (m + / 2) * u)%R
  | true, false => x = ((m + / 2) * u)%R
  | true, true => ((m + / 2) * u < x < (m + 1) * u)%R
  end.

Lemma inb_cell (x : R) (e : Z) (mrs : shr_record) :
  inb x e mrs -> (F2R (shr_m mrs) e <= x < F2R (shr_m mrs + 1) e)%R.
Proof.
  unfold inb, F2R. rewrite plus_IZR. pose proof (bpow_gt_0 e).
  destruct (shr_r mrs), (shr_s mrs); intros; nra.
Qed.

Lemma shr_m_of_loc (m : Z) (l : location) : shr_m (shr_record_of_loc m l) = m.
Proof. now destruct l as [|[]]. Qed.

Lemma shr_1_spec (x : R) (e : Z) (mrs : shr_record) :
  0 <= shr_m mrs -> inb x e mrs ->
  inb x (e + 1) (shr_1 mrs) /\ shr_m (shr_1 mrs) = shr_m mrs / 2.
Proof.
  destruct mrs as [m r s]. cbn [shr_m]. intros Hm H.
  unfold inb in *. cbn [shr_m shr_r shr_s] in H.
  rewrite bpow_plus, bpow_1. pose proof (bpow_gt_0 e) as Hu.
  destruct m as [|[p|p|]|p]; try lia; cbn [shr_1 shr_m shr_r shr_s].
  - split; [|reflexivity].
    destruct r, s; cbn [orb]; nra.
  - rewrite Pos2Z.inj_xI in H. rewrite plus_IZR, mult_IZR in H.
    split; [|rewrite Pos2Z.inj_xI; apply Z.div_unique with 1; lia].
    destruct r, s; cbn [orb]; nra.
  - rewrite Pos2Z.inj_xO in H. rewrite mult_IZR in H.
    split; [|rewrite Pos2Z.inj_xO; apply Z.div_unique with 0; lia].
    destruct r, s; cbn [orb]; nra.
  - split; [|reflexivity].
    destruct r, s; cbn [orb]; nra.
Qed.

Lemma iter_shr_1_spec (x : R) (n : positive) :
  forall (e : Z) (mrs : shr_record),
    0 <= shr_m mrs -> inb x e mrs ->
    inb x (e + Zpos n) (SpecFloat.iter_pos shr_1 n mrs) /\
    shr_m (SpecFloat.iter_pos shr_1 n mrs) = shr_m mrs / 2 ^ Zpos n.
Proof.
  assert (Hdd : forall a b c, 0 <= b -> 0 <= c -> a / 2 ^ b / 2 ^ c = a / 2 ^ (b + c)).
  { intros a b c Hb Hc. rewrite Z.pow_add_r by assumption.
    assert (0 < 2 ^ b) by (apply Z.pow_pos_nonneg; lia).
    assert (0 < 2 ^ c) by (apply Z.pow_pos_nonneg; lia).
    apply Z.div_div; lia. }
  induction n as [n IH|n IH|]; intros e mrs Hm H; cbn [SpecFloat.iter_pos].
  - destruct (shr_1_spec x e mrs Hm H) as [H1 E1].
    assert (Hm1 : 0 <= shr_m (shr_1 mrs)).
    { rewrite E1. apply Z.div_pos; lia. }
    destruct (IH _ _ Hm1 H1) as [H2 E2].
    assert (Hm2 : 0 <= shr_m (SpecFloat.iter_pos shr_1 n (shr_1 mrs))).
    { rewrite E2. apply Z.div_pos; [lia|apply Z.pow_pos_nonneg; lia]. }
    destruct (IH _ _ Hm2 H2) as [H3 E3].
    split.
    + replace (e + Zpos n~1) with (e + 1 + Zpos n + Zpos n) by lia. exact H3.
    + rewrite E3, E2, E1. change 2 with (2 ^ 1) at 1.
      rewrite !Hdd by lia. f_equal. f_equal. lia.
  - destruct (IH _ _ Hm H) as [H2 E2].
    assert (Hm2 : 0 <= shr_m (SpecFloat.iter_pos shr_1 n mrs)).
    { rewrite E2. apply Z.div_pos; [lia|apply Z.pow_pos_nonneg; lia]. }
    destruct (IH _ _ Hm2 H2) as [H3 E3].
    split.
    + replace (e + Zpos n~0) with (e + Zpos n + Zpos n) by lia. exact H3.
    + rewrite E3, E2, Hdd by lia. f_equal. f_equal. lia.
  - destruct (shr_1_spec x e mrs Hm H) as [H1 E1]. split; assumption.
Qed.

Lemma shr_spec (x : R) (mrs : shr_record) (e n : Z) :
  0 <= shr_m mrs -> 0 <= n -> inb x e mrs ->
  inb x (e + n) (fst (shr mrs e n)) /\
  snd (shr mrs e n) = e + n /\
  shr_m (fst (shr mrs e n)) = shr_m mrs / 2 ^ n.
Proof.
  intros Hm Hn H. destruct n as [|p|p]; try lia; cbn [shr fst snd].
  - rewrite Z.add_0_r, Z.div_1_r. auto.
  - destruct (iter_shr_1_spec x p e mrs Hm H). auto.
Qed.

Lemma shr_nop (mrs : shr_record) (e n : Z) : n <= 0 -> shr mrs e n = (mrs, e).
Proof. destruct n; try reflexivity. lia. Qed.

(** The mantissa chosen by rounding to nearest, ties to even. *)
Definition rne (mrs : shr_record) : Z :=
  round_nearest_even (shr_m mrs) (loc_of_shr_record mrs).

Lemma rne_cases (mrs : shr_record) :
  rne mrs = shr_m mrs \/ rne mrs = shr_m mrs + 1.
Proof.
  unfold rne. destruct mrs as [m [] []]; cbn; auto.
  destruct (Z.even m); auto.
Qed.

Lemma rne_exact (mrs : shr_record) :
  shr_r mrs = false -> shr_s mrs = false -> rne mrs = shr_m mrs.
Proof. destruct mrs as [m r s]. cbn. now intros -> ->. Qed.

(** ** Rounding to binary64 *)

Definition dfexp (e : Z) : Z := Z.max (e - 53) (-1074).

Lemma fexp_eq (e : Z) : fexp 53 1024 e = dfexp e.
Proof. reflexivity. Qed.

(** The double that rounding produces from the rounded mantissa [m2] on
    the grid of step [2^e1]. *)
Definition round_result (s : bool) (m2 e1 : Z) : spec_float :=
  match m2 with
  | Z0 => S754_zero s
  | Zpos p =>
      if m2 =? 2 ^ 53 then
        if e1 + 1 <=? 971 then S754_finite s (2 ^ 52)%positive (e1 + 1)
        else S754_infinity s
      else
        if e1 <=? 971 then S754_finite s p e1 else S754_infinity s
  | Zneg _ => S754_nan
  end.

(** [mrs] locates [x] on the grid on which [m * 2^e] is rounded. *)
Record on_grid (x : R) (m e : Z) (mrs : shr_record) : Prop := {
  og_inb : inb x (dfexp (Zdigits2 m + e)) mrs;
  og_m : shr_m mrs = m / 2 ^ (dfexp (Zdigits2 m + e) - e);
  og_lt : 0 <= shr_m mrs < 2 ^ 53;
  og_norm : 2 ^ 52 <= shr_m mrs \/ dfexp (Zdigits2 m + e) = -1074
}.

Lemma on_grid_intro (x : R) (m e : Z) (l : location) :
  0 <= m -> e <= dfexp (Zdigits2 m + e) ->
  inb x e (shr_record_of_loc m l) ->
  on_grid x m e (fst (shr (shr_record_of_loc m l) e
                          (dfexp (Zdigits2 m + e) - e))) /\
  snd (shr (shr_record_of_loc m l) e (dfexp (Zdigits2 m + e) - e)) =
  dfexp (Zdigits2 m + e).
Proof.
  intros Hm He H.
  set (e1 := dfexp (Zdigits2 m + e)) in *.
  assert (Hm' : 0 <= shr_m (shr_record_of_loc m l)) by now rewrite shr_m_of_loc.
  destruct (shr_spec x _ e (e1 - e) Hm' ltac:(lia) H) as (H1 & H2 & H3).
  rewrite shr_m_of_loc in H3.
  replace (e + (e1 - e)) with e1 in * by lia.
  split; [|assumption].
  assert (Hp : 0 < 2 ^ (e1 - e)) by (apply Z.pow_pos_nonneg; lia).
  constructor; fold e1; try assumption.
  - rewrite H3. split; [apply Z.div_pos; lia|].
    destruct (Z.eq_dec m 0) as [->|Hz]; [now rewrite Z.div_0_l by lia|].
    destruct (Zdigits2_bounds m ltac:(lia)) as (Hd & Hlo & Hhi).
    apply Z.div_lt_upper_bound; [assumption|].
    rewrite <- Z.pow_add_r by lia.
    eapply Z.lt_le_trans; [exact Hhi|].
    apply Z.pow_le_mono_r; [lia|]. unfold e1, dfexp. lia.
  - rewrite H3.
    destruct (Z.eq_dec m 0) as [->|Hz].
    { right. unfold e1, dfexp in *. simpl in *. lia. }
    destruct (Zdigits2_bounds m ltac:(lia)) as (Hd & Hlo & Hhi).
    destruct (Z.eq_dec e1 (-1074)) as [E|E]; [now right|left].
    assert (E1 : e1 = Zdigits2 m + e - 53) by (unfold e1, dfexp in *; lia).
    apply Z.div_le_lower_bound; [assumption|].
    rewrite <- Z.pow_add_r by lia.
    replace (e1 - e + 52) with (Zdigits2 m - 1) by lia. assumption.
Qed.

Lemma round_aux_exact (s : bool) (m e : Z) (l : location) (x : R) :
  0 <= m -> e <= dfexp (Zdigits2 m + e) ->
  inb x e (shr_record_of_loc m l) ->
  exists mrs,
    on_grid x m e mrs /\
    binary_round_aux 53 1024 s m e l =
    round_result s (rne mrs) (dfexp (Zdigits2 m + e)).
Proof.
  intros Hm He H.
  destruct (on_grid_intro x m e l Hm He H) as [G E].
  unfold binary_round_aux, shr_fexp. rewrite fexp_eq.
  set (e1 := dfexp (Zdigits2 m + e)) in *.
  destruct (shr (shr_record_of_loc m l) e (e1 - e)) as [mrs e1'].
  cbn [fst snd] in G, E. subst e1'.
  exists mrs. split; [assumption|].
  fold (rne mrs). rewrite fexp_eq.
  assert (He1 : -1074 <= e1) by (unfold e1, dfexp; lia).
  destruct G as [_ _ Hlt Hnorm].
  destruct (rne_cases mrs) as [Er|Er].
  - (* rounded down *)
    rewrite Er. set (m1 := shr_m mrs) in *.
    rewrite shr_nop.
    + rewrite shr_m_of_loc. unfold round_result.
      destruct m1 as [|p|p]; try lia; [reflexivity|].
      destruct (Z.eqb_spec (Zpos p) (2 ^ 53)); [lia|reflexivity].
    + assert (Zdigits2 m1 <= 53) by (apply Zdigits2_le; lia).
      unfold dfexp. lia.
  - rewrite Er. set (m1 := shr_m mrs) in *.
    destruct (Z.eq_dec (m1 + 1) (2 ^ 53)) as [E53|N53].
    + rewrite E53. unfold round_result.
      change (Zdigits2 (2 ^ 53)) with 54.
      replace (dfexp (54 + e1) - e1) with 1 by (unfold dfexp; lia).
      reflexivity.
    + rewrite shr_nop.
      * rewrite shr_m_of_loc. unfold round_result.
        destruct (m1 + 1) as [|p|p] eqn:Ep; try lia.
        destruct (Z.eqb_spec (Zpos p) (2 ^ 53)); [lia|reflexivity].
      * assert (Zdigits2 (m1 + 1) <= 53) by (apply Zdigits2_le; lia).
        unfold dfexp. lia.
Qed.

(** The magnitude of a double, as a real number. *)
Definition Bmag (z : spec_float) : R :=
  match z with
  | S754_finite _ m e => F2R (Zpos m) e
  | _ => 0%R
  end.

Definition is_finite (z : spec_float) : bool :=
  match z with
  | S754_zero _ | S754_finite _ _ _ => true
  | _ => false
  end.

(** [z] is a number or an infinity of sign [s]. *)
Definition has_sign (s : bool) (z : spec_float) : Prop :=
  match z with
  | S754_zero s' | S754_finite s' _ _ | S754_infinity s' => s' = s
  | S754_nan => False
  end.

Definition valid (z : spec_float) : Prop := valid_binary 53 1024 z = true.

(** [mw * 2^ew] is the value of some finite double. *)
Definition representable (mw ew : Z) : Prop :=
  0 < mw <= 2 ^ 53 /\ -1074 <= ew <= 970.

Lemma canonical_iff (m : positive) (e : Z) :
  canonical_mantissa 53 1024 m e = true <-> dfexp (Zdigits2 (Zpos m) + e) = e.
Proof. unfold canonical_mantissa. rewrite fexp_eq. apply Z.eqb_eq. Qed.

Lemma valid_finite (s : bool) (m : positive) (e : Z) :
  valid (S754_finite s m e) <->
  dfexp (Zdigits2 (Zpos m) + e) = e /\ e <= 971.
Proof.
  unfold valid, valid_binary, SpecFloat.bounded. rewrite andb_true_iff, canonical_iff.
  now rewrite Z.leb_le.
Qed.

Lemma representable_lt (mw ew : Z) :
  representable mw ew -> (F2R mw ew <= bpow (53 + ew))%R.
Proof.
  intros [[_ Hm] _]. rewrite bpow_plus, (bpow_IZR 53) by lia.
  apply IZR_le in Hm. unfold F2R. pose proof (bpow_gt_0 ew). nra.
Qed.

Section Grid.

Variables (x : R) (e1 : Z) (mrs : shr_record).
Hypothesis Hinb : inb x e1 mrs.
Hypothesis Hlt : 0 <= shr_m mrs < 2 ^ 53.
Hypothesis Hnorm : 2 ^ 52 <= shr_m mrs \/ e1 = -1074.
Hypothesis He1 : -1074 <= e1.

Lemma F2R_normal_lower : -1074 < e1 -> (bpow (52 + e1) <= F2R (shr_m mrs) e1)%R.
Proof using All.
  intros H. destruct Hnorm as [Hn|]; [|lia].
  rewrite bpow_plus, (bpow_IZR 52) by lia.
  apply IZR_le in Hn. unfold F2R. pose proof (bpow_gt_0 e1). nra.
Qed.

(** A representable value above the cell of [x] is at least the next
    grid point. *)
Lemma grid_next (mw ew : Z) :
  representable mw ew ->
  (F2R (shr_m mrs) e1 < F2R mw ew)%R ->
  (F2R (shr_m mrs + 1) e1 <= F2R mw ew)%R.
Proof using All.
  intros Hw H.
  destruct (Z_le_gt_dec e1 ew) as [Le|Gt].
  - replace ew with (e1 + (ew - e1)) in * by lia.
    rewrite <- F2R_shift in * by lia.
    apply F2R_le. apply F2R_lt_inv in H. lia.
  - exfalso. pose proof (representable_lt mw ew Hw) as Hb.
    pose proof (F2R_normal_lower ltac:(destruct Hw; lia)) as Hl.
    pose proof (bpow_le (53 + ew) (52 + e1) ltac:(lia)). lra.
Qed.

(** A representable value below [x] is at most the grid point of its
    cell. *)
Lemma grid_prev (mw ew : Z) :
  representable mw ew ->
  (F2R mw ew <= x)%R ->
  (F2R mw ew <= F2R (shr_m mrs) e1)%R.
Proof using All.
  intros Hw H. pose proof (inb_cell x e1 mrs Hinb) as [Hc1 Hc2].
  destruct (Z_le_gt_dec e1 ew) as [Le|Gt].
  - replace ew with (e1 + (ew - e1)) in * by lia.
    rewrite <- F2R_shift in * by lia.
    apply F2R_le.
    assert (Hlt' : (F2R (mw * 2 ^ (ew - e1)) e1 < F2R (shr_m mrs + 1) e1)%R) by lra.
    apply F2R_lt_inv in Hlt'. lia.
  - pose proof (representable_lt mw ew Hw) as Hb.
    pose proof (F2R_normal_lower ltac:(destruct Hw; lia)) as Hl.
    pose proof (bpow_le (53 + ew) (52 + e1) ltac:(lia)). lra.
Qed.

Lemma rne_upper (mw ew : Z) :
  representable mw ew -> (x <= F2R mw ew)%R ->
  (F2R (rne mrs) e1 <= F2R mw ew)%R.
Proof using All.
  intros Hw H.
  destruct (shr_r mrs) eqn:Er, (shr_s mrs) eqn:Es.
  4: { rewrite rne_exact by assumption.
       pose proof (inb_cell x e1 mrs Hinb). lra. }
  all: eapply Rle_trans; [|apply grid_next; [exact Hw|]].
  all: try (destruct (rne_cases mrs) as [-> | ->]; apply F2R_le; lia).
  all: pose proof Hinb as Hi; unfold inb in Hi; rewrite Er, Es in Hi;
       unfold F2R in *; pose proof (bpow_gt_0 e1); nra.
Qed.

Lemma rne_lower (mw ew : Z) :
  representable mw ew -> (F2R mw ew <= x)%R ->
  (F2R mw ew <= F2R (rne mrs) e1)%R.
Proof using All.
  intros Hw H. eapply Rle_trans; [apply grid_prev; eassumption|].
  destruct (rne_cases mrs) as [-> | ->]; apply F2R_le; lia.
Qed.

Lemma round_result_valid (s : bool) : valid (round_result s (rne mrs) e1).
Proof using All.
  assert (Hr : rne mrs = shr_m mrs \/ rne mrs = shr_m mrs + 1) by apply rne_cases.
  unfold round_result.
  destruct (rne mrs) as [|p|p] eqn:Ep; try reflexivity.
  destruct (Z.eqb_spec (Zpos p) (2 ^ 53)) as [E|N].
  - destruct (Z.leb_spec (e1 + 1) 971); [|reflexivity].
    apply valid_finite. change (Zdigits2 (Zpos (2 ^ 52))) with 53.
    unfold dfexp. lia.
  - destruct (Z.leb_spec e1 971); [|reflexivity].
    apply valid_finite. split; [|assumption].
    destruct Hnorm as [Hn|Hn].
    + rewrite (Zdigits2_unique (Zpos p) 53) by lia. unfold dfexp. lia.
    + assert (Zdigits2 (Zpos p) <= 53) by (apply Zdigits2_le; lia).
      assert (0 < Zdigits2 (Zpos p)) by (simpl; lia).
      unfold dfexp. lia.
Qed.

Lemma round_result_sign (s : bool) : has_sign s (round_result s (rne mrs) e1).
Proof using All.
  assert (Hr : rne mrs = shr_m mrs \/ rne mrs = shr_m mrs + 1) by apply rne_cases.
  unfold round_result.
  destruct (rne mrs) as [|p|p] eqn:Ep; try reflexivity; [|lia].
  destruct (Zpos p =? 2 ^ 53).
  - now destruct (e1 + 1 <=? 971).
  - now destruct (e1 <=? 971).
Qed.

(** Unless it overflows, the result has the value of the rounded grid
    point. *)
Lemma round_result_mag (s : bool) :
  is_finite (round_result s (rne mrs) e1) = true ->
  Bmag (round_result s (rne mrs) e1) = F2R (rne mrs) e1.
Proof using All.
  assert (Hr : rne mrs = shr_m mrs \/ rne mrs = shr_m mrs + 1) by apply rne_cases.
  unfold round_result.
  destruct (rne mrs) as [|p|p] eqn:Ep; try lia.
  - intros _. unfold F2R. simpl. lra.
  - destruct (Z.eqb_spec (Zpos p) (2 ^ 53)) as [E|N].
    + destruct (e1 + 1 <=? 971); [|discriminate]. intros _. rewrite E.
      cbn [Bmag]. replace (e1 + 1) with (e1 + 1) by lia.
      rewrite <- (F2R_shift _ e1 1) by lia. reflexivity.
    + destruct (e1 <=? 971); [|discriminate]. reflexivity.
Qed.

Lemma round_result_finite (s : bool) :
  (F2R (rne mrs) e1 < bpow 1024)%R ->
  is_finite (round_result s (rne mrs) e1) = true.
Proof using All.
  assert (Hr : rne mrs = shr_m mrs \/ rne mrs = shr_m mrs + 1) by apply rne_cases.
  intros H. unfold round_result.
  destruct (rne mrs) as [|p|p] eqn:Ep; try reflexivity; [|lia].
  destruct (Z.eqb_spec (Zpos p) (2 ^ 53)) as [E|N].
  - destruct (Z.leb_spec (e1 + 1) 971); [reflexivity|]. exfalso.
    rewrite E in H. unfold F2R in H. rewrite <- (bpow_IZR 53), <- bpow_plus in H by lia.
    pose proof (bpow_le 1024 (53 + e1) ltac:(lia)). lra.
  - destruct (Z.leb_spec e1 971); [reflexivity|]. exfalso.
    pose proof (F2R_normal_lower ltac:(lia)) as Hl.
    assert (Hm : (F2R (shr_m mrs) e1 <= F2R (Zpos p) e1)%R) by (apply F2R_le; lia).
    pose proof (bpow_le 1024 (52 + e1) ltac:(lia)). lra.
Qed.

End Grid.

Lemma representable_below_max (mw ew : Z) :
  representable mw ew -> (F2R mw ew < bpow 1024)%R.
Proof.
  intros Hw. pose proof (representable_lt mw ew Hw).
  pose proof (bpow_lt (53 + ew) 1024 ltac:(destruct Hw; lia)). lra.
Qed.

(** What rounding guarantees: a valid result of the requested sign,
    squeezed by every representable value on either side of the exact
    one. *)
Lemma round_aux_props (s : bool) (m e : Z) (l : location) (x : R) :
  0 <= m -> e <= dfexp (Zdigits2 m + e) ->
  inb x e (shr_record_of_loc m l) ->
  let z := binary_round_aux 53 1024 s m e l in
  valid z /\ has_sign s z /\
  (forall mw ew, representable mw ew -> (x <= F2R mw ew)%R ->
                 is_finite z = true /\ (Bmag z <= F2R mw ew)%R) /\
  (forall mw ew, representable mw ew -> (F2R mw ew <= x)%R ->
                 is_finite z = true -> (F2R mw ew <= Bmag z)%R).
Proof.
  intros Hm He H z.
  destruct (round_aux_exact s m e l x Hm He H) as (mrs & [G1 _ G3 G4] & E).
  subst z. rewrite E. clear E.
  set (e1 := dfexp (Zdigits2 m + e)) in *.
  assert (He1 : -1074 <= e1) by (unfold e1, dfexp; lia).
  split; [now apply (round_result_valid x)|].
  split; [now apply (round_result_sign x)|].
  split.
  - intros mw ew Hw Hx.
    pose proof (rne_upper x e1 mrs G1 G3 G4 He1 mw ew Hw Hx) as Hu.
    assert (Hf : is_finite (round_result s (rne mrs) e1) = true).
    { apply (round_result_finite x); try assumption.
      pose proof (representable_below_max mw ew Hw). lra. }
    split; [assumption|]. now rewrite (round_result_mag x).
  - intros mw ew Hw Hx Hf.
    rewrite (round_result_mag x) by assumption.
    now apply (rne_lower x).
Qed.

(** ** Validity, sign and order *)

Lemma valid_digits (s : bool) (m : positive) (e : Z) :
  valid (S754_finite s m e) ->
  Zpos m < 2 ^ 53 /\ -1074 <= e <= 971 /\ (-1074 < e -> 2 ^ 52 <= Zpos m).
Proof.
  intros [Hc He]%valid_finite.
  destruct (Zdigits2_bounds (Zpos m) ltac:(lia)) as (Hd & Hlo & Hhi).
  assert (Hd53 : Zdigits2 (Zpos m) <= 53) by (unfold dfexp in Hc; lia).
  repeat split; try (unfold dfexp in Hc; lia).
  - eapply Z.lt_le_trans; [exact Hhi|]. apply Z.pow_le_mono_r; lia.
  - intros Hn. assert (Zdigits2 (Zpos m) = 53) by (unfold dfexp in Hc; lia).
    replace 52 with (Zdigits2 (Zpos m) - 1) by lia. assumption.
Qed.

Lemma valid_representable (s : bool) (m : positive) (e : Z) :
  valid (S754_finite s m e) -> (F2R (Zpos m) e < bpow 1023)%R ->
  representable (Zpos m) e.
Proof.
  intros Hv Hx. destruct (valid_digits s m e Hv) as (Hm & He & Hn).
  unfold representable. repeat split; try lia.
  destruct (Z_le_gt_dec e 970) as [|Hbig]; [assumption|exfalso].
  specialize (Hn ltac:(lia)). apply IZR_le in Hn.
  unfold F2R in Hx. rewrite <- (bpow_IZR 52) in Hn by lia.
  pose proof (bpow_le 1023 (52 + e) ltac:(lia)) as Hb.
  rewrite bpow_plus in Hb. pose proof (bpow_gt_0 e). nra.
Qed.

Lemma compare_cont_Z (a b : positive) :
  Pos.compare_cont Eq a b = Z.compare (Zpos a) (Zpos b).
Proof. reflexivity. Qed.

(** A valid double that is not negative and whose value does not exceed
    that of a valid positive double compares [<=] to it. *)
Lemma leb_of_value (z : spec_float) (mw : positive) (ew : Z) :
  valid z -> has_sign false z -> is_finite z = true ->
  valid (S754_finite false mw ew) ->
  (Bmag z <= F2R (Zpos mw) ew)%R ->
  Double.leb z (S754_finite false mw ew) = true.
Proof.
  intros Hv Hs Hf Hw Hx.
  destruct z as [s|s| |s m e]; try discriminate; cbn in Hs; subst s;
    [reflexivity|].
  unfold Double.leb, SFleb, SFcompare. cbn [Bmag] in Hx.
  destruct (valid_digits _ _ _ Hv) as (Hm & He & Hn).
  destruct (valid_digits _ _ _ Hw) as (Hmw & Hew & Hnw).
  destruct (Z.compare_spec e ew) as [E|L|G]; [|reflexivity|exfalso].
  - subst ew. apply F2R_le_inv in Hx.
    change (Pos.compare_cont Eq m mw) with (Pos.compare m mw).
    destruct (Pos.compare_spec m mw); try reflexivity. lia.
  - specialize (Hn ltac:(lia)). apply IZR_le in Hn. apply IZR_lt in Hmw.
    rewrite <- (bpow_IZR 52) in Hn by lia.
    rewrite <- (bpow_IZR 53) in Hmw by lia.
    unfold F2R in Hx.
    pose proof (bpow_le (53 + ew) (52 + e) ltac:(lia)) as Hb.
    rewrite !bpow_plus in Hb.
    pose proof (bpow_gt_0 e). pose proof (bpow_gt_0 ew). nra.
Qed.

Lemma leb_zero_of_sign (z : spec_float) :
  has_sign false z -> Double.leb (S754_zero false) z = true.
Proof. destruct z as [s|s| |s m e]; cbn; intros H; try subst s; tauto. Qed.

(** Doubles between 0 and 1. *)
Definition one : spec_float := S754_finite false 4503599627370496 (-52).

Lemma unit_interval (f : spec_float) :
  valid f -> Double.leb (S754_zero false) f = true -> Double.leb f one = true ->
  (exists s, f = S754_zero s) \/
  (exists m e, f = S754_finite false m e /\ (F2R (Zpos m) e <= 1)%R).
Proof.
  intros Hv H0 H1.
  destruct f as [s|s| |s m e]; try discriminate.
  - left. now exists s.
  - destruct s; discriminate.
  - destruct s; [discriminate|]. right. exists m, e. split; [reflexivity|].
    destruct (valid_digits _ _ _ Hv) as (Hm & He & Hn).
    unfold Double.leb, SFleb, SFcompare, one in H1.
    destruct (Z.compare_spec e (-52)) as [E|L|G]; try discriminate.
    + subst e. rewrite compare_cont_Z in H1.
      assert (Hle : Zpos m <= 2 ^ 52).
      { destruct (Z.compare_spec (Zpos m) 4503599627370496);
          try discriminate; lia. }
      apply IZR_le in Hle. rewrite <- (bpow_IZR 52) in Hle by lia.
      unfold F2R. replace 1%R with (bpow (52 + -52)) by reflexivity.
      rewrite bpow_plus. pose proof (bpow_gt_0 (-52)). nra.
    + apply IZR_lt in Hm. rewrite <- (bpow_IZR 53) in Hm by lia.
      unfold F2R. replace 1%R with (bpow (53 + -53)) by reflexivity.
      rewrite bpow_plus. pose proof (bpow_le e (-53) ltac:(lia)).
      pose proof (bpow_gt_0 e). pose proof (bpow_gt_0 53). nra.
Qed.

(** ** Truncation to an integer *)

Lemma shiftl_le (m : positive) (e r : Z) :
  0 <= r -> (F2R (Zpos m) e <= IZR r)%R -> 0 <= Z.shiftl (Zpos m) e <= r.
Proof.
  intros Hr Hx. split; [apply Z.shiftl_nonneg; lia|].
  destruct (Z_le_gt_dec 0 e) as [He|He].
  - rewrite Z.shiftl_mul_pow2 by assumption.
    apply le_IZR. rewrite mult_IZR, <- bpow_IZR by assumption. exact Hx.
  - rewrite Z.shiftl_div_pow2 by lia.
    assert (Hp : 0 < 2 ^ (- e)) by (apply Z.pow_pos_nonneg; lia).
    apply Z.div_le_upper_bound; [assumption|].
    apply le_IZR. rewrite mult_IZR, <- bpow_IZR by lia.
    unfold F2R in Hx.
    assert (Hb : (bpow e * bpow (- e) = 1)%R).
    { rewrite <- bpow_plus. replace (e + - e) with 0 by lia. reflexivity. }
    pose proof (bpow_gt_0 e). pose proof (bpow_gt_0 (- e)).
    assert (Hr' : (0 <= IZR r)%R) by (apply IZR_le; assumption).
    assert ((IZR (Zpos m) * bpow e) * bpow (- e) <= IZR r * bpow (- e))%R
      by (apply Rmult_le_compat_r; lra).
    nra.
Qed.

(** The integer part of a positive double is the floor of its value. *)
Lemma shiftl_floor (m : positive) (e : Z) :
  (IZR (Z.shiftl (Zpos m) e) <= F2R (Zpos m) e)%R /\
  (forall L, (IZR L <= F2R (Zpos m) e)%R -> L <= Z.shiftl (Zpos m) e).
Proof.
  destruct (Z_le_gt_dec 0 e) as [He | He].
  - rewrite Z.shiftl_mul_pow2 by assumption.
    unfold F2R. rewrite mult_IZR, <- bpow_IZR by assumption.
    split; [lra|]. intros L HL. apply le_IZR.
    rewrite mult_IZR, <- bpow_IZR by assumption. exact HL.
  - rewrite Z.shiftl_div_pow2 by lia.
    assert (Hp : 0 < 2 ^ (- e)) by (apply Z.pow_pos_nonneg; lia).
    assert (Hb : (bpow e * bpow (- e) = 1)%R).
    { rewrite <- bpow_plus. replace (e + - e) with 0 by lia. reflexivity. }
    pose proof (bpow_gt_0 e) as He0. pose proof (bpow_gt_0 (- e)) as Hme0.
    unfold F2R. split.
    + pose proof (Z.mul_div_le (Zpos m) (2 ^ (- e)) Hp) as Hd.
      apply IZR_le in Hd. rewrite mult_IZR, <- bpow_IZR in Hd by lia.
      set (q := IZR (Zpos m / 2 ^ (- e))) in *.
      assert (bpow (- e) * q * bpow e <= IZR (Zpos m) * bpow e)%R
        by (apply Rmult_le_compat_r; lra).
      replace (bpow (- e) * q * bpow e)%R with (q * (bpow e * bpow (- e)))%R
        in * by ring.
      rewrite Hb in *. lra.
    + intros L HL. apply Z.div_le_lower_bound; [assumption|].
      apply le_IZR. rewrite mult_IZR, <- bpow_IZR by lia.
      assert (IZR L * bpow (- e) <= IZR (Zpos m) * bpow e * bpow (- e))%R
        by (apply Rmult_le_compat_r; lra).
      replace (IZR (Zpos m) * bpow e * bpow (- e))%R
        with (IZR (Zpos m) * (bpow e * bpow (- e)))%R in * by ring.
      rewrite Hb in *. lra.
Qed.

Lemma trunc_between (z : double) (L K : Z) :
  has_sign false z -> is_finite z = true ->
  (IZR L <= Bmag z)%R -> (Bmag z < IZR (K + 1))%R ->
  exists t, Double.trunc z = Some t /\ 0 <= t /\ L <= t <= K.
Proof.
  intros Hs Hf HL HK. destruct z as [s|s| |s m e]; try discriminate.
  - exists 0. cbn [Bmag] in *. split; [reflexivity|].
    apply le_IZR in HL. apply lt_IZR in HK. lia.
  - cbn in Hs. subst s. cbn [Bmag Double.trunc cond_Zopp] in *.
    eexists. split; [reflexivity|].
    destruct (shiftl_floor m e) as [Hfl Hge].
    split; [apply Z.shiftl_nonneg; lia|]. split; [now apply Hge|].
    assert (Z.shiftl (Zpos m) e < K + 1); [|lia].
    apply lt_IZR. lra.
Qed.

(** ** Conversion of an integer to a double *)

Lemma iter_xO (p d : positive) : Zpos (Pos.iter xO p d) = Zpos p * 2 ^ Zpos d.
Proof.
  induction d as [|d IH] using Pos.peano_ind.
  - simpl. lia.
  - rewrite Pos.iter_succ, Pos2Z.inj_xO, IH, Pos2Z.inj_succ, Z.pow_succ_r by lia.
    lia.
Qed.

Lemma shl_align_spec (mx : positive) (ex ex' : Z) :
  Zpos (fst (shl_align mx ex ex')) =
  Zpos mx * 2 ^ (ex - snd (shl_align mx ex ex')) /\
  snd (shl_align mx ex ex') = Z.min ex ex'.
Proof.
  unfold shl_align. destruct (ex' - ex) as [|d|d] eqn:E; cbn [fst snd].
  - rewrite Z.sub_diag. simpl. lia.
  - rewrite Z.sub_diag. simpl. lia.
  - rewrite iter_xO. replace (ex - ex') with (Zpos d) by lia. lia.
Qed.

Lemma Zdigits2_mul_pow (m k : Z) :
  0 < m -> 0 <= k -> Zdigits2 (m * 2 ^ k) = Zdigits2 m + k.
Proof.
  intros Hm Hk. destruct (Zdigits2_bounds m Hm) as (Hd & Hlo & Hhi).
  assert (Hp : 0 < 2 ^ k) by (apply Z.pow_pos_nonneg; lia).
  apply Zdigits2_unique; [|lia].
  replace (Zdigits2 m + k - 1) with (Zdigits2 m - 1 + k) by lia.
  rewrite !Z.pow_add_r by lia. nia.
Qed.

(** The conversion of a positive integer rounds it on the grid of its
    own binade. *)
Lemma of_Z_pos_grid (p : positive) :
  exists mrs,
    inb (IZR (Zpos p)) (dfexp (Zdigits2 (Zpos p))) mrs /\
    0 <= shr_m mrs < 2 ^ 53 /\
    (2 ^ 52 <= shr_m mrs \/ dfexp (Zdigits2 (Zpos p)) = -1074) /\
    Double.of_Z (Zpos p) = round_result false (rne mrs) (dfexp (Zdigits2 (Zpos p))).
Proof.
  unfold Double.of_Z, Double.prec, Double.emax, binary_normalize, binary_round.
  change (fexp 53 1024 (Zpos (digits2_pos p) + 0))
    with (dfexp (Zdigits2 (Zpos p) + 0)).
  rewrite Z.add_0_r. set (d := Zdigits2 (Zpos p)).
  destruct (shl_align_spec p 0 (dfexp d)) as [Hm He].
  destruct (shl_align p 0 (dfexp d)) as [mz ez]. cbn [fst snd] in Hm, He.
  assert (Hez : ez <= 0) by lia.
  assert (Hd : Zdigits2 (Zpos mz) + ez = d).
  { rewrite Hm, Zdigits2_mul_pow by lia. fold d. lia. }
  assert (Hx : inb (IZR (Zpos p)) ez (shr_record_of_loc (Zpos mz) loc_Exact)).
  { unfold inb. cbn. rewrite Hm.
    change (IZR (Zpos p * 2 ^ (0 - ez)) * bpow ez)%R
      with (F2R (Zpos p * 2 ^ (0 - ez)) ez).
    rewrite F2R_shift by lia. replace (ez + (0 - ez)) with 0 by lia.
    unfold F2R. rewrite bpow_0. ring. }
  destruct (round_aux_exact false (Zpos mz) ez loc_Exact (IZR (Zpos p))
              ltac:(lia) ltac:(rewrite Hd; lia) Hx) as (mrs & [G1 _ G3 G4] & E).
  rewrite Hd in *. exists mrs. auto.
Qed.

Lemma of_Z_props (p : positive) :
  let z := Double.of_Z (Zpos p) in
  valid z /\ has_sign false z /\
  (forall mw ew, representable mw ew -> (IZR (Zpos p) <= F2R mw ew)%R ->
                 is_finite z = true /\ (Bmag z <= F2R mw ew)%R) /\
  (forall mw ew, representable mw ew -> (F2R mw ew <= IZR (Zpos p))%R ->
                 is_finite z = true -> (F2R mw ew <= Bmag z)%R).
Proof.
  destruct (of_Z_pos_grid p) as (mrs & G1 & G3 & G4 & E).
  intros z. subst z. rewrite E. clear E.
  set (e1 := dfexp (Zdigits2 (Zpos p))) in *.
  assert (He1 : -1074 <= e1) by (unfold e1, dfexp; lia).
  split; [now apply (round_result_valid (IZR (Zpos p)))|].
  split; [now apply (round_result_sign (IZR (Zpos p)))|].
  split.
  - intros mw ew Hw Hx.
    pose proof (rne_upper _ e1 mrs G1 G3 G4 He1 mw ew Hw Hx) as Hu.
    assert (Hf : is_finite (round_result false (rne mrs) e1) = true).
    { apply (round_result_finite (IZR (Zpos p))); try assumption.
      pose proof (representable_below_max mw ew Hw). lra. }
    split; [assumption|]. now rewrite (round_result_mag (IZR (Zpos p))).
  - intros mw ew Hw Hx Hf.
    rewrite (round_result_mag (IZR (Zpos p))) by assumption.
    now apply (rne_lower (IZR (Zpos p))).
Qed.

Lemma representable_pow (k : Z) :
  -1022 <= k <= 1022 -> representable (2 ^ 52) (k - 52) /\
                        F2R (2 ^ 52) (k - 52) = bpow k.
Proof.
  intros Hk. split; [unfold representable; lia|].
  unfold F2R. rewrite <- (bpow_IZR 52), <- bpow_plus by lia. f_equal. lia.
Qed.

(** A positive [long] (or any positive integer below [2^64]) converts to
    a positive finite double. *)
Lemma of_Z_pos_finite (n : Z) :
  0 < n < 2 ^ 64 ->
  exists m e, Double.of_Z n = S754_finite false m e /\
              valid (S754_finite false m e) /\
              (1 <= F2R (Zpos m) e <= bpow 64)%R.
Proof.
  intros [Hn0 Hn]. destruct n as [|p|p]; try lia.
  destruct (of_Z_props p) as (Hv & Hs & Hup & Hlo).
  destruct (representable_pow 64 ltac:(lia)) as [R64 E64].
  destruct (representable_pow 0 ltac:(lia)) as [R0 E0].
  destruct (Hup _ _ R64) as [Hf Hb].
  { rewrite E64, bpow_IZR by lia. apply IZR_le. lia. }
  specialize (Hlo _ _ R0). rewrite E0, bpow_0 in Hlo.
  specialize (Hlo ltac:(apply IZR_le; lia) Hf).
  rewrite E64 in Hb.
  destruct (Double.of_Z (Zpos p)) as [s|s| |s m e]; try discriminate.
  - cbn in Hlo. lra.
  - cbn in Hs. subst s. exists m, e. cbn [Bmag] in *. auto.
Qed.

(** Integers up to [2^53] convert exactly. *)
Lemma of_Z_exact (n : Z) :
  0 < n <= 2 ^ 53 ->
  exists m e, Double.of_Z n = S754_finite false m e /\
              valid (S754_finite false m e) /\
              F2R (Zpos m) e = IZR n.
Proof.
  intros [Hn0 Hn].
  destruct (of_Z_pos_finite n ltac:(lia)) as (m & e & E & Hv & _).
  exists m, e. split; [assumption|]. split; [assumption|].
  destruct n as [|p|p]; try lia.
  destruct (of_Z_props p) as (_ & _ & Hup & Hlo).
  assert (R : representable (Zpos p) 0) by (unfold representable; lia).
  assert (Ex : F2R (Zpos p) 0 = IZR (Zpos p)).
  { unfold F2R. rewrite bpow_0. ring. }
  destruct (Hup _ _ R ltac:(rewrite Ex; lra)) as [Hf Hb].
  specialize (Hlo _ _ R ltac:(rewrite Ex; lra) Hf).
  rewrite E in Hb, Hlo. cbn [Bmag] in *. lra.
Qed.

(** Rounded mantissas on one grid keep the order of the reals they come
    from. *)
Lemma rne_monotone (xa xb : R) (e1 : Z) (ma mb : shr_record) :
  inb xa e1 ma -> inb xb e1 mb -> (xa <= xb)%R -> rne ma <= rne mb.
Proof.
  intros Ha Hb Hx.
  pose proof (inb_cell _ _ _ Ha) as [Ca1 Ca2].
  pose proof (inb_cell _ _ _ Hb) as [Cb1 Cb2].
  destruct (Z.lt_trichotomy (shr_m ma) (shr_m mb)) as [L|[E|G]].
  - destruct (rne_cases ma) as [-> | ->], (rne_cases mb) as [-> | ->]; lia.
  - destruct ma as [m ra sa], mb as [m' rb sb]. cbn [shr_m] in E. subst m'.
    unfold inb in Ha, Hb. cbn [shr_m shr_r shr_s] in Ha, Hb.
    pose proof (bpow_gt_0 e1) as Hu.
    unfold rne. cbn [shr_m loc_of_shr_record].
    destruct ra, sa, rb, sb; cbn [round_nearest_even];
      destruct (Z.even m); try lia; exfalso; nra.
  - exfalso.
    assert (H : (F2R (shr_m mb + 1) e1 <= F2R (shr_m ma) e1)%R)
      by (apply F2R_le; lia).
    lra.
Qed.

Lemma Zdigits2_monotone (a b : Z) : 0 < a <= b -> Zdigits2 a <= Zdigits2 b.
Proof.
  intros [Ha Hab].
  destruct (Zdigits2_bounds a Ha) as (Hda & Hla & Hha).
  apply Zdigits2_ge; lia.
Qed.

(** The conversion is monotone. *)
Lemma of_Z_monotone (a b : Z) :
  0 < a <= b -> b < 2 ^ 64 -> (Bmag (Double.of_Z a) <= Bmag (Double.of_Z b))%R.
Proof.
  intros [Ha Hab] Hb.
  destruct a as [|pa|pa]; try lia. destruct b as [|pb|pb]; try lia.
  pose proof (Zdigits2_monotone _ _ (conj Ha Hab)) as Hd.
  destruct (Zdigits2_bounds (Zpos pa) ltac:(lia)) as (Hda & Hla & Hha).
  destruct (Zdigits2_bounds (Zpos pb) ltac:(lia)) as (Hdb & Hlb & Hhb).
  assert (Hdb64 : Zdigits2 (Zpos pb) <= 64) by (apply Zdigits2_le; lia).
  destruct (representable_pow 64 ltac:(lia)) as [R64 E64].
  assert (H64 : forall p, Zpos p < 2 ^ 64 -> (IZR (Zpos p) <= F2R (2 ^ 52) (64 - 52))%R).
  { intros p Hp. rewrite E64, bpow_IZR by lia. apply IZR_le. lia. }
  destruct (of_Z_props pa) as (_ & _ & Hupa & _).
  destruct (of_Z_props pb) as (_ & _ & Hupb & Hlob).
  destruct (Hupa _ _ R64 (H64 pa ltac:(lia))) as [Hfa _].
  destruct (Hupb _ _ R64 (H64 pb ltac:(lia))) as [Hfb _].
  destruct (Z.eq_dec (Zdigits2 (Zpos pa)) (Zdigits2 (Zpos pb))) as [E|N].
  - destruct (of_Z_pos_grid pa) as (ma & Ga1 & Ga3 & Ga4 & Ea).
    destruct (of_Z_pos_grid pb) as (mb & Gb1 & Gb3 & Gb4 & Eb).
    rewrite E in *. set (e1 := dfexp (Zdigits2 (Zpos pb))) in *.
    assert (He1 : -1074 <= e1) by (unfold e1, dfexp; lia).
    rewrite Ea, Eb in *.
    rewrite (round_result_mag (IZR (Zpos pa))), (round_result_mag (IZR (Zpos pb)))
      by assumption.
    apply F2R_le. apply (rne_monotone (IZR (Zpos pa)) (IZR (Zpos pb)) e1);
      try assumption.
    apply IZR_le. lia.
  - destruct (representable_pow (Zdigits2 (Zpos pa)) ltac:(lia)) as [Rk Ek].
    apply Rle_trans with (bpow (Zdigits2 (Zpos pa))).
    + rewrite <- Ek. apply Hupa; [assumption|].
      rewrite Ek, bpow_IZR by lia. apply IZR_le. lia.
    + rewrite <- Ek. apply Hlob; [assumption| |assumption].
      rewrite Ek, bpow_IZR by lia. apply IZR_le.
      assert (2 ^ Zdigits2 (Zpos pa) <= 2 ^ (Zdigits2 (Zpos pb) - 1))
        by (apply Z.pow_le_mono_r; lia).
      lia.
Qed.

(** ** Multiplication and division *)

Lemma valid_canonical (s : bool) (m : positive) (e : Z) :
  valid (S754_finite s m e) -> dfexp (Zdigits2 (Zpos m) + e) = e.
Proof. now intros [H _]%valid_finite. Qed.

Lemma mul_finite_props (sx sy : bool) (mx my : positive) (ex ey : Z) :
  valid (S754_finite sx mx ex) -> valid (S754_finite sy my ey) ->
  let x := (F2R (Zpos mx) ex * F2R (Zpos my) ey)%R in
  let z := Double.mul (S754_finite sx mx ex) (S754_finite sy my ey) in
  valid z /\ has_sign (xorb sx sy) z /\
  (forall mw ew, representable mw ew -> (x <= F2R mw ew)%R ->
                 is_finite z = true /\ (Bmag z <= F2R mw ew)%R) /\
  (forall mw ew, representable mw ew -> (F2R mw ew <= x)%R ->
                 is_finite z = true -> (F2R mw ew <= Bmag z)%R).
Proof.
  intros Hx Hy x z. subst z. unfold Double.mul, Double.prec, Double.emax.
  cbn [SFmul].
  apply valid_canonical in Hx, Hy.
  destruct (Zdigits2_bounds (Zpos mx) ltac:(lia)) as (Hdx & Hlx & Hhx).
  destruct (Zdigits2_bounds (Zpos my) ltac:(lia)) as (Hdy & Hly & Hhy).
  apply round_aux_props.
  - lia.
  - assert (Hd : Zdigits2 (Zpos mx) + Zdigits2 (Zpos my) - 1
                 <= Zdigits2 (Zpos (mx * my))).
    { apply Zdigits2_ge; [lia|].
      replace (Zdigits2 (Zpos mx) + Zdigits2 (Zpos my) - 1 - 1)
        with ((Zdigits2 (Zpos mx) - 1) + (Zdigits2 (Zpos my) - 1)) by lia.
      rewrite Z.pow_add_r, Pos2Z.inj_mul by lia.
      apply Z.mul_le_mono_nonneg; try assumption;
        apply Z.pow_nonneg; lia. }
    unfold dfexp in *. lia.
  - unfold inb, x, F2R. cbn.
    rewrite Pos2Z.inj_mul, mult_IZR, bpow_plus. ring.
Qed.

Lemma new_location_inb (n q r : Z) (e : Z) :
  0 < n -> 0 <= r < n ->
  inb ((IZR q + IZR r / IZR n) * bpow e) e
      (shr_record_of_loc q (new_location n r)).
Proof.
  intros Hn [Hr0 Hr].
  assert (Hn' : (0 < IZR n)%R) by (apply IZR_lt; assumption).
  pose proof (bpow_gt_0 e) as Hu.
  set (t := (IZR r / IZR n)%R).
  assert (Ht : (t * IZR n = IZR r)%R) by (unfold t; field; lra).
  clearbody t.
  assert (Hcmp : forall c, (2 * r ?= n) = c ->
                 match c with
                 | Lt => (2 * t < 1)%R
                 | Eq => (2 * t = 1)%R
                 | Gt => (2 * t > 1)%R
                 end).
  { intros c <-. destruct (Z.compare_spec (2 * r) n) as [E|L|G].
    - apply (f_equal IZR) in E. rewrite mult_IZR in E. nra.
    - apply IZR_lt in L. rewrite mult_IZR in L. nra.
    - apply IZR_lt in G. rewrite mult_IZR in G. nra. }
  assert (Ht1 : (t < 1)%R) by (apply IZR_lt in Hr; nra).
  unfold new_location.
  destruct (Z.even n) eqn:Ev;
    [unfold new_location_even|unfold new_location_odd];
    (destruct (Z.eqb_spec r 0) as [E0|N0];
     [assert (t = 0)%R by (subst r; nra); subst t; unfold inb; cbn; ring|]).
  - assert (Ht0 : (0 < t)%R).
    { assert (H : 0 < r) by lia. apply IZR_lt in H. nra. }
    specialize (Hcmp _ eq_refl).
    destruct (2 * r ?= n); unfold inb; cbn; nra.
  - assert (Ht0 : (0 < t)%R).
    { assert (H : 0 < r) by lia. apply IZR_lt in H. nra. }
    assert (Hodd : 2 * r <> n).
    { intros <-. rewrite Z.even_mul in Ev. discriminate. }
    destruct (Z.compare_spec (2 * r + 1) n) as [E|L|G].
    + assert (Hc : (2 * r ?= n) = Lt) by (apply Z.compare_lt_iff; lia).
      specialize (Hcmp _ Hc). unfold inb; cbn; nra.
    + assert (Hc : (2 * r ?= n) = Lt) by (apply Z.compare_lt_iff; lia).
      specialize (Hcmp _ Hc). unfold inb; cbn; nra.
    + assert (Hc : (2 * r ?= n) = Gt) by (apply Z.compare_gt_iff; lia).
      specialize (Hcmp _ Hc). unfold inb; cbn; nra.
Qed.

Lemma dfexp_monotone (a b : Z) : a <= b -> dfexp a <= dfexp b.
Proof. unfold dfexp. lia. Qed.

Lemma div_finite_props (sx sy : bool) (mx my : positive) (ex ey : Z) :
  valid (S754_finite sx mx ex) -> valid (S754_finite sy my ey) ->
  let x := (F2R (Zpos mx) ex / F2R (Zpos my) ey)%R in
  let z := Double.div (S754_finite sx mx ex) (S754_finite sy my ey) in
  valid z /\ has_sign (xorb sx sy) z /\
  (forall mw ew, representable mw ew -> (x <= F2R mw ew)%R ->
                 is_finite z = true /\ (Bmag z <= F2R mw ew)%R) /\
  (forall mw ew, representable mw ew -> (F2R mw ew <= x)%R ->
                 is_finite z = true -> (F2R mw ew <= Bmag z)%R).
Proof.
  intros Hx Hy x z. subst z. unfold Double.div, Double.prec, Double.emax.
  cbn [SFdiv]. unfold SFdiv_core_binary.
  change (fexp 53 1024) with dfexp.
  destruct (Zdigits2_bounds (Zpos mx) ltac:(lia)) as (Hdx & Hlx & Hhx).
  destruct (Zdigits2_bounds (Zpos my) ltac:(lia)) as (Hdy & Hly & Hhy).
  set (d1 := Zdigits2 (Zpos mx)) in *. set (d2 := Zdigits2 (Zpos my)) in *.
  set (e' := Z.min (dfexp (d1 + ex - (d2 + ey))) (ex - ey)).
  set (s := ex - ey - e').
  assert (Hs : 0 <= s) by (unfold s, e'; lia).
  assert (Hex : ex = ey + (e' + s)) by (unfold s; lia).
  assert (He' : e' <= dfexp (d1 + ex - (d2 + ey))) by (unfold e'; lia).
  clearbody s e'.
  set (m' := match s with
             | 0 => Zpos mx
             | Zpos _ => Z.shiftl (Zpos mx) s
             | Zneg _ => 0
             end).
  assert (Hm' : m' = Zpos mx * 2 ^ s).
  { unfold m'. destruct s as [|ps|ps] eqn:Es; try lia.
    now rewrite Z.shiftl_mul_pow2 by lia. }
  clearbody m'.
  assert (Hps : 0 < 2 ^ s) by (apply Z.pow_pos_nonneg; lia).
  pose proof (Z_div_mod_eq_full m' (Zpos my)) as Hqr.
  pose proof (Z.mod_pos_bound m' (Zpos my) ltac:(lia)) as Hr.
  unfold Z.div, Z.modulo in Hqr, Hr.
  destruct (Z.div_eucl m' (Zpos my)) as [q r].
  assert (Hq0 : 0 <= q) by nia.
  apply round_aux_props.
  - assumption.
  - (* enough digits in the quotient *)
    destruct (Z.eq_dec q 0) as [Eq|Nq].
    + subst q. cbn [Zdigits2]. rewrite Z.add_0_l.
      assert (Hlt : 2 ^ (d1 - 1 + s) < 2 ^ d2).
      { rewrite Z.pow_add_r by lia. nia. }
      apply Z.pow_lt_mono_r_iff in Hlt; [|lia|lia].
      unfold dfexp in *. lia.
    + assert (Hd : d1 + s - d2 <= Zdigits2 q).
      { destruct (Z_le_gt_dec (d1 + s - d2) 0) as [Le|Gt].
        - destruct (Zdigits2_bounds q ltac:(lia)); lia.
        - apply Zdigits2_ge; [lia|].
          apply Z.le_trans with (m' / Zpos my).
          + apply Z.div_le_lower_bound; [lia|].
            assert (Hpow : 2 ^ d2 * 2 ^ (d1 + s - d2 - 1) = 2 ^ (d1 - 1) * 2 ^ s).
            { rewrite <- !Z.pow_add_r by lia. f_equal. lia. }
            assert (0 < 2 ^ (d1 + s - d2 - 1)) by (apply Z.pow_pos_nonneg; lia).
            nia.
          + apply Z.eq_le_incl. symmetry.
            apply (Z.div_unique m' (Zpos my) q r); [lia|lia]. }
      eapply Z.le_trans; [exact He'|].
      apply dfexp_monotone. lia.
  - (* the quotient and the remainder locate the exact quotient *)
    replace x with ((IZR q + IZR r / IZR (Zpos my)) * bpow e')%R.
    { apply new_location_inb; lia. }
    unfold x, F2R.
    rewrite Hex at 1. rewrite !bpow_plus, (bpow_IZR s Hs).
    assert (Hmq : (IZR (Zpos mx) * IZR (2 ^ s) =
                   IZR (Zpos my) * IZR q + IZR r)%R).
    { rewrite <- !mult_IZR, <- plus_IZR. f_equal. lia. }
    assert (Hmy : (0 < IZR (Zpos my))%R) by (apply IZR_lt; lia).
    pose proof (bpow_gt_0 ey). pose proof (bpow_gt_0 e').
    replace (IZR (Zpos mx) * (bpow ey * (bpow e' * IZR (2 ^ s))))%R
      with ((IZR (Zpos mx) * IZR (2 ^ s)) * (bpow ey * bpow e'))%R by ring.
    rewrite Hmq. field. lra.
Qed.

(** ** Fees and drawdowns *)

(** A fee rate: a double between 0 and 1. *)
Definition unit_rate (f : double) : Prop :=
  valid f /\
  Double.leb Double.zero f = true /\
  Double.leb f (Double.of_Z 1) = true.

(** A double that is a number between 0 and 1. *)
Definition unit_double (z : double) : Prop :=
  valid z /\ has_sign false z /\ is_finite z = true /\ (Bmag z <= 1)%R.

Lemma of_Z_1 : Double.of_Z 1 = one.
Proof. reflexivity. Qed.

Lemma trunc_le (z : double) (r : Z) :
  0 <= r -> has_sign false z -> is_finite z = true -> (Bmag z <= IZR r)%R ->
  exists t, Double.trunc z = Some t /\ 0 <= t <= r.
Proof.
  intros Hr Hs Hf Hb. destruct z as [s|s| |s m e]; try discriminate.
  - exists 0. split; [reflexivity|lia].
  - cbn in Hs. subst s. eexists. split; [reflexivity|].
    cbn [cond_Zopp]. now apply shiftl_le.
Qed.

(** Multiplying an exactly represented amount by a rate between 0 and 1
    and truncating gives an integer between 0 and the amount. *)
Lemma mul_rate_trunc (r : Z) (f : double) :
  0 <= r <= 2 ^ 53 -> unit_rate f ->
  exists t, Double.trunc (Double.mul (Double.of_Z r) f) = Some t /\ 0 <= t <= r.
Proof.
  intros [Hr0 Hr] (Hv & H0 & H1). rewrite of_Z_1 in H1.
  destruct (unit_interval f Hv H0 H1) as [[s ->]|(mf & ef & -> & Hf)].
  - exists 0. split; [|lia].
    destruct (Z.eq_dec r 0) as [->|Hz]; [reflexivity|].
    destruct (of_Z_exact r ltac:(lia)) as (m & e & -> & _). reflexivity.
  - destruct (Z.eq_dec r 0) as [->|Hz].
    { exists 0. split; [reflexivity|lia]. }
    destruct (of_Z_exact r ltac:(lia)) as (m & e & -> & Hvr & Er).
    destruct (mul_finite_props false false m mf e ef Hvr Hv)
      as (_ & Hs & Hup & _).
    assert (Hrep : representable (Zpos m) e).
    { apply (valid_representable false); [assumption|].
      rewrite Er. apply Rle_lt_trans with (bpow 53).
      - rewrite bpow_IZR by lia. now apply IZR_le.
      - apply bpow_lt. lia. }
    assert (Hpos : (0 < F2R (Zpos mf) ef)%R).
    { unfold F2R. pose proof (bpow_gt_0 ef).
      assert (0 < IZR (Zpos mf))%R by (apply IZR_lt; lia). nra. }
    assert (Hx : (F2R (Zpos m) e * F2R (Zpos mf) ef <= F2R (Zpos m) e)%R).
    { assert (0 < F2R (Zpos m) e)%R by (rewrite Er; apply IZR_lt; lia). nra. }
    destruct (Hup _ _ Hrep Hx) as [Hfin Hb].
    rewrite Er in Hb. now apply trunc_le.
Qed.

Lemma trade_fee_bounds (amount : Z) (f : double) :
  0 <= amount <= 2 ^ 53 -> unit_rate f -> 0 <= trade_fee amount f <= amount.
Proof.
  intros Ha Hf. unfold trade_fee, Double.to_long.
  destruct (mul_rate_trunc amount f Ha Hf) as (t & -> & Ht).
  unfold Machine.long_min, Machine.long_max.
  destruct (Z.leb_spec (- 2 ^ 63) t); [|lia].
  destruct (Z.leb_spec t (2 ^ 63 - 1)); [|lia]. cbn [andb]. lia.
Qed.

Lemma share_fee_bounds (price : Z) (f : double) :
  0 <= price <= Machine.int_max -> unit_rate f ->
  0 <= Double.to_int (Double.mul (Double.of_Z price) f) <= price.
Proof.
  unfold Machine.int_max. intros Hp Hf. unfold Double.to_int.
  destruct (mul_rate_trunc price f ltac:(lia) Hf) as (t & -> & Ht).
  unfold Machine.int_min, Machine.int_max.
  destruct (Z.leb_spec (- 2 ^ 31) t); [|lia].
  destruct (Z.leb_spec t (2 ^ 31 - 1)); [|lia]. cbn [andb]. lia.
Qed.

(** The quotient of two converted [long]s, the first not above the second,
    is a number between 0 and 1. *)
Lemma div_unit (a b : Z) :
  0 <= a <= b -> 0 < b < 2 ^ 64 ->
  unit_double (Double.div (Double.of_Z a) (Double.of_Z b)).
Proof.
  intros [Ha Hab] Hb.
  destruct (of_Z_pos_finite b Hb) as (mb & eb & Eb & Hvb & Hb1 & _).
  destruct (Z.eq_dec a 0) as [->|Hz].
  { rewrite Eb. unfold unit_double. cbn. repeat split; lra. }
  pose proof (of_Z_monotone a b ltac:(lia) ltac:(lia)) as Hmono.
  destruct (of_Z_pos_finite a ltac:(lia)) as (ma & ea & Ea & Hva & Ha1 & _).
  rewrite Ea, Eb in *. cbn [Bmag] in Hmono.
  destruct (div_finite_props false false ma mb ea eb Hva Hvb)
    as (Hv & Hs & Hup & _).
  destruct (representable_pow 0 ltac:(lia)) as [R1 E1].
  rewrite bpow_0 in E1.
  destruct (Hup _ _ R1) as [Hf Hbd].
  { rewrite E1.
    assert (Hq : (F2R (Zpos ma) ea / F2R (Zpos mb) eb * F2R (Zpos mb) eb =
                  F2R (Zpos ma) ea)%R) by (field; lra).
    nra. }
  rewrite E1 in Hbd. unfold unit_double. auto.
Qed.

Definition hundred : double := S754_finite false 7036874417766400 (-46).

Lemma of_Z_100 : Double.of_Z 100 = hundred.
Proof. reflexivity. Qed.

Lemma hundred_value : F2R 7036874417766400 (-46) = 100%R.
Proof.
  unfold F2R. change 7036874417766400 with (100 * 2 ^ 46).
  rewrite mult_IZR, <- (bpow_IZR 46) by lia.
  rewrite Rmult_assoc, <- bpow_plus. simpl (46 + -46). rewrite bpow_0. ring.
Qed.

(** A number between 0 and 1, times 100, is a double between 0 and 100. *)
Lemma mul_100 (z : double) :
  unit_double z ->
  Double.leb Double.zero (Double.mul z (Double.of_Z 100)) = true /\
  Double.leb (Double.mul z (Double.of_Z 100)) (Double.of_Z 100) = true.
Proof.
  intros (Hv & Hs & Hf & Hb). rewrite of_Z_100.
  destruct z as [s|s| |s m e]; try discriminate; cbn in Hs; subst s.
  - split; reflexivity.
  - assert (Hvh : valid hundred) by reflexivity.
    destruct (mul_finite_props false false m 7036874417766400 e (-46) Hv Hvh)
      as (Hvz & Hsz & Hup & _).
    assert (Hrep : representable 7036874417766400 (-46))
      by (unfold representable; lia).
    cbn [Bmag] in Hb.
    destruct (Hup _ _ Hrep) as [Hfz Hbz].
    { rewrite hundred_value. nra. }
    split; [now apply leb_zero_of_sign|].
    now apply leb_of_value.
Qed.

(** ** [sellAll]: the fee it takes *)

Module SellFacts.

Import Machine.

(** The fee as the specification words it, [floor(amount * feeRate)]:
    the product of the amount and the value of the rate taken exactly,
    then rounded down.  A rate that is not a number has no such fee. *)
Definition spec_fee (amount : Z) (feeRate : double) : option Z :=
  match feeRate with
  | S754_zero _ => Some 0
  | S754_finite s m e => Some (Z.shiftl (amount * cond_Zopp s (Zpos m)) e)
  | S754_infinity _ | S754_nan => None
  end.

(** The fee the program charges on an amount below [2^53] at a rate
    between 0 and 1 is the floor of the exact product, or one more when
    the product is rounded up to the next integer. *)
Lemma trade_fee_floor (amount : Z) (f : double) :
  0 <= amount < 2 ^ 53 -> unit_rate f ->
  exists fl, spec_fee amount f = Some fl /\
             0 <= fl /\ fl <= trade_fee amount f <= fl + 1.
Proof.
  intros [Ha0 Ha] (Hv & H0 & H1). rewrite of_Z_1 in H1.
  change (2 ^ 53) with 9007199254740992 in Ha.
  destruct (unit_interval f Hv H0 H1) as [[s ->]|(mf & ef & -> & Hf)].
  - exists 0. cbn [spec_fee]. split; [reflexivity|]. split; [lia|].
    unfold trade_fee.
    destruct (Z.eq_dec amount 0) as [->|Hz]; [vm_compute; split; discriminate|].
    destruct (of_Z_exact amount
                ltac:(change (2 ^ 53) with 9007199254740992; lia))
      as (m & e & -> & _).
    destruct s; vm_compute; split; discriminate.
  - destruct (Z.eq_dec amount 0) as [->|Hz].
    { exists 0. cbn [spec_fee]. rewrite Z.mul_0_l, Z.shiftl_0_l.
      split; [reflexivity|]. split; [lia|].
      unfold trade_fee. change (Double.of_Z 0) with (S754_zero false).
      vm_compute. split; discriminate. }
    destruct (of_Z_exact amount
                ltac:(change (2 ^ 53) with 9007199254740992; lia))
      as (m & e & Ea & Hva & Er).
    cbn [spec_fee cond_Zopp].
    assert (Hposa : amount = Zpos (Z.to_pos amount))
      by (rewrite Z2Pos.id; lia).
    set (n := (Z.to_pos amount * mf)%positive).
    assert (En : amount * Zpos mf = Zpos n).
    { unfold n. rewrite Pos2Z.inj_mul, <- Hposa. reflexivity. }
    rewrite En.
    destruct (shiftl_floor n ef) as [Hfl Hge].
    set (fl := Z.shiftl (Zpos n) ef) in *.
    assert (Ex : (F2R (Zpos n) ef = IZR amount * F2R (Zpos mf) ef)%R).
    { unfold F2R. rewrite <- En, mult_IZR. ring. }
    assert (Hfl0 : 0 <= fl) by (apply Z.shiftl_nonneg; lia).
    assert (Hlt : (F2R (Zpos n) ef < IZR (fl + 1))%R).
    { apply Rnot_le_lt. intros Hc. specialize (Hge _ Hc). lia. }
    assert (HA : (0 < IZR amount)%R) by (apply IZR_lt; lia).
    assert (Hpos : (0 < F2R (Zpos mf) ef)%R).
    { unfold F2R. pose proof (bpow_gt_0 ef).
      assert (0 < IZR (Zpos mf))%R by (apply IZR_lt; lia). nra. }
    assert (Hfla : fl <= amount).
    { apply le_IZR. rewrite Ex in Hfl. nra. }
    exists fl. split; [reflexivity|]. split; [exact Hfl0|].
    unfold trade_fee. rewrite Ea.
    destruct (mul_finite_props false false m mf e ef Hva Hv)
      as (_ & Hs & Hup & Hdn).
    rewrite Er, <- Ex in Hup, Hdn.
    assert (RU : representable (fl + 1) 0).
    { unfold representable. change (2 ^ 53) with 9007199254740992. lia. }
    assert (EU : F2R (fl + 1) 0 = IZR (fl + 1)).
    { unfold F2R. rewrite bpow_0. ring. }
    destruct (Hup _ _ RU) as [Hfin Hb]; [rewrite EU; lra|].
    rewrite EU in Hb.
    assert (HLb : (IZR fl <= Bmag (Double.mul (S754_finite false m e)
                                     (S754_finite false mf ef)))%R).
    { destruct (Z.eq_dec fl 0) as [E0 | E0].
      - rewrite E0.
        destruct (Double.mul _ _) as [| | |s' m' e']; cbn [Bmag]; try lra.
        unfold F2R. pose proof (bpow_gt_0 e').
        assert (0 < IZR (Zpos m'))%R by (apply IZR_lt; lia). nra.
      - assert (RL : representable fl 0).
        { unfold representable. change (2 ^ 53) with 9007199254740992. lia. }
        assert (EL : F2R fl 0 = IZR fl).
        { unfold F2R. rewrite bpow_0. ring. }
        rewrite <- EL. apply Hdn; [exact RL | | exact Hfin].
        rewrite EL. exact Hfl. }
    destruct (trunc_between _ fl (fl + 1) Hs Hfin HLb) as (t & Et & Ht0 & Ht).
    { apply Rle_lt_trans with (IZR (fl + 1)); [exact Hb | apply IZR_lt; lia]. }
    unfold Double.to_long. rewrite Et.
    unfold long_min, long_max.
    destruct (Z.leb_spec (- 2 ^ 63) t); [|lia].
    destruct (Z.leb_spec t (2 ^ 63 - 1)); [|lia].
    cbn [andb]. lia.
Qed.

(** C3, counterexample: the fee [sellAll] takes is not the floor of
    [price*shares*feeRate].  With the default rate, the double nearest to
    0.00015 (which lies below it), one share sold at 60000 pays a fee of
    9 where the floor of the exact product is 8, and one share sold at
    20000 pays 2 where the floor of 20000 * 0.00015 in decimal is 3.
    And selling [2^31 - 1] shares at [2^22 + 1] with a rate of 1.0, a
    call that stays within the machine types, takes one more than the
    revenue: the cash goes from 0 to -1 where the specification has it
    unchanged. *)
Lemma sellAll_fee_counterexample :
  spec_fee 60000 DEFAULT_FEE_RATE = Some 8 /\
  cash (sellAll (mkTradingStrategy EmptyString 0 1 60000 [] 1 0)
          60000 DEFAULT_FEE_RATE) = 0 + (60000 - 9) /\
  DEFAULT_FEE_RATE = Double.lit 15 100000 /\
  20000 * 15 / 100000 = 3 /\
  cash (sellAll (mkTradingStrategy EmptyString 0 1 20000 [] 1 0)
          20000 DEFAULT_FEE_RATE) = 0 + (20000 - 2) /\
  sell_in_range (mkTradingStrategy EmptyString 0 (2 ^ 31 - 1) 0 [] 1 0)
    (2 ^ 22 + 1) (Double.of_Z 1) /\
  spec_fee ((2 ^ 22 + 1) * (2 ^ 31 - 1)) (Double.of_Z 1)
  = Some ((2 ^ 22 + 1) * (2 ^ 31 - 1)) /\
  cash (sellAll (mkTradingStrategy EmptyString 0 (2 ^ 31 - 1) 0 [] 1 0)
          (2 ^ 22 + 1) (Double.of_Z 1)) = -1.
Proof.
  repeat split; try (vm_compute; reflexivity);
    vm_compute; intro; discriminate.
Qed.

(** C3 (amended): with [shares > 0], [sellAll(price, feeRate)] leaves
    [shares = 0] and [avgPrice = 0], adds exactly [price*shares - fee] to
    the cash, where [fee = (long)(price*shares*feeRate)] is computed in
    double arithmetic, adds one to the sell counter and changes nothing
    else; with [shares = 0] the whole ledger is unchanged.  (Stated for
    calls that stay within the machine types.)  For a revenue
    [price*shares] below [2^53] and a rate between 0 and 1, that fee is
    the floor of the exact product of the revenue and the rate, or one
    more, and it lies between 0 and the revenue, so that the cash does
    not go down. *)
Theorem sellAll_spec (s : TradingStrategy) (price : Z) (feeRate : double) :
  sell_in_range s price feeRate ->
  let revenue := price * shares s in
  let fee := trade_fee revenue feeRate in
  let s' := sellAll s price feeRate in
  (0 < shares s ->
     shares s' = 0 /\ avgPrice s' = 0 /\
     cash s' = cash s + (revenue - fee) /\
     sellCount s' = sellCount s + 1 /\
     buyCount s' = buyCount s /\
     equityHistory s' = equityHistory s /\
     name s' = name s) /\
  (shares s = 0 -> s' = s) /\
  (0 <= revenue < 2 ^ 53 -> unit_rate feeRate ->
     (exists fl, spec_fee revenue feeRate = Some fl /\ fl <= fee <= fl + 1) /\
     0 <= fee <= revenue /\
     cash s <= cash s').
Proof.
  intros R revenue fee s'.
  destruct (sellAll_effect s price feeRate R) as [Hsell Hnone].
  fold revenue in Hsell. fold fee in Hsell. fold s' in Hsell, Hnone.
  split; [exact Hsell|]. split; [exact Hnone|].
  intros Hrev Hrate.
  destruct (trade_fee_floor revenue feeRate Hrev Hrate)
    as (fl & Efl & Hfl0 & Hfl).
  fold fee in Hfl.
  assert (Hfee : 0 <= fee <= revenue).
  { apply trade_fee_bounds; [lia | exact Hrate]. }
  split; [exists fl; split; [exact Efl | exact Hfl]|].
  split; [exact Hfee|].
  destruct (Z_lt_le_dec 0 (shares s)) as [Hpos | Hle].
  - destruct (Hsell Hpos) as (_ & _ & -> & _). lia.
  - unfold s', sellAll.
    destruct (Z.gtb_spec (shares s) 0); lia.
Qed.

Lemma sellAll_spec_witness :
  let s := mkTradingStrategy EmptyString 58510 142 70000 [] 1 0 in
  let s' := sellAll s 62000 DEFAULT_FEE_RATE in
  spec_fee (62000 * 142) DEFAULT_FEE_RATE = Some 1320 /\
  cash s' = 58510 + (62000 * 142 - 1320) /\
  shares s' = 0 /\ avgPrice s' = 0 /\ sellCount s' = 1.
Proof.
  intros s s'.
  assert (R : sell_in_range s 62000 DEFAULT_FEE_RATE).
  { constructor; vm_compute; try split; intro; discriminate. }
  destruct (sellAll_spec s 62000 DEFAULT_FEE_RATE R)
    as (Hsell & _ & Hfee).
  destruct Hsell as (Hsh & Havg & Hcash & Hcnt & _).
  { vm_compute. reflexivity. }
  fold s' in Hsh, Havg, Hcash, Hcnt.
  split; [vm_compute; reflexivity|].
  rewrite Hcash, Hsh, Havg, Hcnt. vm_compute. repeat split.
Defined.

End SellFacts.

(** ** [calculateMDD] *)

Module DrawdownFacts.

Import Machine BacktestEngine.

(** C8, counterexample: a series may hold any [long]; on [1, -1] the peak
    is 1, the drawdown (1 - -1) / 1 = 2, and the result 200. *)
Lemma calculateMDD_counterexample :
  calculateMDD [1; -1] = Double.of_Z 200 /\
  Double.leb (calculateMDD [1; -1]) (Double.of_Z 100) = false.
Proof. vm_compute. split; reflexivity. Qed.

(** An equity value that is not negative. *)
Definition equity_ok (e : Z) : Prop := 0 <= e <= long_max.

Lemma unit_double_zero : unit_double Double.zero.
Proof. unfold unit_double. cbn. repeat split; lra. Qed.

(** The loop invariant of [calculateMDD] on such values. *)
Lemma mdd_step_unit (peak equity : Z) (maxDD : double) :
  equity_ok peak -> unit_double maxDD -> equity_ok equity ->
  equity_ok (fst (mdd_step (peak, maxDD) equity)) /\
  unit_double (snd (mdd_step (peak, maxDD) equity)).
Proof.
  unfold equity_ok, long_max. intros Hp Hm He. unfold mdd_step.
  set (peak' := if equity >? peak then equity else peak).
  assert (Hp' : equity <= peak' /\ 0 <= peak' <= 2 ^ 63 - 1).
  { unfold peak'. destruct (Z.gtb_spec equity peak); lia. }
  destruct (Z.gtb_spec peak' 0) as [Hpos|Hz]; cbn [fst snd].
  - split; [lia|].
    rewrite to_long_id by (unfold in_long, long_min, long_max; lia).
    destruct (Double.ltb maxDD _); [|assumption].
    apply div_unit; lia.
  - split; [lia|assumption].
Qed.

Lemma mdd_fold_unit (history : list Z) :
  forall (peak : Z) (maxDD : double),
    equity_ok peak -> unit_double maxDD -> Forall equity_ok history ->
    unit_double (snd (fold_left mdd_step history (peak, maxDD))).
Proof.
  induction history as [|e rest IH]; intros peak maxDD Hp Hm Hh; [assumption|].
  inversion Hh as [|? ? He Hrest]; subst. cbn [fold_left].
  destruct (mdd_step_unit peak e maxDD Hp Hm He) as [Hp' Hm'].
  destruct (mdd_step (peak, maxDD) e) as [peak' maxDD']. now apply IH.
Qed.

(** Dividing a zero drawdown never raises the maximum. *)
Lemma ltb_zero_div (y : double) :
  Double.ltb Double.zero (Double.div (S754_zero false) y) = false.
Proof. destruct y as [[]|[]| |[] m e]; reflexivity. Qed.

Lemma mdd_step_flat (peak equity : Z) :
  0 <= peak -> peak <= Z.max 0 equity ->
  mdd_step (peak, Double.zero) equity =
  (Z.max peak equity, Double.zero).
Proof.
  intros Hp Hle. unfold mdd_step.
  destruct (Z.gtb_spec equity peak) as [Hgt|Hngt].
  - rewrite Z.max_r by lia.
    destruct (Z.gtb_spec equity 0); [|lia].
    rewrite Z.sub_diag. change (Double.of_Z (to_long 0)) with (S754_zero false).
    now rewrite ltb_zero_div.
  - rewrite Z.max_l by lia.
    destruct (Z.gtb_spec peak 0) as [Hpos|]; [|reflexivity].
    replace (peak - equity) with 0 by lia.
    change (Double.of_Z (to_long 0)) with (S754_zero false).
    now rewrite ltb_zero_div.
Qed.

Lemma mdd_fold_flat (history : list Z) :
  forall peak : Z,
    0 <= peak -> StronglySorted Z.le history ->
    Forall (fun e => peak <= Z.max 0 e) history ->
    snd (fold_left mdd_step history (peak, Double.zero)) = Double.zero.
Proof.
  induction history as [|e rest IH]; intros peak Hp Hs Hle; [reflexivity|].
  inversion Hs as [|? ? Hs' Hall]; subst.
  inversion Hle as [|? ? He Hrest]; subst.
  cbn [fold_left]. rewrite mdd_step_flat by assumption.
  apply IH; [lia|assumption|].
  rewrite Forall_forall in *. intros e' Hin.
  specialize (Hall e' Hin). specialize (Hrest e' Hin). lia.
Qed.

(** C8 (amended): on every equity series whose values are not negative
    [calculateMDD] returns a double between 0 and 100; it returns 0 for
    the empty series and for every series that never decreases. *)
Theorem calculateMDD_spec :
  (forall history,
     Forall equity_ok history ->
     Double.leb Double.zero (calculateMDD history) = true /\
     Double.leb (calculateMDD history) (Double.of_Z 100) = true) /\
  calculateMDD [] = Double.zero /\
  (forall history, Sorted Z.le history -> calculateMDD history = Double.zero).
Proof.
  split; [|split; [reflexivity|]].
  - intros history Hh. unfold calculateMDD.
    destruct history as [|e rest]; [split; reflexivity|].
    apply mul_100. apply mdd_fold_unit; try assumption.
    + unfold equity_ok, long_max. lia.
    + apply unit_double_zero.
  - intros history Hs. unfold calculateMDD.
    destruct history as [|e rest]; [reflexivity|].
    rewrite mdd_fold_flat; [reflexivity|lia| |].
    + apply Sorted_StronglySorted; [|assumption].
      intros x y z. apply Z.le_trans.
    + apply Forall_forall. intros. lia.
Qed.

End DrawdownFacts.

(** ** The ledger never goes negative *)

Module InvariantFacts.

Import Machine.

(** C10, counterexample: initial cash [2^61 - 2^30], fee rate 1, prices
    [2^29] then [2^22 + 1].  The panic seller buys [2^31 - 1] shares for
    all its cash; at the second tick the revenue 9007201398030335 is not a
    double, [(double)revenue] is the next integer, the fee
    [(long)(revenue * 1.0)] exceeds the revenue by one, and [sellAll]
    leaves cash -1.  No integer operation overflows on the way. *)
Lemma invariant_counterexample :
  let fee := Double.of_Z 1 in
  let p0 := PanicSellStrategy.new (2 ^ 61 - 2 ^ 30) (Double.lit (-10) 100) fee in
  0 <= cash (PanicSellStrategy.base p0) /\
  Double.leb Double.zero fee = true /\ Double.leb fee (Double.of_Z 1) = true /\
  exists p1 p2,
    PanicSellStrategy.onPrice p0 0 (2 ^ 29) Double.zero = Some p1 /\
    (cash (PanicSellStrategy.base p1), shares (PanicSellStrategy.base p1),
     avgPrice (PanicSellStrategy.base p1)) = (0, 2 ^ 31 - 1, 2 ^ 29) /\
    trade_fee ((2 ^ 22 + 1) * (2 ^ 31 - 1)) fee =
    (2 ^ 22 + 1) * (2 ^ 31 - 1) + 1 /\
    PanicSellStrategy.onPrice p1 1 (2 ^ 22 + 1)
      (BacktestEngine.changeRate 1 (2 ^ 22 + 1) (2 ^ 29)) = Some p2 /\
    cash (PanicSellStrategy.base p2) = -1.
Proof.
  intros fee p0. split; [vm_compute; discriminate|].
  split; [reflexivity|]. split; [reflexivity|].
  eexists _, _. repeat split; vm_compute; reflexivity.
Qed.

(** With 32-bit wrap-around a large enough cash also lets the DCA buyer
    accumulate more than [2^31 - 1] shares: with cash [2^33 - 4], price 1,
    no fee, a quarter of the cash spent at every tick, the share counter
    is [2^31 - 1] after the first tick and negative after the second. *)
Example dca_share_overflow :
  let d0 := DCAStrategy.new (2 ^ 33 - 4) (Double.lit (-5) 100) 1
                            (Double.lit 25 100) Double.zero in
  let shares_of := option_map (fun d => shares (DCAStrategy.base d)) in
  let r1 := DCAStrategy.onPrice d0 0 1 Double.zero in
  let r2 := match r1 with
            | Some d1 => DCAStrategy.onPrice d1 1 1 Double.zero
            | None => None
            end in
  shares_of r1 = Some (2 ^ 31 - 1) /\ shares_of r2 = Some (-536870914).
Proof. vm_compute. split; reflexivity. Qed.

(** Prices for which every trade amount of a budget below [2^31] is exact
    as a double. *)
Definition price_ok (price : Z) : Prop := 1 <= price <= 2 ^ 22.

Definition nonneg (s : TradingStrategy) : Prop :=
  0 <= cash s /\ 0 <= shares s /\ 0 <= avgPrice s.

(** A ledger within budget [C]: nothing negative, and the cash together
    with one unit per share held does not exceed [C]. *)
Definition within (C : Z) (s : TradingStrategy) : Prop :=
  0 <= cash s /\ 0 <= shares s /\ cash s + shares s <= C /\
  0 <= avgPrice s <= 2 ^ 22.

Section Budget.

Variables (C : Z) (f : double).
Hypothesis HC : 0 <= C <= int_max.
Hypothesis Hf : unit_rate f.

Lemma amount_fee (price n : Z) :
  price_ok price -> 0 <= n <= int_max ->
  to_long (price * n) = price * n /\
  0 <= price * n <= 2 ^ 53 /\
  0 <= trade_fee (price * n) f <= price * n.
Proof using Hf.
  unfold price_ok, int_max. intros Hp Hn.
  assert (Hb : 0 <= price * n <= 2 ^ 53) by nia.
  split; [apply to_long_id; unfold in_long, long_min, long_max; lia|].
  split; [assumption|]. now apply trade_fee_bounds.
Qed.

Lemma buy_within (s : TradingStrategy) (price qty : Z) :
  within C s -> price_ok price -> in_int qty ->
  within C (buy s price qty f).
Proof using HC Hf.
  intros (Hc & Hs & Hb & Ha) Hp Hq. unfold buy, buy_cost.
  destruct (Z.gtb_spec qty 0) as [Hpos|Hneg];
    [|rewrite andb_false_r; repeat split; lia].
  rewrite andb_true_r.
  unfold in_int, int_min, int_max in *.
  destruct (amount_fee price qty Hp ltac:(unfold int_max; lia))
    as (-> & Hcost & Hfee).
  rewrite (to_long_id (price * qty + _))
    by (unfold in_long, long_min, long_max; lia).
  destruct (Z.geb_spec (cash s) (price * qty + trade_fee (price * qty) f))
    as [Hge|Hlt]; [|repeat split; lia].
  unfold price_ok in Hp.
  assert (Hqc : qty <= price * qty) by nia.
  assert (Hav : 0 <= avgPrice s * shares s <= 2 ^ 22 * shares s) by nia.
  unfold within. cbn [cash shares avgPrice].
  rewrite (to_long_id (cash s - _))
    by (unfold in_long, long_min, long_max; lia).
  rewrite (to_int_id (shares s + qty))
    by (unfold in_int, int_min, int_max; lia).
  rewrite (to_long_id (avgPrice s * shares s))
    by (unfold in_long, long_min, long_max; lia).
  rewrite (to_long_id (avgPrice s * shares s + price * qty))
    by (unfold in_long, long_min, long_max; lia).
  destruct (Z.gtb_spec (shares s + qty) 0); [|lia].
  assert (Hquot : 0 <= Z.quot (avgPrice s * shares s + price * qty)
                              (shares s + qty) <= 2 ^ 22).
  { apply quot_between; [lia|]. nia. }
  rewrite to_int_id by (unfold in_int, int_min, int_max; lia).
  repeat split; lia.
Qed.

Lemma sellAll_within (s : TradingStrategy) (price : Z) :
  within C s -> price_ok price ->
  cash s <= cash (sellAll s price f) /\
  nonneg (sellAll s price f) /\
  avgPrice (sellAll s price f) <= 2 ^ 22 /\
  (0 < shares s -> shares (sellAll s price f) = 0).
Proof using HC Hf.
  intros (Hc & Hs & Hb & Ha) Hp. unfold sellAll, nonneg.
  destruct (Z.gtb_spec (shares s) 0) as [Hpos|Hz];
    [|repeat split; lia].
  unfold int_max in *.
  destruct (amount_fee price (shares s) Hp ltac:(unfold int_max; lia))
    as (-> & Hrev & Hfee).
  cbn [cash shares avgPrice].
  rewrite (to_long_id (price * shares s - _))
    by (unfold in_long, long_min, long_max; lia).
  rewrite to_long_id by (unfold in_long, long_min, long_max; lia).
  repeat split; lia.
Qed.

(** The divisor of the quantity computation is positive. *)
Lemma perShareCost_pos (price : Z) :
  price_ok price ->
  0 < to_int (price + Double.to_int (Double.mul (Double.of_Z price) f)).
Proof using Hf.
  unfold price_ok. intros Hp.
  pose proof (share_fee_bounds price f ltac:(unfold int_max; lia) Hf) as Hb.
  rewrite to_int_id; [lia|]. unfold in_int, int_min, int_max. lia.
Qed.

(** What every state of a panic seller satisfies: within budget until it
    sells, and without shares before the first buy and after the sale. *)
Definition panic_inv (p : PanicSellStrategy.t) : Prop :=
  let s := PanicSellStrategy.base p in
  PanicSellStrategy.feeRate p = f /\
  (PanicSellStrategy.hasBought p = false -> shares s = 0) /\
  (within C s \/
   PanicSellStrategy.hasBought p = true /\ shares s = 0 /\
   0 <= cash s /\ 0 <= avgPrice s <= 2 ^ 22).

Definition dca_inv (d : DCAStrategy.t) : Prop :=
  DCAStrategy.feeRate d = f /\ within C (DCAStrategy.base d).

Definition hold_inv (h : HoldStrategy.t) : Prop :=
  HoldStrategy.feeRate h = f /\ within C (HoldStrategy.base h).

Definition strategy_inv (s : Strategy) : Prop :=
  match s with
  | PanicSell p => panic_inv p
  | DCA d => dca_inv d
  | Hold h => hold_inv h
  end.

Lemma within_nonneg (s : TradingStrategy) : within C s -> nonneg s.
Proof. unfold within, nonneg. lia. Qed.

Lemma strategy_inv_nonneg (s : Strategy) :
  strategy_inv s -> nonneg (ledger s).
Proof.
  destruct s as [p|d|h]; cbn.
  - intros (_ & _ & [H|(_ & H1 & H2 & H3)]); [now apply within_nonneg|].
    unfold nonneg. lia.
  - intros [_ H]. now apply within_nonneg.
  - intros [_ H]. now apply within_nonneg.
Qed.

Lemma panic_trade_inv (p : PanicSellStrategy.t) (price : Z) :
  panic_inv p -> price_ok price ->
  exists p', PanicSellStrategy.trade p price = Some p' /\ panic_inv p'.
Proof using HC Hf.
  intros (Ef & Hnb & Hw) Hp. unfold PanicSellStrategy.trade.
  rewrite Ef.
  destruct (negb (PanicSellStrategy.hasBought p) &&
            (cash (PanicSellStrategy.base p) >=? price)) eqn:Eg.
  - apply andb_prop in Eg as [Enb _]. apply negb_true_iff in Enb.
    rewrite (long_div_some _ _ (perShareCost_pos price Hp)).
    destruct Hw as [Hw|(Hb & _)]; [|congruence].
    destruct (to_int _ >? 0).
    + eexists. split; [reflexivity|]. unfold panic_inv.
      cbn [PanicSellStrategy.base PanicSellStrategy.feeRate
           PanicSellStrategy.hasBought].
      split; [reflexivity|]. split; [discriminate|]. left.
      apply buy_within; try assumption. apply to_int_range.
    + exists p. split; [reflexivity|]. unfold panic_inv. auto.
  - destruct ((shares (PanicSellStrategy.base p) >? 0) &&
              (avgPrice (PanicSellStrategy.base p) >? 0)) eqn:Eh.
    + apply andb_prop in Eh as [Esh _].
      destruct (Z.gtb_spec (shares (PanicSellStrategy.base p)) 0)
        as [Hsh|]; [|discriminate].
      destruct (Double.leb _ _).
      * eexists. split; [reflexivity|]. unfold panic_inv.
        cbn [PanicSellStrategy.base PanicSellStrategy.feeRate
             PanicSellStrategy.hasBought].
        destruct Hw as [Hw|(_ & Hz & _)]; [|lia].
        destruct (sellAll_within _ price Hw Hp) as (Hc & (H1 & H2 & H3) & H4 & H5).
        specialize (H5 Hsh).
        split; [reflexivity|]. split; [intros; assumption|]. right.
        destruct (PanicSellStrategy.hasBought p) eqn:Eb;
          [|specialize (Hnb eq_refl); lia].
        repeat split; lia.
      * exists p. split; [reflexivity|]. unfold panic_inv. auto.
    + exists p. split; [reflexivity|]. unfold panic_inv. auto.
Qed.

Lemma dca_trade_inv (d : DCAStrategy.t) (idx price : Z) :
  dca_inv d -> price_ok price ->
  exists d', DCAStrategy.trade d idx price = Some d' /\ dca_inv d'.
Proof using HC Hf.
  intros (Ef & Hw) Hp. unfold DCAStrategy.trade, DCAStrategy.buyQty.
  rewrite Ef.
  destruct (DCAStrategy.shouldBuy d idx price);
    [|exists d; split; [reflexivity|split; assumption]].
  rewrite (long_div_some _ _ (perShareCost_pos price Hp)).
  destruct (to_int _ >? 0);
    [|exists d; split; [reflexivity|split; assumption]].
  eexists. split; [reflexivity|]. unfold dca_inv.
  cbn [DCAStrategy.base DCAStrategy.feeRate]. split; [reflexivity|].
  apply buy_within; try assumption. apply to_int_range.
Qed.

Lemma hold_trade_inv (h : HoldStrategy.t) (price : Z) :
  hold_inv h -> price_ok price ->
  exists h', HoldStrategy.trade h price = Some h' /\ hold_inv h'.
Proof using HC Hf.
  intros (Ef & Hw) Hp. unfold HoldStrategy.trade.
  rewrite Ef.
  destruct (negb (HoldStrategy.hasBought h) && _);
    [|exists h; split; [reflexivity|split; assumption]].
  rewrite (long_div_some _ _ (perShareCost_pos price Hp)).
  destruct (to_int _ >? 0);
    [|exists h; split; [reflexivity|split; assumption]].
  eexists. split; [reflexivity|]. unfold hold_inv.
  cbn [HoldStrategy.base HoldStrategy.feeRate]. split; [reflexivity|].
  apply buy_within; try assumption. apply to_int_range.
Qed.

(** Every tick at an admissible price is executed and keeps the
    invariant. *)
Lemma onPrice_inv (s : Strategy) (idx price : Z) (rate : double) :
  strategy_inv s -> price_ok price ->
  exists s', onPrice s idx price rate = Some s' /\ strategy_inv s'.
Proof using HC Hf.
  intros Hi Hp. destruct s as [p|d|h]; cbn [onPrice strategy_inv] in *.
  - unfold PanicSellStrategy.onPrice.
    destruct (panic_trade_inv p price Hi Hp) as (p' & -> & Hi').
    eexists. split; [reflexivity|]. exact Hi'.
  - unfold DCAStrategy.onPrice.
    destruct (dca_trade_inv d idx price Hi Hp) as (d' & -> & Hi').
    eexists. split; [reflexivity|]. exact Hi'.
  - unfold HoldStrategy.onPrice.
    destruct (hold_trade_inv h price Hi Hp) as (h' & -> & Hi').
    eexists. split; [reflexivity|]. exact Hi'.
Qed.

End Budget.

(** A strategy as the program constructs it, with starting cash [C] and
    fee rate [f]. *)
Inductive fresh (C : Z) (f : double) : Strategy -> Prop :=
| fresh_panic threshold :
    fresh C f (PanicSell (PanicSellStrategy.new C threshold f))
| fresh_dca dropRate interval ratio :
    fresh C f (DCA (DCAStrategy.new C dropRate interval ratio f))
| fresh_hold ratio :
    fresh C f (Hold (HoldStrategy.new C ratio f)).

(** The states a strategy reaches from [s0] through ticks at admissible
    prices. *)
Inductive ticked (s0 : Strategy) : Strategy -> Prop :=
| ticked_start : ticked s0 s0
| ticked_next s idx price rate s' :
    ticked s0 s -> price_ok price -> onPrice s idx price rate = Some s' ->
    ticked s0 s'.

Lemma fresh_inv (C : Z) (f : double) (s0 : Strategy) :
  0 <= C -> fresh C f s0 -> strategy_inv C f s0.
Proof.
  intros HC [th|dr iv r|r]; cbn.
  - split; [reflexivity|]. split; [reflexivity|]. left.
    unfold within. cbn. lia.
  - split; [reflexivity|]. unfold within. cbn. lia.
  - split; [reflexivity|]. unfold within. cbn. lia.
Qed.

Lemma ticked_inv (C : Z) (f : double) (s0 s : Strategy) :
  0 <= C <= int_max -> unit_rate f ->
  strategy_inv C f s0 -> ticked s0 s -> strategy_inv C f s.
Proof.
  intros HC Hf H0 Ht. induction Ht as [|s idx price rate s' _ IH Hp Hs];
    [assumption|].
  destruct (onPrice_inv C f HC Hf s idx price rate IH Hp) as (s'' & E & Hi).
  congruence.
Qed.

(** C10 (amended): with a starting cash between 0 and [2^31 - 1], prices
    between 1 and [2^22] and a fee rate between 0 and 1, whatever the
    thresholds, ratios and interval: every tick of the panic seller, the
    DCA buyer and the holder is executed, and cash, shares and avgPrice
    are never negative.  On a ledger within such a budget [buy] keeps the
    three non-negative (it refuses whenever the cash is below cost plus
    fee) and [sellAll] never lowers the cash. *)
Theorem ledger_never_negative (C : Z) (f : double) :
  0 <= C <= int_max -> unit_rate f ->
  (forall s0 s, fresh C f s0 -> ticked s0 s ->
     nonneg (ledger s) /\
     forall idx price rate, price_ok price ->
       exists s', onPrice s idx price rate = Some s' /\ nonneg (ledger s')) /\
  (forall s price qty, within C s -> price_ok price -> in_int qty ->
     nonneg (buy s price qty f)) /\
  (forall s price, within C s -> price_ok price ->
     cash s <= cash (sellAll s price f) /\ nonneg (sellAll s price f)).
Proof.
  intros HC Hf. split; [|split].
  - intros s0 s H0 Ht.
    pose proof (ticked_inv C f s0 s HC Hf (fresh_inv C f s0 ltac:(lia) H0) Ht)
      as Hi.
    split; [now apply (strategy_inv_nonneg C f)|].
    intros idx price rate Hp.
    destruct (onPrice_inv C f HC Hf s idx price rate Hi Hp) as (s' & E & Hi').
    exists s'. split; [assumption|]. now apply (strategy_inv_nonneg C f).
  - intros s price qty Hw Hp Hq.
    apply (within_nonneg C). now apply buy_within.
  - intros s price Hw Hp.
    destruct (sellAll_within C f HC Hf s price Hw Hp) as (H1 & H2 & _).
    auto.
Qed.

Lemma ledger_never_negative_witness :
  (forall s0 s, fresh 10000000 DEFAULT_FEE_RATE s0 -> ticked s0 s ->
     nonneg (ledger s) /\
     forall idx price rate, price_ok price ->
       exists s', onPrice s idx price rate = Some s' /\ nonneg (ledger s')) /\
  (forall s price qty, within 10000000 s -> price_ok price -> in_int qty ->
     nonneg (buy s price qty DEFAULT_FEE_RATE)) /\
  (forall s price, within 10000000 s -> price_ok price ->
     cash s <= cash (sellAll s price DEFAULT_FEE_RATE) /\
     nonneg (sellAll s price DEFAULT_FEE_RATE)).
Proof.
  apply (ledger_never_negative 10000000 DEFAULT_FEE_RATE).
  - vm_compute. split; discriminate.
  - repeat split; reflexivity.
Defined.

End InvariantFacts.

(** ** [BacktestEngine]: a run reaches its end and records every tick *)

Module RunFacts.

Import Machine BacktestEngine EngineFacts.

Lemma long_div_defined (a b : Z) :
  b <> 0 -> b <> -1 -> long_div a b = Some (Z.quot a b).
Proof.
  intros H0 H1. unfold long_div.
  destruct (Z.eqb_spec b 0); [contradiction|].
  destruct (Z.eqb_spec b (-1)); [contradiction|].
  now rewrite andb_false_r.
Qed.

(** No tick of [s] on [prices] divides by a per-share cost on which the
    division traps. *)
Definition tradable (prices : list Z) (s : Strategy) : Prop :=
  Forall (fun price => perShareCost (feeRateOf s) price <> 0 /\
                       perShareCost (feeRateOf s) price <> -1) prices.

(** A tick can only fail in the division by the per-share cost. *)
Lemma onPrice_defined (s : Strategy) (i price : Z) (rate : double) :
  perShareCost (feeRateOf s) price <> 0 ->
  perShareCost (feeRateOf s) price <> -1 ->
  exists s', onPrice s i price rate = Some s' /\ feeRateOf s' = feeRateOf s.
Proof.
  unfold perShareCost. intros H0 H1.
  destruct s as [p|d|h]; cbn [onPrice feeRateOf] in *.
  - unfold PanicSellStrategy.onPrice, PanicSellStrategy.trade.
    rewrite (long_div_defined _ _ H0 H1).
    repeat match goal with
           | |- context [if ?c then _ else _] => destruct c
           end; eexists; split; reflexivity.
  - unfold DCAStrategy.onPrice, DCAStrategy.trade, DCAStrategy.buyQty.
    rewrite (long_div_defined _ _ H0 H1).
    repeat match goal with
           | |- context [if ?c then _ else _] => destruct c
           end; eexists; split; reflexivity.
  - unfold HoldStrategy.onPrice, HoldStrategy.trade.
    rewrite (long_div_defined _ _ H0 H1).
    repeat match goal with
           | |- context [if ?c then _ else _] => destruct c
           end; eexists; split; reflexivity.
Qed.

Lemma tickAll_defined (ss : list Strategy) (i price : Z) (rate : double)
    (rest : list Z) :
  Forall (tradable (price :: rest)) ss ->
  exists ss', tickAll ss i price rate = Some ss' /\ Forall (tradable rest) ss'.
Proof.
  induction ss as [|s l IH]; intros H.
  - exists []. split; [reflexivity|constructor].
  - inversion H as [|? ? Hs Hl]; subst.
    destruct (IH Hl) as (l' & El & Hl').
    inversion Hs as [|? ? [Hp0 Hp1] Hrest]; subst.
    destruct (onPrice_defined s i price rate Hp0 Hp1) as (s' & Es & Ef).
    exists (s' :: l'). simpl. rewrite Es, El. split; [reflexivity|].
    constructor; [|assumption]. unfold tradable in *. now rewrite Ef.
Qed.

Lemma replay_defined (prices : list Z) :
  forall (i prev : Z) (ss : list Strategy),
    Forall (tradable prices) ss -> replay prices i prev ss <> None.
Proof.
  induction prices as [|price rest IH]; simpl; intros i prev ss H.
  - discriminate.
  - destruct (tickAll_defined ss i price (changeRate i price prev) rest H)
      as (ss' & E & H').
    rewrite E. now apply IH.
Qed.

(** An [int] sum that exceeds [int_max] wraps to a negative number. *)
Lemma to_int_wrapped (x : Z) : int_max < x < 2 ^ 32 -> to_int x = x - 2 ^ 32.
Proof.
  unfold int_max, to_int, wrap. intros Hx.
  replace (x + 2 ^ (32 - 1)) with (x + 2 ^ 31 - 2 ^ 32 + 1 * 2 ^ 32) by lia.
  rewrite Z.mod_add by lia. rewrite Z.mod_small by lia. lia.
Qed.

(** With a positive price and a fee rate between 0 and 1 the per-share
    cost is a positive [int], or wraps to one below -1. *)
Lemma positive_price_tradable (f : double) (price : Z) :
  unit_rate f -> 1 <= price <= int_max ->
  perShareCost f price <> 0 /\ perShareCost f price <> -1.
Proof.
  intros Hf Hp. unfold perShareCost.
  pose proof (share_fee_bounds price f ltac:(lia) Hf) as Hb.
  set (fee := Double.to_int (Double.mul (Double.of_Z price) f)) in *.
  unfold int_max in *.
  destruct (Z_le_gt_dec (price + fee) (2 ^ 31 - 1)) as [Le|Gt].
  - rewrite to_int_id by (unfold in_int, int_min, int_max; lia). lia.
  - rewrite to_int_wrapped by (unfold int_max; lia). lia.
Qed.

(** C4: a run of the engine appends to the equity history of every
    strategy exactly one snapshot per tick, in tick order, the first tick
    included: the total value of its ledger at the tick's price.  After
    the run the history has grown by the number of price ticks, so a
    strategy that starts with an empty history ends with one entry per
    tick.  The run reaches its end on every series of positive prices
    when the fee rates lie between 0 and 1 (the only operation that can
    stop it is the division by the per-share cost). *)
Theorem runBattle_equity (e : t) :
  (Forall (fun price => 1 <= price <= int_max) (priceHistory e) ->
   Forall (fun s => unit_rate (feeRateOf s)) (strategies e) ->
   exists e', runBattle e = Some e') /\
  (forall e', runBattle e = Some e' ->
     priceHistory e' = priceHistory e /\
     Forall2
       (fun s s' =>
          exists snaps,
            recorded s 0 (getPriceAt (priceHistory e) 0) (priceHistory e)
                     snaps s' /\
            equityHistory (ledger s') = equityHistory (ledger s) ++ snaps /\
            length snaps = length (priceHistory e) /\
            (equityHistory (ledger s) = [] ->
             length (equityHistory (ledger s')) = length (priceHistory e)))
       (strategies e) (strategies e')).
Proof.
  unfold runBattle. cbv zeta. rewrite ticks_all. split.
  - intros Hp Hf.
    assert (H : Forall (tradable (priceHistory e)) (strategies e)).
    { rewrite Forall_forall in *. intros s Hs. unfold tradable.
      apply Forall_forall. intros price Hin.
      apply positive_price_tradable; auto. }
    destruct (priceHistory e) as [|p0 rest] eqn:Ep; [now exists e|].
    cbn [length].
    pose proof (replay_defined (p0 :: rest) 0 (getPriceAt (p0 :: rest) 0)
                  (strategies e) H) as Hr.
    destruct (replay (p0 :: rest) 0 (getPriceAt (p0 :: rest) 0) (strategies e));
      [eexists; reflexivity|congruence].
  - intros e' H. destruct (priceHistory e) as [|p0 rest] eqn:Ep.
    + cbn [length] in H. injection H as <-. split; [assumption|].
      induction (strategies e) as [|s l IH]; constructor; auto.
      exists []. rewrite app_nil_r.
      split; [constructor|]. split; [reflexivity|]. split; [reflexivity|].
      intros ->. reflexivity.
    + cbn [length] in H.
      destruct (replay (p0 :: rest) 0 (getPriceAt (p0 :: rest) 0) (strategies e))
        as [ss|] eqn:Er; [|discriminate].
      injection H as <-. cbn [priceHistory strategies]. split; [reflexivity|].
      rewrite onFinish_id. apply replay_recorded in Er.
      induction Er as [|s s' l l' [snaps Hr] _ IH]; constructor; auto.
      exists snaps. destruct (recorded_history _ _ _ _ _ _ Hr) as [H1 H2].
      repeat split; auto.
      intros Hnil. rewrite H1, Hnil. simpl. assumption.
Qed.

(** The sample run of [main]: thirty prices, the three strategies with the
    default configuration. *)
Definition sample_prices : list Z :=
  [70000; 71000; 69500; 68000; 65000; 62000; 58000; 55000; 53000; 50000;
   48000; 49000; 51000; 52000; 54000; 56000; 58000; 60000; 62000; 64000;
   65000; 67000; 68000; 70000; 72000; 74000; 75000; 76000; 78000; 80000].

Definition sample_engine : t :=
  let cfg := defaultBacktestConfig in
  let e := new sample_prices cfg in
  let e := addStrategy e
             (PanicSell (PanicSellStrategy.new (initialCash cfg)
                           (panicThreshold cfg) (feeRate cfg))) in
  let e := addStrategy e
             (DCA (DCAStrategy.new (initialCash cfg) (dcaDropRate cfg)
                     (dcaInterval cfg) (dcaBuyRatio cfg) (feeRate cfg))) in
  addStrategy e
    (Hold (HoldStrategy.new (initialCash cfg) (holdBuyRatio cfg) (feeRate cfg))).

Example sample_run :
  option_map
    (fun e => map (fun r => (finalEquity r, rBuyCount r, rSellCount r,
                             finalShares r, rAvgPrice r)) (results e))
    (runBattle sample_engine) =
  Some [(8861190, 1, 1, 0, 0);
        (12696633, 9, 0, 148, 61767);
        (10709255, 1, 0, 71, 70000)] /\
  option_map
    (fun e => map (fun s => length (equityHistory (ledger s))) (strategies e))
    (runBattle sample_engine) = Some [30; 30; 30]%nat.
Proof. vm_compute. split; reflexivity. Qed.

End RunFacts.

(** ** The reports a run builds can be ranked *)

Module ReportFacts.

Import Machine BacktestEngine RankingFacts.

(** Rounding a negative number mirrors rounding its opposite. *)
Lemma binary_round_aux_opp (m e : Z) (l : location) :
  binary_round_aux 53 1024 true m e l =
  SFopp (binary_round_aux 53 1024 false m e l).
Proof.
  unfold binary_round_aux.
  destruct (shr_fexp 53 1024 m e l) as [mrs' e'].
  destruct (shr_fexp 53 1024 _ e' loc_Exact) as [mrs'' e''].
  destruct (shr_m mrs'') as [|p|p]; try reflexivity.
  destruct (e'' <=? _); reflexivity.
Qed.

Lemma of_Z_opp (p : positive) :
  Double.of_Z (Zneg p) = SFopp (Double.of_Z (Zpos p)).
Proof.
  unfold Double.of_Z, Double.prec, Double.emax, binary_normalize, binary_round.
  destruct (shl_align p 0 _) as [mz ez]. apply binary_round_aux_opp.
Qed.

(** A non-zero [long] converts to a non-zero finite double. *)
Lemma of_Z_finite (n : Z) :
  n <> 0 -> - 2 ^ 64 < n < 2 ^ 64 ->
  exists s m e, Double.of_Z n = S754_finite s m e /\ valid (S754_finite s m e).
Proof.
  intros Hn Hr. destruct n as [|p|p]; [contradiction| |].
  - destruct (of_Z_pos_finite (Zpos p) ltac:(lia)) as (m & e & E & Hv & _).
    exists false, m, e. split; assumption.
  - destruct (of_Z_pos_finite (Zpos p) ltac:(lia)) as (m & e & E & Hv & _).
    exists true, m, e. rewrite of_Z_opp, E. cbn [SFopp negb].
    split; [reflexivity|]. apply valid_finite. now apply valid_finite in Hv.
Qed.

(** A return computed on a non-zero initial cash is a number. *)
Lemma return_is_number (d c : Z) :
  in_long d -> in_long c -> c <> 0 ->
  Double.mul (Double.div (Double.of_Z d) (Double.of_Z c)) (Double.of_Z 100)
  <> S754_nan.
Proof.
  unfold in_long, long_min, long_max. intros Hd Hc Hz.
  destruct (of_Z_finite c Hz ltac:(lia)) as (sc & mc & ec & -> & Hvc).
  rewrite of_Z_100. unfold hundred.
  assert (Hvh : valid (S754_finite false 7036874417766400 (-46))) by reflexivity.
  destruct (Z.eq_dec d 0) as [->|Hdz].
  { change (Double.of_Z 0) with (S754_zero false). cbn. discriminate. }
  destruct (of_Z_finite d Hdz ltac:(lia)) as (sd & md & ed & -> & Hvd).
  destruct (div_finite_props sd sc md mc ed ec Hvd Hvc) as (Hv & Hs & _).
  destruct (Double.div _ _) as [s|s| |s m e]; try discriminate;
    [contradiction|].
  destruct (mul_finite_props s false m 7036874417766400 e (-46) Hv Hvh)
    as (_ & Hs' & _).
  intros E. rewrite E in Hs'. exact Hs'.
Qed.

Lemma buildReport_comparable (cfg : BacktestConfig) (s : Strategy)
    (lastPrice : Z) :
  in_long (initialCash cfg) -> initialCash cfg <> 0 ->
  comparable (buildReport cfg s lastPrice).
Proof.
  intros Hc Hz. unfold comparable, buildReport. cbn [totalReturn].
  apply return_is_number; try assumption.
  - apply to_long_range.
Qed.

(** Whatever a run of an engine with a non-zero initial cash reports can
    be ranked: the ranking is a stable descending sort of it. *)
Corollary runBattle_reports_ranked (e e' : t) :
  results e = [] ->
  in_long (initialCash (config e)) -> initialCash (config e) <> 0 ->
  runBattle e = Some e' ->
  Permutation (results e') (BacktestReport.ranked (results e')) /\
  StronglySorted geR (BacktestReport.ranked (results e')).
Proof.
  intros Hr Hc Hz H.
  assert (Hall : Forall comparable (results e')).
  { unfold runBattle in H. cbv zeta in H.
    destruct (length (priceHistory e)); [injection H as <-; rewrite Hr; constructor|].
    destruct (ticks _ _ _ _ _) as [ss|]; [|discriminate].
    injection H as <-. cbn [results]. rewrite Hr. cbn [app].
    apply Forall_forall. intros r Hin. apply in_map_iff in Hin as (s & <- & _).
    now apply buildReport_comparable. }
  split; [rewrite ranked_passes; apply passes_perm|].
  now apply ranked_sorted.
Qed.

End ReportFacts.

(** * More on the strategies, the engine and the report *)

(** ** [PanicSellStrategy]: a purchase that is refused *)

Module RefusedPurchaseFacts.

Import Machine PanicSellStrategy.

(** A panic seller that is marked as having bought and holds what it
    started with. *)
Definition idle (initCash : Z) (p : t) : Prop :=
  hasBought p = true /\
  cash (base p) = initCash /\ shares (base p) = 0 /\
  buyCount (base p) = 0 /\ sellCount (base p) = 0.

Lemma idle_tick (initCash : Z) (p p' : t) (idx price : Z) (rate : double) :
  idle initCash p -> onPrice p idx price rate = Some p' -> idle initCash p'.
Proof.
  intros (Hb & Hc & Hs & Hbc & Hsc) H. unfold onPrice, trade in H.
  rewrite Hb, Hs in H. cbn in H. injection H as <-.
  unfold idle. cbn. auto.
Qed.

(** X1: the purchase flag is set by the attempt, not by the purchase.  When
    the first tick of a panic seller computes a positive quantity but
    [buy] refuses it (the fee on the whole order exceeds the fee per share
    times the quantity), the strategy is marked as having bought; it then
    never trades: after any further ticks it still holds its starting
    cash and no shares, and both counters are 0. *)
Theorem panic_refused_purchase (initCash : Z) (threshold fee : double)
    (idx price : Z) (rate : double) (p1 p : t) :
  onPrice (new initCash threshold fee) idx price rate = Some p1 ->
  hasBought p1 = true ->
  buyCount (base p1) = 0 ->
  PanicSellFacts.reachable p1 p ->
  hasBought p = true /\
  cash (base p) = initCash /\ shares (base p) = 0 /\
  buyCount (base p) = 0 /\ sellCount (base p) = 0.
Proof.
  intros H1 Hb Hc R.
  assert (Hi : idle initCash p1).
  { unfold onPrice, trade in H1. cbn [hasBought new base negb andb] in H1.
    cbn [cash shares avgPrice newTradingStrategy feeRate stopLossRate] in H1.
    destruct (initCash >=? price).
    - destruct (long_div _ _) as [q|]; [|discriminate].
      destruct (to_int q >? 0).
      + injection H1 as <-. cbn [base hasBought] in *.
        cbn [recordEquity buyCount] in Hc.
        destruct (PanicSellFacts.buy_counts
                    (newTradingStrategy "쫄보 (Panic Seller)" initCash)
                    price (to_int q) fee) as [E | [E _]].
        * unfold idle. cbn [base hasBought]. rewrite E. cbn. auto.
        * rewrite E in Hc. discriminate.
      + injection H1 as <-. discriminate.
    - cbn in H1. injection H1 as <-. discriminate. }
  clear H1 Hb Hc.
  induction R as [|q idx' price' rate' q' R IH H]; [exact Hi|].
  exact (idle_tick _ _ _ _ _ _ IH H).
Qed.

(** With the default fee rate, a first price of 70000 and a starting cash
    of 142 times 70010, the quantity is 142 and the order is refused. *)
Definition refused_first_tick : t :=
  Eval vm_compute in
    match onPrice (new 9941420 DEFAULT_PANIC_THRESHOLD DEFAULT_FEE_RATE)
            0 70000 Double.zero with
    | Some p1 => p1
    | None => new 9941420 DEFAULT_PANIC_THRESHOLD DEFAULT_FEE_RATE
    end.

Definition refused_second_tick : t :=
  Eval vm_compute in
    match onPrice refused_first_tick 1 71000
            (BacktestEngine.changeRate 1 71000 70000) with
    | Some p2 => p2
    | None => refused_first_tick
    end.

Lemma panic_refused_purchase_witness :
  hasBought refused_second_tick = true /\
  cash (base refused_second_tick) = 9941420 /\
  shares (base refused_second_tick) = 0 /\
  buyCount (base refused_second_tick) = 0 /\
  sellCount (base refused_second_tick) = 0.
Proof.
  apply (panic_refused_purchase 9941420 DEFAULT_PANIC_THRESHOLD
           DEFAULT_FEE_RATE 0 70000 Double.zero refused_first_tick).
  - vm_compute. reflexivity.
  - reflexivity.
  - reflexivity.
  - eapply PanicSellFacts.reach_tick
      with (idx := 1) (price := 71000)
           (rate := BacktestEngine.changeRate 1 71000 70000).
    + apply PanicSellFacts.reach_init.
    + vm_compute. reflexivity.
Defined.

End RefusedPurchaseFacts.

(** ** [HoldStrategy] *)

Module HoldFacts.

Import Machine HoldStrategy.

(** The states a holder can be in. *)
Inductive reachable (init : t) : t -> Prop :=
| reach_init : reachable init init
| reach_tick h idx price rate h' :
    reachable init h -> onPrice h idx price rate = Some h' ->
    reachable init h'.

Definition buys_once (initCash : Z) (h : t) : Prop :=
  let s := base h in
  sellCount s = 0 /\
  0 <= buyCount s <= 1 /\
  (hasBought h = false ->
   buyCount s = 0 /\ shares s = 0 /\ cash s = initCash).

Lemma trade_buys_once (initCash : Z) (h h' : t) (price : Z) :
  buys_once initCash h -> trade h price = Some h' -> buys_once initCash h'.
Proof.
  unfold buys_once, trade. intros (Hs & Hb & Hnb) H.
  destruct (negb (hasBought h) && (cash (base h) >=? price)) eqn:Eg.
  - apply andb_prop in Eg as [Enb _]. apply negb_true_iff in Enb.
    destruct (Hnb Enb) as (B0 & Sh0 & C0).
    destruct (long_div _ _) as [q|]; [|discriminate].
    destruct (to_int q >? 0).
    + injection H as <-. cbn [base hasBought].
      destruct (PanicSellFacts.buy_counts (base h) price (to_int q)
                  (feeRate h)) as [E | [E1 E2]].
      * rewrite E. repeat split; try discriminate; lia.
      * rewrite E1, E2, B0, Hs. change (to_int (0 + 1)) with 1.
        repeat split; try discriminate; lia.
    + injection H as <-. auto.
  - injection H as <-. auto.
Qed.

Lemma reachable_buys_once (initCash : Z) (init h : t) :
  buys_once initCash init -> reachable init h -> buys_once initCash h.
Proof.
  intros Hi R. induction R as [|h idx price rate h' R IH H]; [assumption|].
  unfold onPrice in H.
  destruct (trade h price) as [q|] eqn:Et; [|discriminate].
  injection H as <-.
  exact (trade_buys_once _ _ _ _ IH Et).
Qed.

(** X2: the holder buys once and never sells.  In every state a holder
    reaches, whatever the prices, the sell counter is 0 and the buy
    counter is at most 1; until the purchase it holds its starting cash
    and no shares; and from the purchase on a tick changes nothing but
    the equity history, to which it appends the value at the tick's
    price. *)
Theorem hold_buys_once (initCash : Z) (ratio fee : double) (h : t) :
  reachable (new initCash ratio fee) h ->
  sellCount (base h) = 0 /\
  0 <= buyCount (base h) <= 1 /\
  (hasBought h = false ->
   buyCount (base h) = 0 /\ shares (base h) = 0 /\
   cash (base h) = initCash) /\
  (hasBought h = true ->
   forall idx price rate,
     onPrice h idx price rate =
       Some (mk (recordEquity (base h) price) (initialBuyRatio h)
               (feeRate h) true)).
Proof.
  intros R.
  assert (Hi : buys_once initCash (new initCash ratio fee)).
  { unfold buys_once. cbn. repeat split; lia. }
  destruct (reachable_buys_once _ _ _ Hi R) as (Hs & Hb & Hnb).
  repeat split; try assumption; try lia; try (now apply Hnb).
  intros Hb1 idx price rate. unfold onPrice, trade. rewrite Hb1.
  cbn [negb andb]. now rewrite Hb1.
Qed.

Definition after_purchase : t :=
  Eval vm_compute in
    match onPrice (new 10000000 DEFAULT_HOLD_BUY_RATIO DEFAULT_FEE_RATE)
            0 70000 Double.zero with
    | Some h1 => h1
    | None => new 10000000 DEFAULT_HOLD_BUY_RATIO DEFAULT_FEE_RATE
    end.

Lemma hold_buys_once_witness :
  sellCount (base after_purchase) = 0 /\
  0 <= buyCount (base after_purchase) <= 1 /\
  (hasBought after_purchase = false ->
   buyCount (base after_purchase) = 0 /\ shares (base after_purchase) = 0 /\
   cash (base after_purchase) = 10000000) /\
  (hasBought after_purchase = true ->
   forall idx price rate,
     onPrice after_purchase idx price rate =
       Some (mk (recordEquity (base after_purchase) price)
               (initialBuyRatio after_purchase) (feeRate after_purchase)
               true)).
Proof.
  apply (hold_buys_once 10000000 DEFAULT_HOLD_BUY_RATIO DEFAULT_FEE_RATE).
  eapply reach_tick with (idx := 0) (price := 70000) (rate := Double.zero).
  - apply reach_init.
  - vm_compute. reflexivity.
Defined.

End HoldFacts.

(** ** Rates in percent *)

Section PercentFacts.

Import Machine.

(** [(double)a / b * 100.0], the shape of every rate the program computes
    from two integers. *)
Definition percent (a b : Z) : double :=
  Double.mul (Double.div (Double.of_Z a) (Double.of_Z b)) (Double.of_Z 100).

(** A non-zero [long] converts to a finite double of its sign, of
    magnitude between 1 and 2^64. *)
Lemma of_Z_signed (n : Z) :
  n <> 0 -> - 2 ^ 64 < n < 2 ^ 64 ->
  exists m e,
    Double.of_Z n = S754_finite (n <? 0) m e /\
    valid (S754_finite (n <? 0) m e) /\
    (1 <= F2R (Zpos m) e <= bpow 64)%R.
Proof.
  intros Hn Hr. destruct n as [|p|p]; [contradiction| |].
  - destruct (of_Z_pos_finite (Zpos p) ltac:(lia)) as (m & e & E & Hv & Hb).
    exists m, e. cbn [Z.ltb Z.compare]. auto.
  - destruct (of_Z_pos_finite (Zpos p) ltac:(lia)) as (m & e & E & Hv & Hb).
    exists m, e. rewrite ReportFacts.of_Z_opp, E. cbn [SFopp negb Z.ltb Z.compare].
    split; [reflexivity|]. split; [|exact Hb].
    apply valid_finite. now apply valid_finite in Hv.
Qed.

(** A finite double that is not zero, with its sign. *)
Definition signed (s : bool) (z : double) : Prop :=
  exists m e, z = S754_finite s m e /\ valid z.

(** The quotient of two non-zero [long]s is a finite non-zero double with
    the sign of the quotient. *)
Lemma quotient_signed (a b : Z) :
  a <> 0 -> b <> 0 -> - 2 ^ 64 < a < 2 ^ 64 -> - 2 ^ 64 < b < 2 ^ 64 ->
  exists m e,
    Double.div (Double.of_Z a) (Double.of_Z b)
      = S754_finite (xorb (a <? 0) (b <? 0)) m e /\
    valid (S754_finite (xorb (a <? 0) (b <? 0)) m e) /\
    (F2R (Zpos m) e <= bpow 64)%R.
Proof.
  intros Ha Hb Hra Hrb.
  destruct (of_Z_signed a Ha Hra) as (ma & ea & -> & Hva & Ha1 & Ha2).
  destruct (of_Z_signed b Hb Hrb) as (mb & eb & -> & Hvb & Hb1 & Hb2).
  destruct (div_finite_props (a <? 0) (b <? 0) ma mb ea eb Hva Hvb)
    as (Hv & Hs & Hup & Hlo).
  set (A := F2R (Zpos ma) ea) in *. set (B := F2R (Zpos mb) eb) in *.
  pose proof (bpow_gt_0 64) as H64.
  assert (HB : (0 < B)%R) by lra.
  assert (Hq : (A / B * B = A)%R) by (field; lra).
  destruct (representable_pow 64 ltac:(lia)) as [R64 E64].
  destruct (representable_pow (-64) ltac:(lia)) as [Rm64 Em64].
  assert (Hinv : (bpow (-64) * bpow 64 = 1)%R).
  { rewrite <- bpow_plus. apply bpow_0. }
  pose proof (bpow_gt_0 (-64)) as Hm64.
  destruct (Hup _ _ R64) as [Hf Hbu].
  { rewrite E64. nra. }
  pose proof (Hlo _ _ Rm64) as Hbl. rewrite Em64 in Hbl.
  specialize (Hbl ltac:(nra) Hf). rewrite E64 in Hbu.
  destruct (Double.div _ _) as [s|s| |s m e]; try discriminate.
  { cbn [Bmag] in Hbl. lra. }
  cbn [has_sign] in Hs. subst s. cbn [Bmag] in *.
  exists m, e. auto.
Qed.

(** A hundred times a finite non-zero double of magnitude at most 2^64
    is a finite non-zero double of the same sign. *)
Lemma hundredfold_signed (s : bool) (m : positive) (e : Z) :
  valid (S754_finite s m e) -> (F2R (Zpos m) e <= bpow 64)%R ->
  signed s (Double.mul (S754_finite s m e) (Double.of_Z 100)).
Proof.
  intros Hv Hb. rewrite of_Z_100. unfold hundred.
  assert (Hvh : valid (S754_finite false 7036874417766400 (-46)))
    by reflexivity.
  destruct (mul_finite_props s false m 7036874417766400 e (-46) Hv Hvh)
    as (Hv2 & Hs2 & Hup2 & Hlo2).
  rewrite hundred_value in *.
  pose proof (bpow_gt_0 64) as H64.
  assert (Hpos : (0 < F2R (Zpos m) e)%R).
  { unfold F2R. pose proof (bpow_gt_0 e).
    assert (0 < IZR (Zpos m))%R by (apply IZR_lt; lia). nra. }
  destruct (representable_pow 71 ltac:(lia)) as [R71 E71].
  assert (H71 : (bpow 71 = bpow 64 * 128)%R).
  { replace 71 with (64 + 7) by lia. rewrite bpow_plus. f_equal.
    rewrite bpow_IZR by lia. reflexivity. }
  destruct (Hup2 _ _ R71) as [Hf2 _].
  { rewrite E71, H71. nra. }
  assert (Hrep : representable (Zpos m) e).
  { apply (valid_representable s); [exact Hv|].
    apply Rle_lt_trans with (bpow 64); [exact Hb | apply bpow_lt; lia]. }
  pose proof (Hlo2 _ _ Hrep ltac:(nra) Hf2) as Hbl2.
  rewrite xorb_false_r in Hs2.
  destruct (Double.mul _ _) as [s'|s'| |s' m2 e2]; try discriminate.
  { cbn [Bmag] in Hbl2. lra. }
  cbn [has_sign] in Hs2. subst s'. exists m2, e2. split; [reflexivity|exact Hv2].
Qed.

Lemma percent_signed (a b : Z) :
  a <> 0 -> b <> 0 -> - 2 ^ 64 < a < 2 ^ 64 -> - 2 ^ 64 < b < 2 ^ 64 ->
  signed (xorb (a <? 0) (b <? 0)) (percent a b).
Proof.
  intros Ha Hb Hra Hrb. unfold percent.
  destruct (quotient_signed a b Ha Hb Hra Hrb) as (m & e & -> & Hv & Hle).
  now apply hundredfold_signed.
Qed.

Lemma percent_zero (b : Z) :
  b <> 0 -> - 2 ^ 64 < b < 2 ^ 64 ->
  exists s, percent 0 b = S754_zero s.
Proof.
  intros Hb Hr. unfold percent.
  destruct (of_Z_signed b Hb Hr) as (mb & eb & -> & _).
  change (Double.of_Z 0) with (S754_zero false). cbn.
  destruct (b <? 0); eexists; reflexivity.
Qed.

(** The sign of a rate on a positive base is the sign of the change. *)
Lemma percent_sign (a b : Z) :
  0 < b < 2 ^ 64 -> - 2 ^ 64 < a < 2 ^ 64 ->
  Double.ltb Double.zero (percent a b) = (0 <? a) /\
  Double.ltb (percent a b) Double.zero = (a <? 0) /\
  percent a b <> S754_nan.
Proof.
  intros Hb Ha.
  destruct (Z.eq_dec a 0) as [-> | Hnz].
  - destruct (percent_zero b ltac:(lia) ltac:(lia)) as [s ->].
    repeat split; discriminate || reflexivity.
  - destruct (percent_signed a b Hnz ltac:(lia) Ha ltac:(lia))
      as (m & e & -> & _).
    destruct (Z.ltb_spec b 0); [lia|]. rewrite xorb_false_r.
    destruct (Z.ltb_spec a 0), (Z.ltb_spec 0 a); try lia;
      repeat split; discriminate || reflexivity.
Qed.

End PercentFacts.

(** ** [DCAStrategy]: between two purchases *)

Module DCAWaitFacts.

Import Machine DCAStrategy.

(** A quotient of a non-negative by a positive integer is not below a
    negative number. *)
Lemma rise_not_below (a b : Z) (m : positive) (e : Z) :
  0 <= a < 2 ^ 64 -> 0 < b < 2 ^ 64 ->
  Double.leb (Double.div (Double.of_Z a) (Double.of_Z b))
             (S754_finite true m e) = false.
Proof.
  intros Ha Hb.
  destruct (of_Z_signed b ltac:(lia) ltac:(lia)) as (mb & eb & Eb & Hvb & _).
  destruct (Z.ltb_spec b 0); [lia|]. rewrite Eb.
  destruct (Z.eq_dec a 0) as [-> | Hnz]; [reflexivity|].
  destruct (of_Z_signed a Hnz ltac:(lia)) as (ma & ea & Ea & Hva & _).
  destruct (Z.ltb_spec a 0); [lia|]. rewrite Ea.
  destruct (div_finite_props false false ma mb ea eb Hva Hvb) as (_ & Hs & _).
  destruct (Double.div _ _) as [s|s| |s m' e']; cbn in Hs; try contradiction;
    subst s; reflexivity.
Qed.

(** X3: the coach waits.  After a purchase, while fewer ticks than the
    interval have passed and the price is not below the price of the last
    purchase, a DCA strategy with a negative drop rate does not buy: the
    tick only records the equity. *)
Theorem dca_waits (d : t) (idx price : Z) (rate : double) (m : positive)
    (e : Z) :
  dcaDropRate d = S754_finite true m e ->
  in_int idx -> in_int price ->
  0 <= lastBuyIndex d <= idx ->
  idx - lastBuyIndex d < dcaInterval d ->
  0 < lastBuyPrice d <= price ->
  onPrice d idx price rate = Some (with_base d (recordEquity (base d) price)).
Proof.
  intros Hdrop Hi Hp Hl Hint Hlast.
  assert (Hsb : shouldBuy d idx price = false).
  { unfold shouldBuy.
    destruct (Z.ltb_spec (lastBuyIndex d) 0); [lia|]. cbn [andb].
    destruct (cash (base d) >=? price); [|reflexivity].
    rewrite (to_int_id idx Hi).
    unfold in_int, int_min, int_max in *.
    rewrite (to_int_id (idx - lastBuyIndex d))
      by (unfold in_int, int_min, int_max; lia).
    destruct (Z.geb_spec (idx - lastBuyIndex d) (dcaInterval d)); [lia|].
    cbn [orb].
    rewrite (to_int_id (price - lastBuyPrice d))
      by (unfold in_int, int_min, int_max; lia).
    rewrite Hdrop, rise_not_below by lia. apply andb_false_r. }
  unfold onPrice, trade. now rewrite Hsb.
Qed.

(** The default coach after its first purchase, at tick 0 and price
    70000. *)
Definition after_first_buy : t :=
  Eval vm_compute in
    match onPrice (new DEFAULT_INITIAL_CASH DEFAULT_DCA_DROP_RATE
                     DEFAULT_DCA_INTERVAL DEFAULT_DCA_BUY_RATIO
                     DEFAULT_FEE_RATE) 0 70000 Double.zero with
    | Some d1 => d1
    | None => new DEFAULT_INITIAL_CASH DEFAULT_DCA_DROP_RATE
                DEFAULT_DCA_INTERVAL DEFAULT_DCA_BUY_RATIO DEFAULT_FEE_RATE
    end.

Lemma dca_waits_witness :
  onPrice after_first_buy 1 71000 (BacktestEngine.changeRate 1 71000 70000)
  = Some (with_base after_first_buy
            (recordEquity (base after_first_buy) 71000)).
Proof.
  eapply (dca_waits after_first_buy 1 71000).
  - reflexivity.
  - vm_compute. split; discriminate.
  - vm_compute. split; discriminate.
  - vm_compute. split; discriminate.
  - reflexivity.
  - vm_compute. split; [reflexivity | discriminate].
Defined.

End DCAWaitFacts.

(** ** [runBattle]: the reports *)

Module ReportContentFacts.

Import Machine BacktestEngine.

Lemma buy_name (s : TradingStrategy) (price qty : Z) (f : double) :
  name (buy s price qty f) = name s.
Proof. unfold buy. now destruct (_ && _). Qed.

Lemma sellAll_name (s : TradingStrategy) (price : Z) (f : double) :
  name (sellAll s price f) = name s.
Proof. unfold sellAll. now destruct (_ >? _). Qed.

Lemma onPrice_name (s s' : Strategy) (i price : Z) (rate : double) :
  onPrice s i price rate = Some s' -> name (ledger s') = name (ledger s).
Proof.
  destruct s as [p|d|h]; cbn [onPrice].
  - unfold PanicSellStrategy.onPrice, PanicSellStrategy.trade.
    destruct (negb _ && _).
    + destruct (long_div _ _) as [q|]; [|discriminate].
      destruct (to_int q >? 0); intros [= <-]; cbn; [apply buy_name | reflexivity].
    + destruct (_ && _); [destruct (Double.leb _ _)|]; intros [= <-]; cbn;
        [apply sellAll_name | reflexivity | reflexivity].
  - unfold DCAStrategy.onPrice, DCAStrategy.trade, DCAStrategy.buyQty.
    destruct (DCAStrategy.shouldBuy d i price).
    + destruct (long_div _ _) as [q|]; [|discriminate].
      destruct (to_int q >? 0); intros [= <-]; cbn; [apply buy_name | reflexivity].
    + intros [= <-]. reflexivity.
  - unfold HoldStrategy.onPrice, HoldStrategy.trade.
    destruct (negb _ && _).
    + destruct (long_div _ _) as [q|]; [|discriminate].
      destruct (to_int q >? 0); intros [= <-]; cbn; [apply buy_name | reflexivity].
    + intros [= <-]. reflexivity.
Qed.

Lemma recorded_name (s s' : Strategy) (i prev : Z) (prices snaps : list Z) :
  EngineFacts.recorded s i prev prices snaps s' ->
  name (ledger s') = name (ledger s).
Proof.
  induction 1 as [|s i prev price rest s1 snaps s2 H R IH]; [reflexivity|].
  rewrite IH. eapply onPrice_name. eassumption.
Qed.

(** The last snapshot of a run over at least one price is the value at
    the last price. *)
Lemma recorded_last (s s' : Strategy) (i prev : Z) (prices snaps : list Z) :
  EngineFacts.recorded s i prev prices snaps s' ->
  prices <> [] ->
  last snaps 0 = getTotalValue (ledger s') (last prices (-1)).
Proof.
  induction 1 as [|s i prev price rest s1 snaps s2 H R IH]; [congruence|].
  intros _. destruct rest as [|p rest].
  - inversion R; subst. reflexivity.
  - specialize (IH ltac:(discriminate)).
    inversion R; subst. cbn [last] in *. exact IH.
Qed.

Lemma getPriceAt_last (prices : list Z) :
  getPriceAt prices (length prices - 1) = last prices (-1).
Proof.
  unfold getPriceAt. destruct prices as [|p l] using rev_ind; [reflexivity|].
  rewrite last_last, length_app. cbn [length].
  rewrite app_nth2 by lia.
  now replace (length l + 1 - 1 - length l)%nat with 0%nat by lia.
Qed.

(** What a report says of the strategy [s'] it was built from, at the end
    of a run over [prices]. *)
Definition reports (cfg : BacktestConfig) (s' : Strategy)
    (r : StrategyReport) : Prop :=
  strategyName r = name (ledger s') /\
  rInitialCash r = initialCash cfg /\
  finalEquity r = last (equityHistory (ledger s')) 0 /\
  maxDrawdown r = calculateMDD (equityHistory (ledger s')) /\
  (rBuyCount r, rSellCount r) = (buyCount (ledger s'), sellCount (ledger s')) /\
  (finalShares r, rAvgPrice r) = (shares (ledger s'), avgPrice (ledger s')).

Lemma run_reports (e e' : t) :
  runBattle e = Some e' ->
  (priceHistory e = [] -> e' = e) /\
  (priceHistory e <> [] ->
   exists rs,
     results e' = results e ++ rs /\
     Forall2 (fun s s' => name (ledger s') = name (ledger s))
       (strategies e) (strategies e') /\
     Forall2 (reports (config e)) (strategies e') rs).
Proof.
  intros H. unfold runBattle in H. cbv zeta in H.
  destruct (priceHistory e) as [|p0 rest] eqn:Ep.
  { cbn in H. injection H as <-. split; [reflexivity | congruence]. }
  split; [discriminate|]. intros _.
  rewrite <- Ep in H.
  assert (Hlen : length (priceHistory e) = S (length rest))
    by (rewrite Ep; reflexivity).
  rewrite Hlen in H. rewrite <- Hlen in H.
  rewrite EngineFacts.ticks_all in H.
  destruct (EngineFacts.replay _ _ _ _) as [ss|] eqn:Er; [|discriminate].
  injection H as <-. cbn [results strategies config].
  rewrite EngineFacts.onFinish_id.
  pose proof (EngineFacts.replay_recorded _ _ _ _ _ Er) as Hrec.
  eexists. split; [reflexivity|]. split.
  - eapply Forall2_impl; [|exact Hrec].
    intros s s' (snaps & R). eapply recorded_name. eassumption.
  - clear Er. induction Hrec as [|s s' l l' (snaps & R) Hrest IH]; cbn [map];
      constructor; [|exact IH].
    unfold reports, buildReport. cbn.
    destruct (EngineFacts.recorded_history _ _ _ _ _ _ R) as [Hh Hl].
    repeat split.
    rewrite getPriceAt_last, Hh.
    assert (Hne : priceHistory e <> []) by (rewrite Ep; discriminate).
    rewrite <- (recorded_last _ _ _ _ _ _ R Hne).
    destruct snaps as [|x snaps] using rev_ind.
    + rewrite Ep in Hl. discriminate.
    + now rewrite app_assoc, !last_last.
Qed.

(** X4: the reports of a run.  On an empty price history [runBattle] does
    nothing.  Otherwise it appends one report for each strategy, in the
    order the strategies were added: the report carries the name the
    strategy was constructed with and the initial cash of the
    configuration, its final equity is the last snapshot of the
    strategy's equity history, and its drawdown is computed from that
    history. *)
Theorem runBattle_reports (e e' : t) :
  runBattle e = Some e' ->
  (priceHistory e = [] -> e' = e) /\
  (priceHistory e <> [] ->
   exists rs,
     results e' = results e ++ rs /\
     Forall2 (fun s s' => name (ledger s') = name (ledger s))
       (strategies e) (strategies e') /\
     Forall2 (reports (config e)) (strategies e') rs).
Proof. exact (run_reports e e'). Qed.

Lemma runBattle_reports_witness :
  let e := RunFacts.sample_engine in
  exists e',
    runBattle e = Some e' /\
    (priceHistory e = [] -> e' = e) /\
    (priceHistory e <> [] ->
     exists rs,
       results e' = results e ++ rs /\
       Forall2 (fun s s' => name (ledger s') = name (ledger s))
         (strategies e) (strategies e') /\
       Forall2 (reports (config e)) (strategies e') rs).
Proof.
  cbv zeta.
  destruct (runBattle RunFacts.sample_engine) as [e'|] eqn:E.
  - exists e'. split; [reflexivity|].
    exact (runBattle_reports RunFacts.sample_engine e' E).
  - exfalso. revert E. vm_compute. discriminate.
Defined.

End ReportContentFacts.

(** ** [buildReport]: the total return *)

Module ReturnFacts.

Import Machine BacktestEngine.

(** X5: the sign of the total return.  For a positive initial cash, the
    total return of a report is above zero exactly when the final equity
    is above the initial cash, below zero exactly when it is below, and
    never NaN. *)
Theorem totalReturn_sign (cfg : BacktestConfig) (s : Strategy)
    (lastPrice : Z) :
  0 < initialCash cfg <= long_max ->
  in_long (getTotalValue (ledger s) lastPrice - initialCash cfg) ->
  let r := buildReport cfg s lastPrice in
  Double.ltb Double.zero (totalReturn r) = (rInitialCash r <? finalEquity r) /\
  Double.ltb (totalReturn r) Double.zero = (finalEquity r <? rInitialCash r) /\
  totalReturn r <> S754_nan.
Proof.
  intros Hc Hd. unfold buildReport.
  cbn [totalReturn rInitialCash finalEquity].
  rewrite (to_long_id _ Hd).
  unfold in_long, long_min, long_max in *.
  destruct (percent_sign (getTotalValue (ledger s) lastPrice - initialCash cfg)
              (initialCash cfg) ltac:(lia) ltac:(lia)) as (H1 & H2 & H3).
  unfold percent in *. rewrite H1, H2.
  repeat split; [| |exact H3].
  - destruct (Z.ltb_spec 0 (getTotalValue (ledger s) lastPrice - initialCash cfg)),
      (Z.ltb_spec (initialCash cfg) (getTotalValue (ledger s) lastPrice));
      lia || reflexivity.
  - destruct (Z.ltb_spec (getTotalValue (ledger s) lastPrice - initialCash cfg) 0),
      (Z.ltb_spec (getTotalValue (ledger s) lastPrice) (initialCash cfg));
      lia || reflexivity.
Qed.

Lemma totalReturn_sign_witness :
  let r := buildReport defaultBacktestConfig
             (Hold HoldFacts.after_purchase) 80000 in
  Double.ltb Double.zero (totalReturn r) = (rInitialCash r <? finalEquity r) /\
  Double.ltb (totalReturn r) Double.zero = (finalEquity r <? rInitialCash r) /\
  totalReturn r <> S754_nan.
Proof.
  apply (totalReturn_sign defaultBacktestConfig
           (Hold HoldFacts.after_purchase) 80000).
  - vm_compute. split; [reflexivity | discriminate].
  - vm_compute. split; discriminate.
Defined.

End ReturnFacts.

(** ** [calculateMDD]: every drop shows *)

Module DropFacts.

Import Machine BacktestEngine DrawdownFacts.

Lemma unit_signed_or_zero (z : double) :
  unit_double z -> signed false z \/ z = S754_zero false.
Proof.
  intros (Hv & Hs & Hf & _).
  destruct z as [s|s| |s m e]; try discriminate; cbn in Hs; subst s.
  - now right.
  - left. exists m, e. now split.
Qed.

(** The larger of a maximum and a positive drawdown is positive. *)
Lemma max_signed (maxDD dd : double) :
  unit_double maxDD -> unit_double dd ->
  signed false maxDD \/ signed false dd ->
  signed false (if Double.ltb maxDD dd then dd else maxDD).
Proof.
  intros Hm Hd H.
  destruct (unit_signed_or_zero _ Hm) as [Sm | ->];
    destruct (unit_signed_or_zero _ Hd) as [Sd | ->].
  - now destruct (Double.ltb maxDD dd).
  - destruct Sm as (m & e & -> & Hv). cbn. exists m, e. now split.
  - destruct Sd as (m & e & -> & Hv). cbn. exists m, e. now split.
  - destruct H as [(m & e & E & _) | (m & e & E & _)]; discriminate.
Qed.

Lemma mdd_step_signed (peak equity : Z) (maxDD : double) :
  equity_ok peak -> unit_double maxDD -> equity_ok equity ->
  signed false maxDD \/ equity < peak ->
  signed false (snd (mdd_step (peak, maxDD) equity)).
Proof.
  unfold equity_ok, long_max. intros Hp Hm He H. unfold mdd_step.
  set (peak' := if equity >? peak then equity else peak).
  assert (Hp' : equity <= peak' /\ 0 <= peak' <= 2 ^ 63 - 1 /\
                (equity < peak -> peak' = peak)).
  { unfold peak'. destruct (Z.gtb_spec equity peak); lia. }
  destruct (Z.gtb_spec peak' 0) as [Hpos | Hz]; cbn [fst snd].
  - rewrite to_long_id by (unfold in_long, long_min, long_max; lia).
    apply max_signed; [assumption | apply div_unit; lia |].
    destruct H as [H | H]; [now left | right].
    destruct (quotient_signed (peak' - equity) peak')
      as (m & e & E & Hv & _); try lia.
    rewrite E.
    destruct (Z.ltb_spec (peak' - equity) 0); [lia|].
    destruct (Z.ltb_spec peak' 0); [lia|].
    exists m, e. now split.
  - destruct H as [H | H]; [assumption | lia].
Qed.

(** A later value below the peak so far, or below an earlier value. *)
Definition drops (peak : Z) (history : list Z) : Prop :=
  exists pre lo post,
    history = pre ++ lo :: post /\
    (lo < peak \/ exists hi, In hi pre /\ lo < hi).

Lemma mdd_fold_signed (history : list Z) :
  forall (peak : Z) (maxDD : double),
    equity_ok peak -> unit_double maxDD -> Forall equity_ok history ->
    signed false maxDD \/ drops peak history ->
    signed false (snd (fold_left mdd_step history (peak, maxDD))).
Proof.
  induction history as [|e rest IH]; intros peak maxDD Hp Hm Hh H.
  - destruct H as [H | (pre & lo & post & E & _)]; [exact H|].
    destruct pre; discriminate.
  - inversion Hh as [|? ? He Hrest]; subst. cbn [fold_left].
    destruct (mdd_step_unit peak e maxDD Hp Hm He) as [Hp' Hm'].
    pose proof (mdd_step_signed peak e maxDD Hp Hm He) as Hstep.
    assert (Hpk : fst (mdd_step (peak, maxDD) e) = Z.max peak e).
    { unfold mdd_step. destruct (Z.gtb_spec e peak);
        destruct (_ >? 0); cbn [fst]; lia. }
    destruct (mdd_step (peak, maxDD) e) as [peak' maxDD'].
    cbn [fst snd] in *. apply IH; try assumption.
    destruct H as [H | (pre & lo & post & E & Hd)]; [left; apply Hstep; now left|].
    destruct pre as [|x pre]; cbn [app] in E; injection E as <- ->.
    + destruct Hd as [Hd | (hi & [] & _)]. left. apply Hstep. now right.
    + right. exists pre, lo, post. split; [reflexivity|].
      destruct Hd as [Hd | (hi & [<- | Hin] & Hd)].
      * left. lia.
      * left. lia.
      * right. now exists hi.
Qed.

(** X6: every drop shows in the drawdown.  On an equity series whose
    values are not negative, [calculateMDD] is above zero as soon as some
    value is below an earlier one. *)
Theorem calculateMDD_drop (pre mid post : list Z) (hi lo : Z) :
  Forall equity_ok (pre ++ hi :: mid ++ lo :: post) ->
  lo < hi ->
  Double.ltb Double.zero (calculateMDD (pre ++ hi :: mid ++ lo :: post))
    = true.
Proof.
  intros Hh Hlt. unfold calculateMDD.
  destruct (pre ++ hi :: mid ++ lo :: post) as [|e0 rest] eqn:E.
  { destruct pre; discriminate. }
  rewrite <- E in *. clear E e0 rest.
  assert (Hs : signed false
                 (snd (fold_left mdd_step (pre ++ hi :: mid ++ lo :: post)
                         (0, Double.zero)))).
  { apply mdd_fold_signed; try assumption.
    - unfold equity_ok, long_max. lia.
    - apply unit_double_zero.
    - right. exists (pre ++ hi :: mid), lo, post. split.
      + now rewrite <- app_assoc.
      + right. exists hi. split; [|exact Hlt].
        apply in_or_app. right. now left. }
  assert (Hu : unit_double
                 (snd (fold_left mdd_step (pre ++ hi :: mid ++ lo :: post)
                         (0, Double.zero)))).
  { apply mdd_fold_unit; try assumption.
    - unfold equity_ok, long_max. lia.
    - apply unit_double_zero. }
  destruct Hs as (m & e & Ez & Hv). rewrite Ez in *.
  destruct Hu as (_ & _ & _ & Hb). cbn [Bmag] in Hb.
  destruct (hundredfold_signed false m e Hv) as (m2 & e2 & -> & _).
  - apply Rle_trans with 1%R; [exact Hb|].
    rewrite <- bpow_0. apply bpow_le. lia.
  - reflexivity.
Qed.

Lemma calculateMDD_drop_witness :
  Double.ltb Double.zero (calculateMDD ([] ++ 1000 :: [] ++ 900 :: [900]))
    = true.
Proof.
  apply (calculateMDD_drop [] [] [900] 1000 900).
  - repeat constructor; vm_compute; discriminate.
  - reflexivity.
Defined.

End DropFacts.

(** ** [runBattle]: the drawdowns it reports *)

Module RunDrawdownFacts.

Import Machine BacktestEngine DrawdownFacts InvariantFacts.

Ltac numerals :=
  change (2 ^ 22) with 4194304 in *;
  change (2 ^ 31) with 2147483648 in *;
  change (2 ^ 53) with 9007199254740992 in *;
  change (2 ^ 63) with 9223372036854775808 in *.

Lemma buy_cash_in_long (s : TradingStrategy) (price qty : Z) (f : double) :
  in_long (cash s) -> in_long (cash (buy s price qty f)).
Proof.
  intros H. unfold buy. destruct (_ && _); [|exact H].
  cbn [cash]. apply to_long_range.
Qed.

Lemma sellAll_cash_in_long (s : TradingStrategy) (price : Z) (f : double) :
  in_long (cash s) -> in_long (cash (sellAll s price f)).
Proof.
  intros H. unfold sellAll. destruct (_ >? _); [|exact H].
  cbn [cash]. apply to_long_range.
Qed.

Lemma onPrice_cash_in_long (s s' : Strategy) (i price : Z) (rate : double) :
  in_long (cash (ledger s)) -> onPrice s i price rate = Some s' ->
  in_long (cash (ledger s')).
Proof.
  intros Hc. destruct s as [p|d|h]; cbn [onPrice ledger] in *.
  - unfold PanicSellStrategy.onPrice, PanicSellStrategy.trade.
    destruct (negb _ && _).
    + destruct (long_div _ _) as [q|]; [|discriminate].
      destruct (to_int q >? 0); intros [= <-]; cbn;
        [now apply buy_cash_in_long | exact Hc].
    + destruct (_ && _); [destruct (Double.leb _ _)|]; intros [= <-]; cbn;
        [now apply sellAll_cash_in_long | exact Hc | exact Hc].
  - unfold DCAStrategy.onPrice, DCAStrategy.trade, DCAStrategy.buyQty.
    destruct (DCAStrategy.shouldBuy d i price).
    + destruct (long_div _ _) as [q|]; [|discriminate].
      destruct (to_int q >? 0); intros [= <-]; cbn;
        [now apply buy_cash_in_long | exact Hc].
    + intros [= <-]. exact Hc.
  - unfold HoldStrategy.onPrice, HoldStrategy.trade.
    destruct (negb _ && _).
    + destruct (long_div _ _) as [q|]; [|discriminate].
      destruct (to_int q >? 0); intros [= <-]; cbn;
        [now apply buy_cash_in_long | exact Hc].
    + intros [= <-]. exact Hc.
Qed.

(** The value of a ledger that keeps the invariant, at an admissible
    price, is not negative. *)
Lemma value_ok (C : Z) (f : double) (s : Strategy) (price : Z) :
  0 <= C <= int_max -> strategy_inv C f s -> in_long (cash (ledger s)) ->
  price_ok price -> equity_ok (getTotalValue (ledger s) price).
Proof.
  unfold int_max, price_ok, equity_ok, in_long, long_max, long_min.
  intros HC Hi Hc Hp. unfold getTotalValue. numerals.
  assert (Hcase : within C (ledger s) \/
                  shares (ledger s) = 0 /\ 0 <= cash (ledger s)).
  { destruct s as [p|d|h]; cbn [strategy_inv ledger] in *.
    - destruct Hi as (_ & _ & [Hw | (_ & Hs & Hc0 & _)]); [now left|].
      right. now split.
    - left. apply Hi.
    - left. apply Hi. }
  destruct Hcase as [(H1 & H2 & H3 & _) | (Hs & Hc0)].
  - assert (0 <= shares (ledger s) * price <= 9007199254740992).
    { split; [apply Z.mul_nonneg_nonneg; lia|].
      change 9007199254740992 with (2147483648 * 4194304).
      apply Z.mul_le_mono_nonneg; lia. }
    rewrite (to_long_id (shares (ledger s) * price))
      by (unfold in_long, long_min, long_max; numerals; lia).
    rewrite to_long_id by (unfold in_long, long_min, long_max; numerals; lia).
    lia.
  - rewrite Hs, Z.mul_0_l.
    change (to_long 0) with 0. rewrite Z.add_0_r.
    rewrite to_long_id by (unfold in_long, long_min, long_max; numerals; lia).
    lia.
Qed.

Lemma recorded_equity_ok (C : Z) (f : double) (s s' : Strategy) (i prev : Z)
    (prices snaps : list Z) :
  0 <= C <= int_max -> unit_rate f ->
  EngineFacts.recorded s i prev prices snaps s' ->
  strategy_inv C f s -> in_long (cash (ledger s)) ->
  Forall price_ok prices ->
  Forall equity_ok snaps.
Proof.
  intros HC Hf R.
  induction R as [|s i prev price rest s1 snaps s2 H R IH];
    intros Hi Hc Hp; [constructor|].
  inversion Hp as [|? ? Hp1 Hrest]; subst.
  destruct (onPrice_inv C f HC Hf s i price
              (changeRate i price prev) Hi Hp1) as (s1' & E & Hi1).
  rewrite H in E. injection E as <-.
  pose proof (onPrice_cash_in_long _ _ _ _ _ Hc H) as Hc1.
  constructor; [now apply value_ok with C f | now apply IH].
Qed.

Lemma fresh_history (C : Z) (f : double) (s : Strategy) :
  fresh C f s ->
  equityHistory (ledger s) = [] /\ cash (ledger s) = C /\
  EngineFacts.feeRateOf s = f.
Proof. intros [th | dr iv r | r]; cbn; auto. Qed.

(** X7: the drawdowns of a run.  With a starting cash between 0 and
    [2^31 - 1], prices between 1 and [2^22] and a fee rate between 0 and
    1, a run of freshly constructed strategies completes, no equity it
    records is negative, and the maximum drawdown in each of its reports
    is between 0 and 100. *)
Theorem runBattle_drawdown (C : Z) (f : double) (e : t) :
  0 <= C <= int_max -> unit_rate f ->
  Forall (fresh C f) (strategies e) ->
  Forall price_ok (priceHistory e) ->
  exists e' rs,
    runBattle e = Some e' /\
    results e' = results e ++ rs /\
    Forall (fun s' => Forall (fun v => 0 <= v) (equityHistory (ledger s')))
      (strategies e') /\
    Forall (fun r =>
              Double.leb Double.zero (maxDrawdown r) = true /\
              Double.leb (maxDrawdown r) (Double.of_Z 100) = true /\
              0 <= finalEquity r) rs.
Proof.
  intros HC Hf Hfresh Hp.
  destruct (priceHistory e) as [|p0 rest] eqn:Ep.
  { exists e, []. unfold runBattle. rewrite Ep. cbn.
    split; [reflexivity|]. split; [now rewrite app_nil_r|].
    split; [|constructor].
    eapply Forall_impl; [|exact Hfresh]. intros s Hs.
    destruct (fresh_history _ _ _ Hs) as (-> & _). constructor. }
  assert (Hne : priceHistory e <> []) by (rewrite Ep; discriminate).
  assert (Htr : Forall (RunFacts.tradable (priceHistory e)) (strategies e)).
  { rewrite Ep. apply Forall_forall. intros s Hs.
    rewrite Forall_forall in Hfresh.
    destruct (fresh_history _ _ _ (Hfresh s Hs)) as (_ & _ & Ef).
    unfold RunFacts.tradable. rewrite Ef.
    eapply Forall_impl; [|exact Hp]. intros price Hpr.
    apply RunFacts.positive_price_tradable; [exact Hf|].
    unfold price_ok, int_max in *. numerals. lia. }
  pose proof (RunFacts.replay_defined (priceHistory e) 0
                (getPriceAt (priceHistory e) 0) (strategies e) Htr) as Hdef.
  destruct (EngineFacts.replay (priceHistory e) 0
              (getPriceAt (priceHistory e) 0) (strategies e))
    as [ss|] eqn:Er; [|congruence]. clear Hdef.
  assert (Hrun : runBattle e =
            Some (mk (priceHistory e) (config e) ss
                    (results e ++
                     map (fun s => buildReport (config e) s
                                     (getPriceAt (priceHistory e)
                                        (length (priceHistory e) - 1)))
                       ss))).
  { unfold runBattle. cbv zeta. rewrite EngineFacts.ticks_all, Er.
    rewrite EngineFacts.onFinish_id. rewrite Ep. reflexivity. }
  rewrite <- Ep in Hp.
  eexists _, _. split; [exact Hrun|]. cbn [results strategies].
  split; [reflexivity|].
  pose proof (EngineFacts.replay_recorded _ _ _ _ _ Er) as Hrec.
  assert (Hok : Forall (fun s' => Forall equity_ok (equityHistory (ledger s')) /\
                                  equityHistory (ledger s') <> [] /\
                                  0 <= getTotalValue (ledger s')
                                         (getPriceAt (priceHistory e)
                                            (length (priceHistory e) - 1)))
                  ss).
  { clear Er Hrun Htr. induction Hrec as [|s s' l l' (snaps & R) _ IH];
      [constructor|].
    inversion Hfresh as [|? ? Hs Hl]; subst.
    constructor; [|now apply IH].
    destruct (fresh_history _ _ _ Hs) as (Eh & Ec & _).
    destruct (EngineFacts.recorded_history _ _ _ _ _ _ R) as [Hh Hlen].
    rewrite Hh, Eh. cbn [app].
    assert (Hsn : Forall equity_ok snaps).
    { apply (recorded_equity_ok C f _ _ _ _ _ _ HC Hf R);
        [apply fresh_inv; [lia | exact Hs] | | exact Hp].
      rewrite Ec. unfold in_long, long_min, long_max, int_max in *.
      numerals. lia. }
    assert (Hsne : snaps <> []).
    { intros ->. rewrite Ep in Hlen. discriminate. }
    split; [exact Hsn|]. split; [exact Hsne|].
    rewrite ReportContentFacts.getPriceAt_last.
    rewrite <- (ReportContentFacts.recorded_last _ _ _ _ _ _ R Hne).
    destruct snaps as [|x snaps _] using rev_ind; [congruence|].
    rewrite last_last. apply Forall_app in Hsn as [_ Hx].
    inversion Hx; subst. unfold equity_ok in *. lia. }
  split.
  - eapply Forall_impl; [|exact Hok]. intros s' [H _].
    eapply Forall_impl; [|exact H]. unfold equity_ok. intros v Hv. lia.
  - apply Forall_forall. intros r Hin.
    apply in_map_iff in Hin as (s' & <- & Hs').
    rewrite Forall_forall in Hok. destruct (Hok s' Hs') as (Heq & Hnn & Hfin).
    cbn [maxDrawdown finalEquity buildReport].
    assert (Hmdd : Double.leb Double.zero (calculateMDD (equityHistory (ledger s'))) = true /\
                   Double.leb (calculateMDD (equityHistory (ledger s')))
                     (Double.of_Z 100) = true).
    { unfold calculateMDD.
      destruct (equityHistory (ledger s')) as [|v vs] eqn:Ev; [congruence|].
      apply mul_100. apply mdd_fold_unit; try assumption.
      - unfold equity_ok, long_max. lia.
      - apply unit_double_zero. }
    destruct Hmdd as [H1 H2]. repeat split; assumption.
Qed.

Lemma runBattle_drawdown_witness :
  let e := new [100; 90; 81] defaultBacktestConfig in
  let e := addStrategy e
             (PanicSell (PanicSellStrategy.new 1000 DEFAULT_PANIC_THRESHOLD
                           DEFAULT_FEE_RATE)) in
  exists e' rs,
    runBattle e = Some e' /\
    results e' = results e ++ rs /\
    Forall (fun s' => Forall (fun v => 0 <= v) (equityHistory (ledger s')))
      (strategies e') /\
    Forall (fun r =>
              Double.leb Double.zero (maxDrawdown r) = true /\
              Double.leb (maxDrawdown r) (Double.of_Z 100) = true /\
              0 <= finalEquity r) rs.
Proof.
  apply (runBattle_drawdown 1000 DEFAULT_FEE_RATE).
  - vm_compute. split; discriminate.
  - vm_compute. auto.
  - repeat constructor.
  - repeat constructor; vm_compute; discriminate.
Defined.

End RunDrawdownFacts.

(** ** [printRanking]: the winner *)

Module WinnerFacts.

Import Machine RankingFacts.

Lemma ranked_head (results : list StrategyReport) :
  Forall comparable results -> results <> [] ->
  exists r rest,
    BacktestReport.ranked results = r :: rest /\
    In r results /\
    Forall (geR r) results /\
    hd_error (filter (same_return r) results) = Some r.
Proof.
  intros Hc Hne.
  pose proof (passes_perm (length results) 0 results) as Hp.
  pose proof (ranked_sorted results Hc) as Hs.
  rewrite ranked_passes in *.
  destruct (passes (length results) 0 results) as [|r rest] eqn:E.
  { apply Permutation_sym, Permutation_nil in Hp. contradiction. }
  exists r, rest. split; [reflexivity|].
  assert (Hin : In r results).
  { apply (Permutation_in r (Permutation_sym Hp)). now left. }
  split; [exact Hin|]. split.
  - apply (Permutation_Forall (Permutation_sym Hp)).
    constructor; [apply geR_refl|]. now inversion Hs.
  - assert (Hcr : comparable r)
      by (rewrite Forall_forall in Hc; now apply Hc).
    rewrite <- (passes_stable r (length results) 0 results)
      by (now constructor).
    rewrite E. cbn [filter]. unfold same_return at 1.
    rewrite (geR_refl r). reflexivity.
Qed.

(** X8: the winner [printRanking] announces.  For reports whose returns
    are numbers, the name announced is that of a report whose return no
    other report exceeds, and among the reports with that same return it
    is the one that comes first in the results; for no report at all
    there is no element 0 to announce. *)
Theorem winner_best (results : list StrategyReport) :
  Forall comparable results ->
  (results = [] -> BacktestReport.winner results = None) /\
  (results <> [] ->
   exists r,
     In r results /\
     BacktestReport.winner results = Some (strategyName r) /\
     (forall r', In r' results ->
        Double.ltb (totalReturn r) (totalReturn r') = false) /\
     hd_error (filter (same_return r) results) = Some r).
Proof.
  intros Hc. split.
  - intros ->. reflexivity.
  - intros Hne.
    destruct (ranked_head results Hc Hne) as (r & rest & E & Hin & Hge & Hhd).
    exists r. split; [exact Hin|]. split.
    + unfold BacktestReport.winner. now rewrite E.
    + split; [|exact Hhd]. intros r' Hr'.
      rewrite Forall_forall in Hge. exact (Hge r' Hr').
Qed.

Lemma winner_best_witness :
  (sample_reports = [] -> BacktestReport.winner sample_reports = None) /\
  (sample_reports <> [] ->
   exists r,
     In r sample_reports /\
     BacktestReport.winner sample_reports = Some (strategyName r) /\
     (forall r', In r' sample_reports ->
        Double.ltb (totalReturn r) (totalReturn r') = false) /\
     hd_error (filter (same_return r) sample_reports) = Some r).
Proof.
  apply (winner_best sample_reports).
  repeat constructor; discriminate.
Defined.

Lemma Forall2_In_r {A B : Type} (R : A -> B -> Prop) (l : list A)
    (l' : list B) (y : B) :
  Forall2 R l l' -> In y l' -> exists x, In x l /\ R x y.
Proof.
  induction 1 as [|a b l l' Hab _ IH]; [intros []|].
  intros [<- | Hin].
  - exists a. split; [now left | exact Hab].
  - destruct (IH Hin) as (x & Hx & Hr). exists x. split; [now right | exact Hr].
Qed.

Lemma runBattle_comparable (e e' : BacktestEngine.t) :
  BacktestEngine.results e = [] ->
  in_long (initialCash (BacktestEngine.config e)) ->
  initialCash (BacktestEngine.config e) <> 0 ->
  BacktestEngine.runBattle e = Some e' ->
  Forall comparable (BacktestEngine.results e').
Proof.
  intros Hr Hc Hz H. unfold BacktestEngine.runBattle in H. cbv zeta in H.
  destruct (length (BacktestEngine.priceHistory e));
    [injection H as <-; rewrite Hr; constructor|].
  destruct (BacktestEngine.ticks _ _ _ _ _) as [ss|]; [|discriminate].
  injection H as <-. cbn [BacktestEngine.results]. rewrite Hr. cbn [app].
  apply Forall_forall. intros r Hin. apply in_map_iff in Hin as (s & <- & _).
  now apply ReportFacts.buildReport_comparable.
Qed.

(** X9: the ranking of a run.  For an engine with a non-zero initial cash
    and no earlier results, the reports of a completed run over at least
    one price and one strategy can be ranked: the winner announced is a
    strategy of the engine whose total return no other strategy's
    exceeds. *)
Theorem runBattle_winner (e e' : BacktestEngine.t) :
  BacktestEngine.results e = [] ->
  BacktestEngine.priceHistory e <> [] ->
  BacktestEngine.strategies e <> [] ->
  in_long (initialCash (BacktestEngine.config e)) ->
  initialCash (BacktestEngine.config e) <> 0 ->
  BacktestEngine.runBattle e = Some e' ->
  exists s r,
    In s (BacktestEngine.strategies e) /\
    In r (BacktestEngine.results e') /\
    strategyName r = name (ledger s) /\
    BacktestReport.winner (BacktestEngine.results e') = Some (name (ledger s)) /\
    (forall r', In r' (BacktestEngine.results e') ->
       Double.ltb (totalReturn r) (totalReturn r') = false).
Proof.
  intros Hr Hp Hss Hc Hz H.
  pose proof (runBattle_comparable e e' Hr Hc Hz H) as Hcomp.
  destruct (ReportContentFacts.run_reports e e' H) as [_ Hrep].
  destruct (Hrep Hp) as (rs & Ers & Hnames & Hreports). clear Hrep.
  rewrite Hr in Ers. cbn [app] in Ers.
  assert (Hne : BacktestEngine.results e' <> []).
  { rewrite Ers. intros ->. inversion Hreports as [E1 E2|]; subst.
    rewrite <- E1 in Hnames. inversion Hnames; subst. congruence. }
  destruct (ranked_head _ Hcomp Hne) as (r & rest & E & Hin & Hge & _).
  rewrite Ers in Hin.
  destruct (Forall2_In_r _ _ _ _ Hreports Hin) as (s' & Hs' & (Hn & _)).
  destruct (Forall2_In_r _ _ _ _ Hnames Hs') as (s & Hs & Hn').
  exists s, r. rewrite <- Ers in Hin.
  split; [exact Hs|]. split; [exact Hin|].
  split; [congruence|]. split.
  - unfold BacktestReport.winner. rewrite E. cbn. congruence.
  - intros r' Hr'. rewrite Forall_forall in Hge. exact (Hge r' Hr').
Qed.

Lemma runBattle_winner_witness :
  let e := RunFacts.sample_engine in
  exists e' s r,
    BacktestEngine.runBattle e = Some e' /\
    In s (BacktestEngine.strategies e) /\
    In r (BacktestEngine.results e') /\
    strategyName r = name (ledger s) /\
    BacktestReport.winner (BacktestEngine.results e') = Some (name (ledger s)) /\
    (forall r', In r' (BacktestEngine.results e') ->
       Double.ltb (totalReturn r) (totalReturn r') = false).
Proof.
  cbv zeta.
  destruct (BacktestEngine.runBattle RunFacts.sample_engine) as [e'|] eqn:E.
  - destruct (runBattle_winner RunFacts.sample_engine e') as (s & r & Hw).
    + reflexivity.
    + discriminate.
    + discriminate.
    + vm_compute. split; discriminate.
    + discriminate.
    + exact E.
    + exists e', s, r. split; [reflexivity | exact Hw].
  - exfalso. revert E. vm_compute. discriminate.
Defined.

End WinnerFacts.

(** * The basic trading system *)

(** ** [Stock]: the price history *)

Module StockFacts.

(** X10: a price added with [addPriceHistory] is read back by [getPriceAt]
    at the index the history had as its length, the prices before it are
    still read at their indices, and every index from the length on reads
    -1. *)
Theorem price_history_lookup (s : Stock.t) (price : Z) (idx : nat) :
  Stock.getHistoryLength (Stock.addPriceHistory s price) =
    S (Stock.getHistoryLength s) /\
  Stock.getPriceAt (Stock.addPriceHistory s price) idx =
    (if (idx <? Stock.getHistoryLength s)%nat then Stock.getPriceAt s idx
     else if (idx =? Stock.getHistoryLength s)%nat then price else -1) /\
  ((Stock.getHistoryLength s <= idx)%nat -> Stock.getPriceAt s idx = -1).
Proof.
  unfold Stock.getHistoryLength, Stock.getPriceAt, getPriceAt.
  cbn [Stock.priceHistory Stock.addPriceHistory].
  split; [rewrite length_app; cbn; lia|].
  split.
  - destruct (Nat.ltb_spec idx (length (Stock.priceHistory s))) as [Hlt | Hge].
    + now rewrite app_nth1.
    + rewrite app_nth2 by lia.
      destruct (Nat.eqb_spec idx (length (Stock.priceHistory s))) as [-> | Hne].
      * now rewrite Nat.sub_diag.
      * destruct (idx - length (Stock.priceHistory s))%nat as [|[|k]] eqn:E;
          [lia | reflexivity | reflexivity].
  - intros Hge. now apply nth_overflow.
Qed.

End StockFacts.

(** ** [Stock]: the change rate *)

Module ChangeRateFacts.

Import Machine.

(** X11: the sign of [getChangeRate].  For a stock whose previous price is
    positive, the rate is above zero exactly when the current price is
    above the previous one and below zero exactly when it is below; it
    is never NaN.  When the previous price is 0 the rate is 0.0, and a
    stock that has just been constructed has a rate of zero. *)
Theorem getChangeRate_sign (s : Stock.t) :
  in_int (Stock.currentPrice s) ->
  in_int (Stock.previousPrice s) ->
  in_int (Stock.currentPrice s - Stock.previousPrice s) ->
  (Stock.previousPrice s = 0 -> Stock.getChangeRate s = Double.zero) /\
  (0 < Stock.previousPrice s ->
   Double.ltb Double.zero (Stock.getChangeRate s)
     = (Stock.previousPrice s <? Stock.currentPrice s) /\
   Double.ltb (Stock.getChangeRate s) Double.zero
     = (Stock.currentPrice s <? Stock.previousPrice s) /\
   Stock.getChangeRate s <> S754_nan).
Proof.
  intros Hc Hp Hd. unfold Stock.getChangeRate. split.
  - intros ->. reflexivity.
  - intros Hpos. destruct (Z.eqb_spec (Stock.previousPrice s) 0); [lia|].
    rewrite (to_int_id _ Hd).
    unfold in_int, int_min, int_max in *.
    destruct (percent_sign (Stock.currentPrice s - Stock.previousPrice s)
                (Stock.previousPrice s) ltac:(lia) ltac:(lia))
      as (H1 & H2 & H3).
    unfold percent in *. rewrite H1, H2.
    repeat split; [| |exact H3].
    + destruct (Z.ltb_spec 0 (Stock.currentPrice s - Stock.previousPrice s)),
        (Z.ltb_spec (Stock.previousPrice s) (Stock.currentPrice s));
        lia || reflexivity.
    + destruct (Z.ltb_spec (Stock.currentPrice s - Stock.previousPrice s) 0),
        (Z.ltb_spec (Stock.currentPrice s) (Stock.previousPrice s));
        lia || reflexivity.
Qed.

Lemma getChangeRate_sign_witness :
  let s := Stock.updatePrice (Stock.new "005930" "Samsung" 70000) 71000 in
  (Stock.previousPrice s = 0 -> Stock.getChangeRate s = Double.zero) /\
  (0 < Stock.previousPrice s ->
   Double.ltb Double.zero (Stock.getChangeRate s)
     = (Stock.previousPrice s <? Stock.currentPrice s) /\
   Double.ltb (Stock.getChangeRate s) Double.zero
     = (Stock.currentPrice s <? Stock.previousPrice s) /\
   Stock.getChangeRate s <> S754_nan).
Proof.
  apply (getChangeRate_sign
           (Stock.updatePrice (Stock.new "005930" "Samsung" 70000) 71000));
    vm_compute; split; discriminate.
Defined.

End ChangeRateFacts.

(** ** [Position]: quantity, average price and total invested *)

Module PositionFacts.

Import Machine.

(** The books of a position are in order: the quantity is not negative
    and the average price is the total invested divided by the quantity,
    rounded down. *)
Definition sound (p : Position.t) : Prop :=
  0 <= Position.quantity p <= int_max /\
  0 <= Position.avgPrice p /\
  Position.avgPrice p * Position.quantity p <= Position.totalInvested p
    <= int_max * Position.quantity p /\
  (0 < Position.quantity p ->
   Position.totalInvested p < (Position.avgPrice p + 1) * Position.quantity p).

Ltac fields :=
  cbn [Position.quantity Position.avgPrice Position.totalInvested
       Position.stock fst snd] in *.

Ltac ranges :=
  unfold sound, in_int, in_long, int_min, int_max, long_min, long_max in *;
  change (2 ^ 31) with 2147483648 in *;
  change (2 ^ 63) with 9223372036854775808 in *.

Lemma sound_avg_max (p : Position.t) :
  sound p -> 0 < Position.quantity p -> Position.avgPrice p <= int_max.
Proof.
  intros (Hq & Ha & Ht & _) Hpos.
  unfold int_max in *. nia.
Qed.

Lemma new_sound (s : ptr) (qty price : Z) :
  0 <= qty <= int_max -> 0 <= price <= int_max ->
  sound (Position.new s qty price).
Proof.
  intros Hq Hp. unfold sound, Position.new. fields.
  assert (Hin : in_long (qty * price)).
  { apply int_mul_in_long; unfold in_int, int_min, int_max in *; lia. }
  destruct (Z.gtb_spec qty 0) as [Hpos | Hz].
  - rewrite (to_long_id _ Hin). ranges. repeat split; try lia; try nia.
  - assert (qty = 0) by lia. subst qty. ranges.
    repeat split; lia.
Qed.

(** X12: buying into a position.  For a position whose books are in order,
    [addQuantity] adds the quantity and the amount paid, and the new
    average price is the new total divided by the new quantity, rounded
    down. *)
Theorem addQuantity_sound (p : Position.t) (qty price : Z) :
  sound p ->
  0 <= qty ->
  Position.quantity p + qty <= int_max ->
  0 <= price <= int_max ->
  let p' := Position.addQuantity p qty price in
  sound p' /\
  Position.stock p' = Position.stock p /\
  Position.quantity p' = Position.quantity p + qty /\
  Position.totalInvested p' = Position.totalInvested p + qty * price /\
  (0 < Position.quantity p' ->
   Position.avgPrice p' = Position.totalInvested p' / Position.quantity p').
Proof.
  intros (Hq & Ha & Ht & Hr) Hqty Hsum Hp.
  assert (Hin : in_long (qty * price)).
  { apply int_mul_in_long; unfold in_int, int_min, int_max in *; lia. }
  assert (HT : 0 <= Position.totalInvested p + qty * price
               <= int_max * (Position.quantity p + qty)).
  { unfold int_max in *. nia. }
  assert (HinT : in_long (Position.totalInvested p + qty * price)).
  { unfold in_long, long_min, long_max, int_max in *. nia. }
  assert (Hinq : in_int (Position.quantity p + qty)).
  { unfold in_int, int_min, int_max in *. lia. }
  unfold Position.addQuantity. cbn zeta.
  rewrite (to_long_id _ Hin), (to_long_id _ HinT), (to_int_id _ Hinq).
  cbn [Position.stock Position.quantity Position.totalInvested
       Position.avgPrice].
  destruct (Z.gtb_spec (Position.quantity p + qty) 0) as [Hpos | Hz].
  - set (T := Position.totalInvested p + qty * price) in *.
    set (n := Position.quantity p + qty) in *.
    rewrite Z.quot_div_nonneg by lia.
    assert (Hdiv : 0 <= T / n <= int_max).
    { split; [apply Z.div_pos; lia|].
      apply Z.div_le_upper_bound; lia. }
    rewrite to_int_id by (unfold in_int, int_min, int_max in *; lia).
    pose proof (Z.mul_div_le T n Hpos).
    pose proof (Z.mul_succ_div_gt T n Hpos).
    unfold sound. fields. fold T n. ranges.
    repeat split; try lia; try nia.
  - assert (Hn : Position.quantity p + qty = 0) by lia.
    unfold sound. fields. rewrite Hn. ranges.
    repeat split; try lia; try nia.
Qed.

Lemma addQuantity_sound_witness :
  let p := Position.new (Some 0%nat) 1 10 in
  let p' := Position.addQuantity p 1 11 in
  sound p' /\
  Position.stock p' = Position.stock p /\
  Position.quantity p' = Position.quantity p + 1 /\
  Position.totalInvested p' = Position.totalInvested p + 1 * 11 /\
  (0 < Position.quantity p' ->
   Position.avgPrice p' = Position.totalInvested p' / Position.quantity p').
Proof.
  apply (addQuantity_sound (Position.new (Some 0%nat) 1 10) 1 11).
  - apply new_sound; unfold int_max; lia.
  - lia.
  - vm_compute. discriminate.
  - unfold int_max; lia.
Defined.

(** X13: selling from a position.  [reduceQuantity] refuses exactly when more
    is asked than is held and then changes nothing; otherwise it takes the
    quantity off, a position sold out is reset to zero, and what is left
    of a position keeps its average price with the total invested rebased
    to quantity times average price. *)
Theorem reduceQuantity_sound (p : Position.t) (qty : Z) :
  sound p ->
  0 <= qty ->
  let r := Position.reduceQuantity p qty in
  sound (snd r) /\
  (Position.quantity p < qty -> r = (false, p)) /\
  (qty <= Position.quantity p ->
   fst r = true /\
   Position.stock (snd r) = Position.stock p /\
   Position.quantity (snd r) = Position.quantity p - qty /\
   Position.totalInvested (snd r) =
     Position.quantity (snd r) * Position.avgPrice (snd r) /\
   (qty < Position.quantity p ->
    Position.avgPrice (snd r) = Position.avgPrice p) /\
   (qty = Position.quantity p -> Position.avgPrice (snd r) = 0)).
Proof.
  intros Hs Hqty. pose proof Hs as (Hq & Ha & Ht & Hr).
  unfold Position.reduceQuantity.
  destruct (Z.gtb_spec qty (Position.quantity p)) as [Hgt | Hle]; cbn zeta.
  - fields. split; [exact Hs|]. split; [reflexivity | lia].
  - assert (Hin : in_int (Position.quantity p - qty)).
    { unfold in_int, int_min, int_max in *. lia. }
    rewrite (to_int_id _ Hin).
    destruct (Z.eqb_spec (Position.quantity p - qty) 0) as [Hz | Hnz].
    + fields. split.
      { unfold sound. fields. ranges. repeat split; lia. }
      split; [lia|]. intros _. repeat split; try lia.
    + assert (Hpos : 0 < Position.quantity p) by lia.
      pose proof (sound_avg_max p Hs Hpos) as Hmax.
      assert (Hin2 : in_long ((Position.quantity p - qty) * Position.avgPrice p)).
      { apply int_mul_in_long; unfold in_int, int_min, int_max in *; lia. }
      rewrite (to_long_id _ Hin2). fields.
      split.
      { unfold sound. fields. ranges. repeat split; try lia; nia. }
      split; [lia|]. intros _. repeat split; try lia.
Qed.

Lemma reduceQuantity_sound_witness :
  let p := Position.new (Some 0%nat) 5 10 in
  let r := Position.reduceQuantity p 2 in
  sound (snd r) /\
  (Position.quantity p < 2 -> r = (false, p)) /\
  (2 <= Position.quantity p ->
   fst r = true /\
   Position.stock (snd r) = Position.stock p /\
   Position.quantity (snd r) = Position.quantity p - 2 /\
   Position.totalInvested (snd r) =
     Position.quantity (snd r) * Position.avgPrice (snd r) /\
   (2 < Position.quantity p ->
    Position.avgPrice (snd r) = Position.avgPrice p) /\
   (2 = Position.quantity p -> Position.avgPrice (snd r) = 0)).
Proof.
  apply (reduceQuantity_sound (Position.new (Some 0%nat) 5 10) 2).
  - apply new_sound; unfold int_max; lia.
  - lia.
Defined.

End PositionFacts.

(** ** [Portfolio]: the map from stock codes to positions *)

Module PortfolioFacts.

Import Machine.

Lemma compare_Eq (a b : string) : String.compare a b = Eq -> String.eqb a b = true.
Proof.
  intros H. apply String.eqb_eq. now apply String.compare_eq_iff.
Qed.

Lemma compare_not_Eq (a b : string) :
  String.compare a b <> Eq -> String.eqb a b = false.
Proof.
  intros H. apply String.eqb_neq. intros ->. apply H.
  now apply (proj2 (OrderedTypeEx.String_as_OT.cmp_eq b b)).
Qed.

Lemma find_insert (code : string) (v : Position.t) (m : Portfolio.t) :
  Portfolio.find code (Portfolio.insert code v m) = Some v.
Proof.
  induction m as [|[k v'] rest IH]; cbn.
  - now rewrite String.eqb_refl.
  - destruct (String.compare code k) eqn:E; cbn.
    + now rewrite String.eqb_refl.
    + now rewrite String.eqb_refl.
    + rewrite compare_not_Eq by congruence. exact IH.
Qed.

Lemma find_insert_other (code code' : string) (v : Position.t)
    (m : Portfolio.t) :
  code' <> code ->
  Portfolio.find code' (Portfolio.insert code v m) = Portfolio.find code' m.
Proof.
  intros Hne. apply String.eqb_neq in Hne.
  induction m as [|[k v'] rest IH]; cbn.
  - now rewrite Hne.
  - destruct (String.compare code k) eqn:E; cbn.
    + apply String.compare_eq_iff in E. subst k. now rewrite Hne.
    + now rewrite Hne.
    + now rewrite IH.
Qed.

Lemma find_update (code : string) (v : Position.t) (m : Portfolio.t) :
  Portfolio.find code (Portfolio.update code v m) =
  option_map (fun _ => v) (Portfolio.find code m).
Proof.
  induction m as [|[k v'] rest IH]; cbn; [reflexivity|].
  destruct (String.eqb code k) eqn:E; cbn; rewrite E; [reflexivity | exact IH].
Qed.

Lemma find_update_other (code code' : string) (v : Position.t)
    (m : Portfolio.t) :
  code' <> code ->
  Portfolio.find code' (Portfolio.update code v m) = Portfolio.find code' m.
Proof.
  intros Hne.
  induction m as [|[k v'] rest IH]; cbn; [reflexivity|].
  destruct (String.eqb code k) eqn:E; cbn.
  - apply String.eqb_eq in E. subst k.
    apply String.eqb_neq in Hne. now rewrite Hne.
  - now rewrite IH.
Qed.

Lemma update_same (code : string) (v : Position.t) (m : Portfolio.t) :
  Portfolio.find code m = Some v -> Portfolio.update code v m = m.
Proof.
  induction m as [|[k v'] rest IH]; cbn; [reflexivity|].
  destruct (String.eqb code k) eqn:E.
  - now intros [= ->].
  - intros H. now rewrite IH.
Qed.

Lemma find_erase (code : string) (m : Portfolio.t) :
  Portfolio.find code (Portfolio.erase code m) = None.
Proof.
  unfold Portfolio.erase.
  induction m as [|[k v'] rest IH]; cbn; [reflexivity|].
  destruct (String.eqb code k) eqn:E; cbn; [exact IH|].
  now rewrite E.
Qed.

Lemma find_erase_other (code code' : string) (m : Portfolio.t) :
  code' <> code ->
  Portfolio.find code' (Portfolio.erase code m) = Portfolio.find code' m.
Proof.
  intros Hne. unfold Portfolio.erase.
  induction m as [|[k v'] rest IH]; cbn; [reflexivity|].
  destruct (String.eqb code k) eqn:E; cbn.
  - apply String.eqb_eq in E. subst k.
    apply String.eqb_neq in Hne. now rewrite Hne.
  - now rewrite IH.
Qed.

(** The keys of a map are in strictly increasing order, as [std::map]
    keeps them; the three operations on the entries preserve it. *)
Definition ordered (m : Portfolio.t) : Prop :=
  StronglySorted (fun a b => String.compare (fst a) (fst b) = Lt) m.

Lemma compare_trans (a b c : string) :
  String.compare a b = Lt -> String.compare b c = Lt ->
  String.compare a c = Lt.
Proof.
  intros H1 H2.
  apply OrderedTypeEx.String_as_OT.cmp_lt.
  apply OrderedTypeEx.String_as_OT.cmp_lt in H1, H2.
  eapply OrderedTypeEx.String_as_OT.lt_trans; eassumption.
Qed.

Lemma compare_Gt (a b : string) :
  String.compare a b = Gt -> String.compare b a = Lt.
Proof.
  intros H. rewrite String.compare_antisym, H. reflexivity.
Qed.

Lemma insert_keys (code : string) (v : Position.t) (m : Portfolio.t)
    (P : string -> Prop) :
  P code -> Forall (fun e => P (fst e)) m ->
  Forall (fun e => P (fst e)) (Portfolio.insert code v m).
Proof.
  intros Hc. induction 1 as [|[k v'] rest Hk Hrest IH]; cbn.
  - now constructor.
  - destruct (String.compare code k); repeat constructor; auto.
Qed.

Lemma insert_ordered (code : string) (v : Position.t) (m : Portfolio.t) :
  ordered m -> ordered (Portfolio.insert code v m).
Proof.
  unfold ordered.
  induction 1 as [|[k v'] rest Hs IH Hall]; cbn.
  - repeat constructor.
  - destruct (String.compare code k) eqn:E.
    + apply String.compare_eq_iff in E. subst k. now constructor.
    + constructor; [now constructor|].
      constructor; [exact E|].
      eapply Forall_impl; [|exact Hall].
      intros e He. cbn in *. eapply compare_trans; eassumption.
    + constructor; [exact IH|].
      apply (insert_keys code v rest
               (fun c => String.compare k c = Lt));
        [now apply compare_Gt | exact Hall].
Qed.

Lemma update_keys (code : string) (v : Position.t) (m : Portfolio.t) :
  map fst (Portfolio.update code v m) = map fst m.
Proof.
  induction m as [|[k v'] rest IH]; cbn; [reflexivity|].
  destruct (String.eqb code k); cbn; [reflexivity | now rewrite IH].
Qed.

Lemma ordered_keys (m m' : Portfolio.t) :
  map fst m' = map fst m -> ordered m -> ordered m'.
Proof.
  unfold ordered. intros Hk Hs. revert m' Hk.
  induction Hs as [|[k v] rest Hs IH Hall]; intros [|[k' v'] rest']; cbn;
    try discriminate; [constructor|].
  intros [= -> Hrest]. constructor; [now apply IH|].
  cbn. rewrite Forall_forall in *. intros e He.
  assert (Hin : In (fst e) (map fst rest)).
  { rewrite <- Hrest. now apply in_map. }
  apply in_map_iff in Hin as (e0 & He0 & Hin). rewrite <- He0.
  now apply (Hall e0).
Qed.

Lemma erase_ordered (code : string) (m : Portfolio.t) :
  ordered m -> ordered (Portfolio.erase code m).
Proof.
  unfold ordered, Portfolio.erase.
  induction 1 as [|[k v'] rest Hs IH Hall]; cbn; [constructor|].
  destruct (negb (String.eqb code k)); [|exact IH].
  constructor; [exact IH|].
  rewrite Forall_forall in *. intros e He.
  apply filter_In in He as [He _]. now apply Hall.
Qed.

Lemma addPosition_ordered (h : list Stock.t) (pf pf' : Portfolio.t) (s : ptr)
    (qty price : Z) :
  ordered pf -> Portfolio.addPosition h pf s qty price = Some pf' ->
  ordered pf'.
Proof.
  intros Ho. unfold Portfolio.addPosition.
  destruct (deref h s) as [st|]; [|discriminate].
  destruct (Portfolio.find (Stock.code st) pf); intros [= <-].
  - eapply ordered_keys; [apply update_keys | exact Ho].
  - now apply insert_ordered.
Qed.

Lemma reducePosition_ordered (pf : Portfolio.t) (code : string) (qty : Z) :
  ordered pf -> ordered (snd (Portfolio.reducePosition pf code qty)).
Proof.
  intros Ho. unfold Portfolio.reducePosition.
  destruct (Portfolio.find code pf) as [pos|]; [|exact Ho].
  destruct (Position.reduceQuantity pos qty) as [result pos'].
  assert (Hu : ordered (Portfolio.update code pos' pf)).
  { eapply ordered_keys; [apply update_keys | exact Ho]. }
  destruct (result && (Position.quantity pos' =? 0)); cbn;
    [now apply erase_ordered | exact Hu].
Qed.

Lemma addPosition_find (h : list Stock.t) (pf : Portfolio.t) (s : ptr)
    (st : Stock.t) (qty price : Z) :
  deref h s = Some st ->
  exists pf',
    Portfolio.addPosition h pf s qty price = Some pf' /\
    Portfolio.hasPosition pf' (Stock.code st) = true /\
    Portfolio.getPosition pf' (Stock.code st) =
      Some (match Portfolio.getPosition pf (Stock.code st) with
            | Some pos => Position.addQuantity pos qty price
            | None => Position.new s qty price
            end) /\
    (forall code, code <> Stock.code st ->
       Portfolio.getPosition pf' code = Portfolio.getPosition pf code /\
       Portfolio.hasPosition pf' code = Portfolio.hasPosition pf code).
Proof.
  intros Hs. unfold Portfolio.addPosition, Portfolio.hasPosition,
    Portfolio.getPosition. rewrite Hs.
  destruct (Portfolio.find (Stock.code st) pf) as [pos|] eqn:Hf;
    eexists; (split; [reflexivity|]).
  - rewrite find_update, Hf. cbn. repeat split; trivial;
      now rewrite find_update_other.
  - rewrite find_insert. repeat split; trivial;
      now rewrite find_insert_other.
Qed.

(** X14: [addPosition] and the lookups.  After a stock has been added the
    portfolio has a position under the stock's code: the one it had, with
    the quantity bought into it, or a new one; the positions under every
    other code are the ones that were there. *)
Theorem addPosition_lookup (h : list Stock.t) (pf : Portfolio.t) (s : ptr)
    (st : Stock.t) (qty price : Z) :
  deref h s = Some st ->
  exists pf',
    Portfolio.addPosition h pf s qty price = Some pf' /\
    Portfolio.hasPosition pf' (Stock.code st) = true /\
    Portfolio.getPosition pf' (Stock.code st) =
      Some (match Portfolio.getPosition pf (Stock.code st) with
            | Some pos => Position.addQuantity pos qty price
            | None => Position.new s qty price
            end) /\
    (forall code, code <> Stock.code st ->
       Portfolio.getPosition pf' code = Portfolio.getPosition pf code /\
       Portfolio.hasPosition pf' code = Portfolio.hasPosition pf code).
Proof. exact (addPosition_find h pf s st qty price). Qed.

Lemma addPosition_lookup_witness :
  let st := Stock.new "005930" "Samsung" 70000 in
  exists pf',
    Portfolio.addPosition [st] Portfolio.empty (Some 0%nat) 10 70000 =
      Some pf' /\
    Portfolio.hasPosition pf' (Stock.code st) = true /\
    Portfolio.getPosition pf' (Stock.code st) =
      Some (match Portfolio.getPosition Portfolio.empty (Stock.code st) with
            | Some pos => Position.addQuantity pos 10 70000
            | None => Position.new (Some 0%nat) 10 70000
            end) /\
    (forall code, code <> Stock.code st ->
       Portfolio.getPosition pf' code =
         Portfolio.getPosition Portfolio.empty code /\
       Portfolio.hasPosition pf' code =
         Portfolio.hasPosition Portfolio.empty code).
Proof.
  exact (addPosition_lookup [Stock.new "005930" "Samsung" 70000]
           Portfolio.empty (Some 0%nat) _ 10 70000 eq_refl).
Defined.

(** X15: [reducePosition].  A code the portfolio does not hold, or a
    quantity above the one held, is refused and the portfolio is not
    changed; a sale of the whole quantity removes the entry, so
    [hasPosition] is then false; a smaller sale leaves the reduced
    position; the other codes are not touched. *)
Theorem reducePosition_lookup (pf : Portfolio.t) (code : string) (qty : Z) :
  let r := Portfolio.reducePosition pf code qty in
  (Portfolio.getPosition pf code = None -> r = (false, pf)) /\
  (forall pos, Portfolio.getPosition pf code = Some pos ->
     (Position.quantity pos < qty -> r = (false, pf)) /\
     (qty <= Position.quantity pos ->
      fst r = true /\
      (to_int (Position.quantity pos - qty) = 0 ->
       Portfolio.hasPosition (snd r) code = false) /\
      (to_int (Position.quantity pos - qty) <> 0 ->
       Portfolio.getPosition (snd r) code =
         Some (snd (Position.reduceQuantity pos qty))))) /\
  (forall code', code' <> code ->
     Portfolio.getPosition (snd r) code' = Portfolio.getPosition pf code').
Proof.
  unfold Portfolio.reducePosition, Portfolio.getPosition,
    Portfolio.hasPosition.
  destruct (Portfolio.find code pf) as [pos|] eqn:Hf.
  2:{ split; [reflexivity|]. split; [discriminate | reflexivity]. }
  split; [discriminate|]. split.
  - intros pos0 [= <-]. unfold Position.reduceQuantity.
    destruct (Z.gtb_spec qty (Position.quantity pos)) as [Hgt | Hle].
    + cbn. rewrite (update_same _ _ _ Hf). split; [reflexivity | lia].
    + split; [lia|]. intros _.
      destruct (Z.eqb_spec (to_int (Position.quantity pos - qty)) 0)
        as [Hz | Hnz]; cbn.
      * split; [reflexivity|]. split; [|congruence].
        intros _. now rewrite find_erase.
      * apply Z.eqb_neq in Hnz. rewrite Hnz. cbn.
        split; [reflexivity|]. split; [apply Z.eqb_neq in Hnz; congruence|].
        intros _. now rewrite find_update, Hf.
  - intros code' Hne.
    destruct (Position.reduceQuantity pos qty) as [result pos'].
    destruct (result && (Position.quantity pos' =? 0)); cbn.
    + rewrite find_erase_other by exact Hne. now apply find_update_other.
    + now apply find_update_other.
Qed.

End PortfolioFacts.

(** ** The heap of stocks *)

Section HeapFacts.

Lemma store_length (h : list Stock.t) (a : nat) (s : Stock.t) :
  length (store h a s) = length h.
Proof.
  unfold store. destruct (nth_error h a) eqn:E; [|reflexivity].
  assert (Hlt : (a < length h)%nat) by (apply nth_error_Some; congruence).
  rewrite length_app, length_firstn. cbn [length]. rewrite length_skipn. lia.
Qed.

Lemma store_same (h : list Stock.t) (a : nat) (s : Stock.t) :
  nth_error h a <> None -> nth_error (store h a s) a = Some s.
Proof.
  intros Hv. unfold store. destruct (nth_error h a) eqn:E; [|congruence].
  assert (Hlt : (a < length h)%nat) by (apply nth_error_Some; congruence).
  rewrite nth_error_app2; rewrite length_firstn; [|lia].
  replace (a - Nat.min a (length h))%nat with 0%nat by lia. reflexivity.
Qed.

Lemma store_other (h : list Stock.t) (a a' : nat) (s : Stock.t) :
  a' <> a -> nth_error (store h a s) a' = nth_error h a'.
Proof.
  intros Hne. unfold store. destruct (nth_error h a) eqn:E; [|reflexivity].
  assert (Hlt : (a < length h)%nat) by (apply nth_error_Some; congruence).
  destruct (Nat.ltb_spec a' a) as [Hl | Hg].
  - rewrite nth_error_app1 by (rewrite length_firstn; lia).
    rewrite nth_error_firstn.
    destruct (Nat.ltb_spec a' a); [reflexivity | lia].
  - rewrite nth_error_app2 by (rewrite length_firstn; lia).
    rewrite length_firstn.
    replace (a' - Nat.min a (length h))%nat with (S (a' - a - 1)) by lia.
    cbn [nth_error]. rewrite nth_error_skipn. f_equal. lia.
Qed.

Lemma deref_newStock (w : World) (c n : string) (p : Z) (q : ptr) :
  deref (heap w) q <> None ->
  deref (heap (snd (newStock w c n p))) q = deref (heap w) q.
Proof.
  destruct q as [a|]; cbn; [|congruence]. intros Hv.
  apply nth_error_app1. now apply nth_error_Some.
Qed.

End HeapFacts.

(** ** [Market]: the listed stocks *)

Module MarketFacts.

Import Machine.

(** Every pointer the market holds points to a stock. *)
Definition listed (h : list Stock.t) (m : Market.t) : Prop :=
  Forall (fun p => deref h p <> None) (Market.stocks m).

Lemma findStock_app (h : list Stock.t) (l l' : list ptr) (code : string) :
  Forall (fun p => deref h p <> None) l ->
  Market.findStock h (l ++ l') code =
  match Market.findStock h l code with
  | Some None => Market.findStock h l' code
  | r => r
  end.
Proof.
  induction 1 as [|p rest Hp Hrest IH]; cbn; [reflexivity|].
  destruct (deref h p) as [st|] eqn:Hd; [|congruence].
  destruct (String.eqb (Stock.code st) code); [|exact IH].
  destruct p; [reflexivity | discriminate].
Qed.

Lemma findStock_defined (h : list Stock.t) (l : list ptr) (code : string) :
  Forall (fun p => deref h p <> None) l ->
  exists r, Market.findStock h l code = Some r.
Proof.
  induction 1 as [|p rest Hp Hrest IH]; cbn; [now eexists|].
  destruct (deref h p) as [st|]; [|congruence].
  destruct (String.eqb (Stock.code st) code); [now eexists | exact IH].
Qed.

Lemma findStock_found (h : list Stock.t) (l : list ptr) (code : string)
    (a : nat) :
  Market.findStock h l code = Some (Some a) ->
  In (Some a) l /\
  exists st, nth_error h a = Some st /\ Stock.code st = code.
Proof.
  induction l as [|p rest IH]; cbn; [discriminate|].
  destruct (deref h p) as [st|] eqn:Hd; [|discriminate].
  destruct (String.eqb (Stock.code st) code) eqn:E.
  - intros [= ->]. split; [now left|]. exists st. split; [exact Hd|].
    now apply String.eqb_eq.
  - intros H. destruct (IH H) as [Hin Hst]. split; [now right | exact Hst].
Qed.

(** The stocks of the list before the one [findStock] returns are stocks
    with another code. *)
Lemma findStock_first (h : list Stock.t) (l : list ptr) (code : string)
    (a : nat) :
  Market.findStock h l code = Some (Some a) ->
  exists pre post st,
    l = pre ++ Some a :: post /\
    nth_error h a = Some st /\ Stock.code st = code /\
    Forall (fun p => exists st0, deref h p = Some st0 /\
                                 Stock.code st0 <> code) pre.
Proof.
  induction l as [|p rest IH]; cbn; [discriminate|].
  destruct (deref h p) as [st|] eqn:Hd; [|discriminate].
  destruct (String.eqb (Stock.code st) code) eqn:E.
  - intros [= ->]. exists [], rest, st. split; [reflexivity|].
    split; [exact Hd|]. split; [now apply String.eqb_eq | constructor].
  - intros H. destruct (IH H) as (pre & post & st' & -> & Hst & Hc & Hpre).
    exists (p :: pre), post, st'. split; [reflexivity|].
    split; [exact Hst|]. split; [exact Hc|].
    constructor; [|exact Hpre]. exists st. split; [exact Hd|].
    now apply String.eqb_neq.
Qed.

(** X16: [getStock] and [addStock].  In a market whose pointers are valid,
    [getStock] returns the first listed stock with the code: the pointer
    it returns is an element of the market's list, it points to a stock
    with the code, and every element before it points to a stock with
    another code; it returns [nullptr] exactly when no listed stock has
    the code.  A stock that is added goes to the end of the list: it
    answers the lookups of its code that nothing answered before and
    changes no other lookup. *)
Theorem getStock_addStock (h : list Stock.t) (m : Market.t) (s : ptr)
    (st : Stock.t) (code : string) :
  listed h m ->
  deref h s = Some st ->
  exists r,
    Market.getStock h m code = Some r /\
    (forall a, r = Some a ->
       exists pre post st',
         Market.stocks m = pre ++ Some a :: post /\
         nth_error h a = Some st' /\ Stock.code st' = code /\
         Forall (fun p => exists st0, deref h p = Some st0 /\
                                      Stock.code st0 <> code) pre) /\
    (r = None <->
       forall p st', In p (Market.stocks m) -> deref h p = Some st' ->
       Stock.code st' <> code) /\
    Market.stocks (Market.addStock m s) = Market.stocks m ++ [s] /\
    Market.getStock h (Market.addStock m s) code =
      Some (match r with
            | Some a => Some a
            | None => if String.eqb (Stock.code st) code then s else None
            end) /\
    listed h (Market.addStock m s).
Proof.
  intros Hl Hs. unfold Market.getStock, Market.addStock, listed in *.
  cbn [Market.stocks].
  destruct (findStock_defined h _ code Hl) as [r Hr]. exists r.
  split; [exact Hr|]. split; [|split; [|split; [|split]]].
  - intros a ->. now apply findStock_first in Hr.
  - split.
    + intros ->. clear Hs. induction Hl as [|p rest Hp Hrest IH];
        [now intros p st' []|].
      cbn in Hr. destruct (deref h p) as [st0|] eqn:Hd; [|congruence].
      destruct (String.eqb (Stock.code st0) code) eqn:E.
      * destruct p; discriminate.
      * intros q st' [<- | Hin] Hq.
        -- rewrite Hd in Hq. injection Hq as <-. now apply String.eqb_neq.
        -- now apply (IH Hr q st').
    + intros Hall. destruct r as [a|]; [|reflexivity]. exfalso.
      destruct (findStock_found _ _ _ _ Hr) as (Hin & st' & Hst' & Hc).
      exact (Hall (Some a) st' Hin Hst' Hc).
  - reflexivity.
  - rewrite (findStock_app h _ _ code Hl), Hr.
    destruct r as [a|]; [reflexivity|].
    cbn. rewrite Hs. now destruct (String.eqb (Stock.code st) code).
  - apply Forall_app. split; [exact Hl|]. constructor; [congruence | constructor].
Qed.

Lemma getStock_addStock_witness :
  let samsung := Stock.new "005930" "Samsung" 70000 in
  let hynix := Stock.new "000660" "SK hynix" 120000 in
  let h := [samsung; hynix] in
  let m := Market.addStock (Market.addStock Market.new (Some 0%nat))
             (Some 1%nat) in
  Market.getStock h m "000660" = Some (Some 1%nat) /\
  Market.getStock h (Market.addStock m (Some 0%nat)) "000660"
  = Some (Some 1%nat) /\
  listed h (Market.addStock m (Some 0%nat)).
Proof.
  intros samsung hynix h m.
  destruct (getStock_addStock h m (Some 0%nat) samsung "000660")
    as (r & Hr & _ & _ & _ & Hadd & Hlisted).
  - repeat constructor; discriminate.
  - reflexivity.
  - assert (Er : r = Some 1%nat).
    { vm_compute in Hr. now injection Hr as <-. }
    subst r. split; [exact Hr|]. split; [exact Hadd | exact Hlisted].
Defined.

End MarketFacts.

(** ** A trading session

    The first test of [main]: one stock is listed at 70000, a user
    deposits 10,000,000 and places a market order for 10 shares, which is
    executed.  The clock and the random numbers are fixed here. *)

Module SampleSession.

Definition world0 : World := startWorld 0 (fun _ => 0).

Definition samsung : ptr := fst (newStock world0 "005930" "삼성전자" 70000).
Definition world1 : World := snd (newStock world0 "005930" "삼성전자" 70000).

Definition market : Market.t := Market.addStock Market.new samsung.

Definition account0 : Account.t :=
  Account.deposit (User.getAccount (User.new "user1" "1234" "홍길동"))
    10000000.

Definition buyOrder : Order.t :=
  fst (Order.new world1 "005930" BUY MARKET 0 10).
Definition world2 : World :=
  snd (Order.new world1 "005930" BUY MARKET 0 10).

Definition account1 : Account.t := snd (Account.placeOrder account0 buyOrder).

(** The account and the environment after the order has been executed. *)
Definition account2 : Account.t :=
  match Account.executeOrder world2 account1 (Order.orderId buyOrder)
          market with
  | Some (_, a, _) => a
  | None => account1
  end.

Definition world3 : World :=
  match Account.executeOrder world2 account1 (Order.orderId buyOrder)
          market with
  | Some (_, _, w) => w
  | None => world2
  end.

Lemma executed :
  Account.executeOrder world2 account1 (Order.orderId buyOrder) market
  = Some (true, account2, world3).
Proof. vm_compute. reflexivity. Qed.

(** An order for a negative quantity, placed on the same account. *)
Definition shortOrder : Order.t :=
  fst (Order.new world1 "005930" BUY MARKET 0 (-10)).

Definition shortAccount : Account.t :=
  snd (Account.placeOrder account0 shortOrder).

End SampleSession.

(** ** [simulatePriceChange] *)

Module SimulationFacts.

Import Machine Market.

(** [1 + n / 10000.0], the factor a price is multiplied by. *)
Definition factor (n : Z) : double :=
  Double.add (Double.of_Z 1) (Double.div (Double.of_Z n) (Double.of_Z 10000)).

(** [f] is a positive double between [lo / 2^40] and [hi / 2^40]. *)
Definition between (lo hi : Z) (f : double) : bool :=
  match f with
  | S754_finite false m e =>
      valid_binary 53 1024 f && (e <=? 0) &&
      (lo * 2 ^ (- e) <=? Zpos m * 2 ^ 40) &&
      (Zpos m * 2 ^ 40 <=? hi * 2 ^ (- e))
  | _ => false
  end.

Lemma between_sound (lo hi : Z) (f : double) :
  between lo hi f = true ->
  exists m e,
    f = S754_finite false m e /\ valid f /\
    (IZR lo * bpow (-40) <= F2R (Zpos m) e <= IZR hi * bpow (-40))%R.
Proof.
  unfold between. destruct f as [| | |[|] m e]; try discriminate.
  intros H. apply andb_prop in H as [H H4]. apply andb_prop in H as [H H3].
  apply andb_prop in H as [H1 H2].
  apply Z.leb_le in H2, H3, H4.
  exists m, e. split; [reflexivity|]. split; [exact H1|].
  apply IZR_le in H3, H4. rewrite !mult_IZR in H3, H4.
  rewrite <- !bpow_IZR in H3, H4 by lia.
  unfold F2R.
  assert (E1 : (bpow (- e) * bpow e = 1)%R).
  { rewrite <- bpow_plus. replace (- e + e) with 0 by lia. apply bpow_0. }
  assert (E2 : (bpow 40 * bpow (-40) = 1)%R).
  { rewrite <- bpow_plus. apply bpow_0. }
  pose proof (bpow_gt_0 e). pose proof (bpow_gt_0 (-40)).
  pose proof (bpow_gt_0 (- e)). pose proof (bpow_gt_0 40).
  set (M := IZR (Zpos m)) in *. set (A := bpow (- e)) in *.
  set (B := bpow e) in *. set (P := bpow 40) in *. set (Q := bpow (-40)) in *.
  split.
  - assert (IZR lo * A * (B * Q) <= M * P * (B * Q))%R
      by (apply Rmult_le_compat_r; nra).
    replace (IZR lo * A * (B * Q))%R with (IZR lo * Q * (A * B))%R in * by ring.
    replace (M * P * (B * Q))%R with (M * B * (P * Q))%R in * by ring.
    rewrite E1, E2 in *. lra.
  - assert (M * P * (B * Q) <= IZR hi * A * (B * Q))%R
      by (apply Rmult_le_compat_r; nra).
    replace (IZR hi * A * (B * Q))%R with (IZR hi * Q * (A * B))%R in * by ring.
    replace (M * P * (B * Q))%R with (M * B * (P * Q))%R in * by ring.
    rewrite E1, E2 in *. lra.
Qed.

(** The bounds, in units of [2^-40], of the factors of an ordinary move
    and of a crash. *)
Definition ordinary_lo : Z := 97 * 2 ^ 40 / 100 - 1.
Definition ordinary_hi : Z := 103 * 2 ^ 40 / 100 + 1.
Definition crash_lo : Z := 85 * 2 ^ 40 / 100 - 1.
Definition crash_hi : Z := 95 * 2 ^ 40 / 100 + 1.

Lemma ordinary_factors :
  forallb (fun k => between ordinary_lo ordinary_hi (factor (Z.of_nat k - 300)))
    (seq 0 601) = true.
Proof. vm_compute. reflexivity. Qed.

Lemma crash_factors :
  forallb (fun k => between crash_lo crash_hi (factor (Z.of_nat k - 1500)))
    (seq 0 1001) = true.
Proof. vm_compute. reflexivity. Qed.

Lemma ordinary_factor (n : Z) :
  -300 <= n <= 300 -> between ordinary_lo ordinary_hi (factor n) = true.
Proof.
  intros Hn. pose proof ordinary_factors as H.
  rewrite forallb_forall in H.
  specialize (H (Z.to_nat (n + 300))).
  replace (Z.of_nat (Z.to_nat (n + 300)) - 300) with n in H by lia.
  apply H. apply in_seq. lia.
Qed.

Lemma crash_factor (n : Z) :
  -1500 <= n <= -500 -> between crash_lo crash_hi (factor n) = true.
Proof.
  intros Hn. pose proof crash_factors as H.
  rewrite forallb_forall in H.
  specialize (H (Z.to_nat (n + 1500))).
  replace (Z.of_nat (Z.to_nat (n + 1500)) - 1500) with n in H by lia.
  apply H. apply in_seq. lia.
Qed.

(** A price times a factor near a percentage, truncated. *)
Lemma scaled_trunc (price plo phi : Z) (m : positive) (e : Z) :
  1 <= price < 2 ^ 31 -> 0 < plo <= phi -> phi <= 200 ->
  valid (S754_finite false m e) ->
  (IZR plo / 100 - bpow (-39) <= F2R (Zpos m) e <= IZR phi / 100 + bpow (-39))%R ->
  exists t,
    Double.trunc (Double.mul (Double.of_Z price) (S754_finite false m e))
      = Some t /\
    0 <= t /\ (plo * price - 1) / 100 <= t <= phi * price / 100.
Proof.
  intros Hp Hpl Hph Hv [Hlo Hhi].
  change (2 ^ 31) with 2147483648 in Hp.
  destruct (of_Z_exact price ltac:(change (2 ^ 53) with 9007199254740992; lia))
    as (mp & ep & -> & Hvp & Ep).
  destruct (mul_finite_props false false mp m ep e Hvp Hv)
    as (_ & Hs & Hup & Hdn).
  rewrite Ep in *. set (F := F2R (Zpos m) e) in *.
  assert (Hq : (bpow (-39) * 549755813888 = 1)%R).
  { change 549755813888%R with (IZR (2 ^ 39)).
    rewrite <- bpow_IZR, <- bpow_plus by lia. apply bpow_0. }
  set (q := bpow (-39)) in *.
  assert (Hq0 : (0 < q)%R) by apply bpow_gt_0.
  assert (HP : (1 <= IZR price <= 2147483647)%R).
  { split; apply IZR_le; lia. }
  assert (Hpq : (IZR price * q <= 2147483648 * q)%R)
    by (apply Rmult_le_compat_r; lra).
  set (K := phi * price / 100).
  set (L := (plo * price - 1) / 100).
  pose proof (Z.div_mod (phi * price) 100 ltac:(lia)) as EK.
  pose proof (Z.mod_pos_bound (phi * price) 100 ltac:(lia)) as RK.
  pose proof (Z.div_mod (plo * price - 1) 100 ltac:(lia)) as EL.
  pose proof (Z.mod_pos_bound (plo * price - 1) 100 ltac:(lia)) as RL.
  fold K in EK. fold L in EL.
  assert (HK0 : 0 <= K) by (apply Z.div_pos; nia).
  assert (HKmax : K <= 4294967296).
  { apply Z.div_le_upper_bound; [lia|]. nia. }
  assert (HKr : (IZR price * IZR phi <= 100 * IZR K + 99)%R).
  { assert (HZ : price * phi <= 100 * K + 99) by lia.
    apply IZR_le in HZ. rewrite plus_IZR, !mult_IZR in HZ. exact HZ. }
  assert (HLr : (100 * IZR L + 1 <= IZR price * IZR plo)%R).
  { assert (HZ : 100 * L + 1 <= price * plo) by lia.
    apply IZR_le in HZ. rewrite plus_IZR, !mult_IZR in HZ. exact HZ. }
  assert (Hx1 : (IZR price * F <= IZR price * (IZR phi / 100 + q))%R)
    by (apply Rmult_le_compat_l; lra).
  assert (Hx2 : (IZR price * (IZR plo / 100 - q) <= IZR price * F)%R)
    by (apply Rmult_le_compat_l; lra).
  assert (RW : representable (K * 1024 + 1023) (-10)).
  { unfold representable. change (2 ^ 53) with 9007199254740992. lia. }
  assert (EW : (F2R (K * 1024 + 1023) (-10) = IZR K + 1023 / 1024)%R).
  { unfold F2R. rewrite plus_IZR, mult_IZR.
    assert (Hb : (bpow (-10) * 1024 = 1)%R).
    { change 1024%R with (IZR (2 ^ 10)).
      rewrite <- bpow_IZR, <- bpow_plus by lia. apply bpow_0. }
    set (b := bpow (-10)) in *. nra. }
  destruct (Hup _ _ RW) as [Hfin Hb].
  { rewrite EW. nra. }
  rewrite EW in Hb.
  assert (HLb : (IZR L <= Bmag (Double.mul (S754_finite false mp ep)
                                  (S754_finite false m e)))%R).
  { destruct (Z_le_gt_dec L 0) as [HL0 | HL0].
    - apply Rle_trans with 0%R; [apply IZR_le; lia|].
      destruct (Double.mul _ _) as [| | |s' m' e']; cbn [Bmag]; try lra.
      unfold F2R. pose proof (bpow_gt_0 e').
      assert (0 < IZR (Zpos m'))%R by (apply IZR_lt; lia). nra.
    - assert (RL' : representable L 0).
      { unfold representable. change (2 ^ 53) with 9007199254740992.
        assert (L <= K); [|lia].
        apply Z.div_le_mono; [lia|]. nia. }
      assert (EL' : F2R L 0 = IZR L).
      { unfold F2R. rewrite bpow_0. ring. }
      rewrite <- EL'. apply Hdn; [exact RL' | | exact Hfin].
      rewrite EL'. nra. }
  apply trunc_between; try assumption.
  rewrite plus_IZR. lra.
Qed.

Lemma nextPrice_range (price r1 r2 : Z) :
  1 <= price -> 103 * price <= 100 * int_max ->
  0 <= r1 -> 0 <= r2 ->
  let p' := nextPrice price (drawRate r1 r2) in
  1 <= p' /\
  (Z.rem r1 100 < 95 ->
   97 * price - 100 <= 100 * p' <= 103 * price) /\
  (95 <= Z.rem r1 100 ->
   85 * price - 100 <= 100 * p' /\ (p' = 1 \/ 100 * p' <= 95 * price)).
Proof.
  intros Hp Hmax Hr1 Hr2. unfold int_max in Hmax.
  change (2 ^ 31) with 2147483648 in Hmax.
  assert (Hclamp : forall rate t,
            Double.trunc (Double.mul (Double.of_Z price)
                            (Double.add (Double.of_Z 1) rate)) = Some t ->
            0 <= t <= 103 * price / 100 ->
            nextPrice price rate = Z.max 1 t).
  { intros rate t Ht Hb. unfold nextPrice, Double.to_int. rewrite Ht.
    assert (103 * price / 100 <= 2147483647)
      by (apply Z.div_le_upper_bound; lia).
    unfold int_min, int_max. change (2 ^ 31) with 2147483648.
    destruct (Z.leb_spec (Z.opp 2147483648) t); [|lia].
    destruct (Z.leb_spec t (2147483648 - 1)); [|lia]. cbn [andb].
    destruct (Z.ltb_spec t 1); lia. }
  assert (Hq : (bpow (-39) = 2 * bpow (-40))%R).
  { replace (-39) with (1 + -40) by lia. rewrite bpow_plus, bpow_1. ring. }
  assert (Hq40 : (bpow (-40) * 1099511627776 = 1)%R).
  { change 1099511627776%R with (IZR (2 ^ 40)).
    rewrite <- bpow_IZR, <- bpow_plus by lia. apply bpow_0. }
  pose proof (bpow_gt_0 (-40)) as Hq0.
  assert (Hprice : 1 <= price < 2 ^ 31)
    by (change (2 ^ 31) with 2147483648; lia).
  unfold drawRate. cbv zeta.
  pose proof (Z.rem_bound_pos r2 601 Hr2 ltac:(lia)) as Hn1.
  pose proof (Z.rem_bound_pos r2 1001 Hr2 ltac:(lia)) as Hn2.
  destruct (Z.ltb_spec (Z.rem r1 100) 95) as [Hord | Hcr].
  - rewrite (to_int_id (Z.rem r2 601 - 300))
      by (unfold in_int, int_min, int_max; lia).
    destruct (between_sound _ _ _ (ordinary_factor (Z.rem r2 601 - 300)
                                     ltac:(lia)))
      as (m & e & Ef & Hv & Hlo & Hhi).
    unfold factor in Ef.
    assert (Hv' : valid (S754_finite false m e)) by (now rewrite <- Ef).
    assert (Hb : (IZR 97 / 100 - bpow (-39) <= F2R (Zpos m) e
                  <= IZR 103 / 100 + bpow (-39))%R).
    { unfold ordinary_lo, ordinary_hi in *.
      let v := eval vm_compute in (97 * 2 ^ 40 / 100 - 1) in
      change (97 * 2 ^ 40 / 100 - 1) with v in Hlo.
      let v := eval vm_compute in (103 * 2 ^ 40 / 100 + 1) in
      change (103 * 2 ^ 40 / 100 + 1) with v in Hhi.
      set (q := bpow (-40)) in *. rewrite Hq. split; lra. }
    destruct (scaled_trunc price 97 103 m e Hprice ltac:(lia) ltac:(lia)
                Hv' Hb) as (t & Ht & Ht0 & HtL & HtK).
    rewrite <- Ef in Ht. rewrite (Hclamp _ t Ht ltac:(lia)).
    pose proof (Z.div_mod (97 * price - 1) 100 ltac:(lia)).
    pose proof (Z.mod_pos_bound (97 * price - 1) 100 ltac:(lia)).
    pose proof (Z.div_mod (103 * price) 100 ltac:(lia)).
    pose proof (Z.mod_pos_bound (103 * price) 100 ltac:(lia)).
    split; [lia|]. split; [intros _; lia | lia].
  - rewrite (to_int_id (Z.rem r2 1001 + 500))
      by (unfold in_int, int_min, int_max; lia).
    rewrite (to_int_id (- (Z.rem r2 1001 + 500)))
      by (unfold in_int, int_min, int_max; lia).
    destruct (between_sound _ _ _ (crash_factor (- (Z.rem r2 1001 + 500))
                                     ltac:(lia)))
      as (m & e & Ef & Hv & Hlo & Hhi).
    unfold factor in Ef.
    assert (Hv' : valid (S754_finite false m e)) by (now rewrite <- Ef).
    assert (Hb : (IZR 85 / 100 - bpow (-39) <= F2R (Zpos m) e
                  <= IZR 95 / 100 + bpow (-39))%R).
    { unfold crash_lo, crash_hi in *.
      let v := eval vm_compute in (85 * 2 ^ 40 / 100 - 1) in
      change (85 * 2 ^ 40 / 100 - 1) with v in Hlo.
      let v := eval vm_compute in (95 * 2 ^ 40 / 100 + 1) in
      change (95 * 2 ^ 40 / 100 + 1) with v in Hhi.
      set (q := bpow (-40)) in *. rewrite Hq. split; lra. }
    destruct (scaled_trunc price 85 95 m e Hprice ltac:(lia) ltac:(lia)
                Hv' Hb) as (t & Ht & Ht0 & HtL & HtK).
    rewrite <- Ef in Ht.
    assert (95 * price / 100 <= 103 * price / 100)
      by (apply Z.div_le_mono; lia).
    rewrite (Hclamp _ t Ht ltac:(lia)).
    pose proof (Z.div_mod (85 * price - 1) 100 ltac:(lia)).
    pose proof (Z.mod_pos_bound (85 * price - 1) 100 ltac:(lia)).
    pose proof (Z.div_mod (95 * price) 100 ltac:(lia)).
    pose proof (Z.mod_pos_bound (95 * price) 100 ltac:(lia)).
    split; [lia|]. split; [lia | intros _; lia].
Qed.

(** X17: one move of a price.  For a price of at least 1 whose 103 percent
    still fit an [int], and whatever [rand()] returns: the new price is
    at least 1; an ordinary move (95 draws in 100) takes it to between 97
    and 103 percent of the old price, a crash to between 85 and 95
    percent, in both cases up to the one unit the truncation to an
    integer and the floor of 1 can cost. *)
Theorem nextPrice_bounds (price r1 r2 : Z) :
  1 <= price -> 103 * price <= 100 * int_max ->
  0 <= r1 -> 0 <= r2 ->
  let p' := nextPrice price (drawRate r1 r2) in
  1 <= p' /\
  (Z.rem r1 100 < 95 ->
   97 * price - 100 <= 100 * p' <= 103 * price) /\
  (95 <= Z.rem r1 100 ->
   85 * price - 100 <= 100 * p' /\ (p' = 1 \/ 100 * p' <= 95 * price)).
Proof. exact (nextPrice_range price r1 r2). Qed.

Lemma nextPrice_bounds_witness :
  let p' := nextPrice 70000 (drawRate 97 1234) in
  1 <= p' /\
  (Z.rem 97 100 < 95 ->
   97 * 70000 - 100 <= 100 * p' <= 103 * 70000) /\
  (95 <= Z.rem 97 100 ->
   85 * 70000 - 100 <= 100 * p' /\ (p' = 1 \/ 100 * p' <= 95 * 70000)).
Proof.
  apply (nextPrice_bounds 70000 97 1234); vm_compute; discriminate.
Defined.

(** The loop over the listed stocks. *)
Lemma simulateAll_spec (l : list ptr) :
  forall w,
    Forall (fun p => deref (heap w) p <> None) l -> NoDup l ->
    exists w',
      simulateAll w l = Some w' /\
      length (heap w') = length (heap w) /\
      (nextOrderId w', nextTransactionId w', clock w')
        = (nextOrderId w, nextTransactionId w, clock w) /\
      randoms w' = randoms w /\
      drawn w' = (drawn w + 2 * length l)%nat /\
      forall a,
        (~ In (Some a) l -> nth_error (heap w') a = nth_error (heap w) a) /\
        (In (Some a) l ->
         forall st, nth_error (heap w) a = Some st ->
         exists k,
           nth_error (heap w') a =
             Some (Stock.updatePrice st
                     (nextPrice (Stock.currentPrice st)
                        (drawRate (randoms w k) (randoms w (S k)))))).
Proof.
  induction l as [|p rest IH]; intros w Hv Hnd.
  - exists w. cbn. repeat split; trivial; try lia; try contradiction.
  - inversion Hv as [|? ? Hp Hrest]; subst.
    inversion Hnd as [|? ? Hnin Hnd']; subst.
    destruct p as [a0|]; [|cbn in Hp; congruence]. cbn [deref] in Hp.
    destruct (nth_error (heap w) a0) as [s0|] eqn:E0; [|congruence].
    cbn [simulateAll rand heap drawn nextOrderId nextTransactionId clock
         randoms]. rewrite E0.
    set (s0' := Stock.updatePrice s0
                  (nextPrice (Stock.currentPrice s0)
                     (drawRate (randoms w (drawn w))
                        (randoms w (S (drawn w)))))).
    set (w3 := withHeap _ _).
    assert (Hv3 : Forall (fun p => deref (heap w3) p <> None) rest).
    { eapply Forall_impl; [|exact Hrest]. intros [a|]; cbn; [|congruence].
      intros Ha. destruct (Nat.eq_dec a a0) as [-> | Hne].
      - rewrite store_same by congruence. discriminate.
      - now rewrite store_other. }
    destruct (IH w3 Hv3 Hnd') as (w' & -> & Hlen & Hcnt & Hrnd & Hdr & Hall).
    exists w'. split; [reflexivity|].
    split; [rewrite Hlen; cbn; apply store_length|].
    split; [exact Hcnt|]. split; [exact Hrnd|].
    split; [rewrite Hdr; cbn; lia|].
    intros a. destruct (Hall a) as [Hout Hin]. split.
    + intros Hna. rewrite Hout by (intros H; apply Hna; now right).
      cbn. apply store_other. intros ->. apply Hna. now left.
    + intros [Heq | Hin'] st Hst.
      * injection Heq as <-. rewrite Hout by exact Hnin.
        cbn. rewrite store_same by congruence.
        rewrite E0 in Hst. injection Hst as <-.
        exists (drawn w). reflexivity.
      * assert (Hne : a <> a0) by (intros ->; contradiction).
        destruct (Hin Hin' st) as (k & Hk).
        { cbn. now rewrite store_other. }
        exists k. exact Hk.
Qed.

(** X18: a simulated step of the market.  For a market that lists each of
    its stocks once, with prices from 1 up to what leaves room for 3
    percent more in an [int], [simulatePriceChange] draws two random
    numbers per stock; every listed stock keeps its code, name and
    history, its old price becomes the previous price, and its new price
    is at least 1 and between 85 and 103 percent of the old one, up to
    one unit; the stocks that are not listed and the id counters are not
    touched. *)
Theorem simulatePriceChange_moves (w : World) (m : Market.t) :
  MarketFacts.listed (heap w) m ->
  NoDup (Market.stocks m) ->
  (forall k, 0 <= randoms w k <= RAND_MAX) ->
  Forall (fun s => 1 <= Stock.currentPrice s /\
                   103 * Stock.currentPrice s <= 100 * int_max) (heap w) ->
  exists w',
    simulatePriceChange w m = Some w' /\
    drawn w' = (drawn w + 2 * length (Market.stocks m))%nat /\
    (nextOrderId w', nextTransactionId w')
      = (nextOrderId w, nextTransactionId w) /\
    forall a st,
      nth_error (heap w) a = Some st ->
      exists st',
        nth_error (heap w') a = Some st' /\
        Stock.code st' = Stock.code st /\
        Stock.name st' = Stock.name st /\
        Stock.priceHistory st' = Stock.priceHistory st /\
        (~ In (Some a) (Market.stocks m) -> st' = st) /\
        (In (Some a) (Market.stocks m) ->
         Stock.previousPrice st' = Stock.currentPrice st /\
         1 <= Stock.currentPrice st' /\
         85 * Stock.currentPrice st - 100 <= 100 * Stock.currentPrice st'
           <= 103 * Stock.currentPrice st).
Proof.
  intros Hl Hnd Hr Hp. unfold simulatePriceChange.
  destruct (simulateAll_spec (Market.stocks m) w Hl Hnd)
    as (w' & -> & _ & Hcnt & _ & Hdr & Hall).
  exists w'. split; [reflexivity|]. split; [exact Hdr|].
  split; [now injection Hcnt as -> ->|].
  intros a st Hst. destruct (Hall a) as [Hout Hin].
  destruct (in_dec (fun x y : ptr => ltac:(decide equality; apply Nat.eq_dec))
              (Some a) (Market.stocks m)) as [Hi | Hni].
  - destruct (Hin Hi st Hst) as (k & Hk).
    eexists. split; [exact Hk|].
    cbn [Stock.code Stock.name Stock.priceHistory Stock.previousPrice
         Stock.currentPrice Stock.updatePrice].
    repeat (split; [reflexivity|]).
    split; [intros H; contradiction|]. intros _.
    split; [reflexivity|].
    assert (Hst' : 1 <= Stock.currentPrice st /\
                   103 * Stock.currentPrice st <= 100 * int_max).
    { rewrite Forall_forall in Hp. apply Hp. eapply nth_error_In.
      eassumption. }
    destruct Hst' as [Hp1 Hp2].
    destruct (nextPrice_range (Stock.currentPrice st) (randoms w k)
                (randoms w (S k)) Hp1 Hp2
                (proj1 (Hr k)) (proj1 (Hr (S k))))
      as (H1 & Hord & Hcr).
    split; [exact H1|].
    destruct (Z_lt_ge_dec (Z.rem (randoms w k) 100) 95) as [Ho | Hc].
    + specialize (Hord Ho). lia.
    + specialize (Hcr ltac:(lia)). lia.
  - exists st. rewrite (Hout Hni). split; [exact Hst|].
    repeat (split; [reflexivity|]). intros H. contradiction.
Qed.

Lemma simulatePriceChange_moves_witness :
  let w := SampleSession.world1 in
  let m := SampleSession.market in
  exists w',
    simulatePriceChange w m = Some w' /\
    drawn w' = (drawn w + 2 * length (Market.stocks m))%nat /\
    (nextOrderId w', nextTransactionId w')
      = (nextOrderId w, nextTransactionId w) /\
    forall a st,
      nth_error (heap w) a = Some st ->
      exists st',
        nth_error (heap w') a = Some st' /\
        Stock.code st' = Stock.code st /\
        Stock.name st' = Stock.name st /\
        Stock.priceHistory st' = Stock.priceHistory st /\
        (~ In (Some a) (Market.stocks m) -> st' = st) /\
        (In (Some a) (Market.stocks m) ->
         Stock.previousPrice st' = Stock.currentPrice st /\
         1 <= Stock.currentPrice st' /\
         85 * Stock.currentPrice st - 100 <= 100 * Stock.currentPrice st'
           <= 103 * Stock.currentPrice st).
Proof.
  apply (simulatePriceChange_moves SampleSession.world1 SampleSession.market).
  - repeat constructor. discriminate.
  - repeat constructor. intros [].
  - intros k. vm_compute. split; discriminate.
  - repeat constructor; vm_compute; discriminate.
Defined.


End SimulationFacts.

(** ** [Account]: cash, orders and their execution *)

Module AccountFacts.

Import Machine.

(** X19: [deposit] and [withdraw].  A deposit that is not positive is
    ignored; a withdrawal above the balance is refused and changes
    nothing; withdrawing what has just been deposited into an account
    that is not overdrawn gives the account back; a withdrawal of a non-negative amount never leaves a negative
    balance. *)
Theorem deposit_withdraw (a : Account.t) (amount : Z) :
  in_long (Account.balance a) ->
  (amount <= 0 -> Account.deposit a amount = a) /\
  (Account.balance a < amount -> Account.withdraw a amount = (false, a)) /\
  (0 < amount -> 0 <= Account.balance a ->
   in_long (Account.balance a + amount) ->
   Account.withdraw (Account.deposit a amount) amount = (true, a)) /\
  (0 <= amount <= Account.balance a ->
   fst (Account.withdraw a amount) = true /\
   Account.balance (snd (Account.withdraw a amount)) =
     Account.balance a - amount /\
   0 <= Account.balance (snd (Account.withdraw a amount))).
Proof.
  intros Hb. unfold Account.deposit, Account.withdraw.
  split; [|split; [|split]].
  - intros H. destruct (Z.gtb_spec amount 0); [lia | reflexivity].
  - intros H. destruct (Z.geb_spec (Account.balance a) amount);
      [exfalso; lia | reflexivity].
  - intros Hpos Hnn Hin. destruct (Z.gtb_spec amount 0); [|lia].
    cbn [Account.balance Account.accountNumber Account.portfolio
         Account.orders Account.transactions].
    rewrite (to_long_id _ Hin).
    destruct (Z.geb_spec (Account.balance a + amount) amount); [|lia].
    replace (Account.balance a + amount - amount) with (Account.balance a)
      by lia.
    rewrite (to_long_id _ Hb). now destruct a.
  - intros H. destruct (Z.geb_spec (Account.balance a) amount); [|lia].
    cbn [fst snd Account.balance].
    rewrite to_long_id
      by (unfold in_long, long_min, long_max in *; lia).
    repeat split; lia.
Qed.

Lemma deposit_withdraw_witness :
  let a := Account.new "user1_ACC" 0 in
  (10000000 <= 0 -> Account.deposit a 10000000 = a) /\
  (Account.balance a < 10000000 ->
   Account.withdraw a 10000000 = (false, a)) /\
  (0 < 10000000 -> 0 <= Account.balance a ->
   in_long (Account.balance a + 10000000) ->
   Account.withdraw (Account.deposit a 10000000) 10000000 = (true, a)) /\
  (0 <= 10000000 <= Account.balance a ->
   fst (Account.withdraw a 10000000) = true /\
   Account.balance (snd (Account.withdraw a 10000000)) =
     Account.balance a - 10000000 /\
   0 <= Account.balance (snd (Account.withdraw a 10000000))).
Proof.
  apply (deposit_withdraw (Account.new "user1_ACC" 0) 10000000).
  vm_compute. split; discriminate.
Defined.

(** The orders [executeOrder] stops at: the ones with the id that are
    still pending. *)
Definition selects (orderId : Z) (o : Order.t) : bool :=
  (Order.orderId o =? orderId) && Order.isPending o.

(** What a call of [executeOrder] that returned true has done: it filled
    the order [o] on the stock [st] at address [addr] and logged the
    transaction [x]. *)
Record filled (w : World) (m : Market.t) (a : Account.t) (orderId : Z)
    (a' : Account.t) (w' : World) (done : list Order.t) (rest : list Order.t)
    (o : Order.t) (addr : nat) (st : Stock.t) (x : Transaction.t)
  : Prop := mkFilled {
  f_orders : exists pre post,
    rest = pre ++ o :: post /\
    Account.orders a' = done ++ pre ++ Order.execute o :: post;
  f_selected : selects orderId o = true;
  f_listed :
    Market.getStock (heap w) m (Order.stockCode o) = Some (Some addr);
  f_stock : nth_error (heap w) addr = Some st;
  f_logged :
    Transaction.new w (Order.execute o) (Some addr) (Stock.currentPrice st)
      = Some (x, w') /\
    Account.transactions a' = Account.transactions a ++ [x];
  f_number : Account.accountNumber a' = Account.accountNumber a;
  f_effect :
    let cost := to_long (Stock.currentPrice st * Order.quantity o) in
    let fee := Transaction.feeOf cost in
    match Order.orderType o with
    | BUY =>
        to_long (cost + fee) <= Account.balance a /\
        Account.balance a' =
          to_long (Account.balance a - to_long (cost + fee)) /\
        Portfolio.addPosition (heap w) (Account.portfolio a) (Some addr)
          (Order.quantity o) (Stock.currentPrice st)
          = Some (Account.portfolio a')
    | SELL =>
        (exists pos,
           Portfolio.getPosition (Account.portfolio a) (Stock.code st)
             = Some pos /\
           Order.quantity o <= Position.quantity pos) /\
        Account.balance a' =
          to_long (Account.balance a + to_long (cost - fee)) /\
        Account.portfolio a' =
          snd (Portfolio.reducePosition (Account.portfolio a)
                 (Stock.code st) (Order.quantity o))
    end
}.

Lemma executeLoop_result (w : World) (m : Market.t) (orderId : Z)
    (a : Account.t) (rest done : list Order.t) (ok : bool) (a' : Account.t)
    (w' : World) :
  Account.executeLoop w m orderId a done rest = Some (ok, a', w') ->
  (ok = false /\ a' = a /\ w' = w) \/
  (ok = true /\
   exists o addr st x, filled w m a orderId a' w' done rest o addr st x).
Proof.
  revert done. induction rest as [|order rest' IH]; intros done; cbn.
  - intros [= <- <- <-]. now left.
  - assert (Hnext :
      Account.executeLoop w m orderId a (done ++ [order]) rest'
        = Some (ok, a', w') ->
      (ok = false /\ a' = a /\ w' = w) \/
      (ok = true /\
       exists o addr st x,
         filled w m a orderId a' w' done (order :: rest') o addr st x)).
    { intros H. destruct (IH _ H) as [Hf | (Hok & o & addr & st & x & F)];
        [now left | right]. split; [exact Hok|].
      exists o, addr, st, x. destruct F as [(pre & post & -> & Ho) ? ? ? ? ? ?].
      constructor; try assumption.
      exists (order :: pre), post. split; [reflexivity|].
      rewrite Ho, <- app_assoc. reflexivity. }
    destruct ((Order.orderId order =? orderId) && Order.isPending order)
      eqn:Hsel; [|exact Hnext].
    destruct (Market.getStock (heap w) m (Order.stockCode order))
      as [[addr|]|] eqn:Hg; [| |discriminate].
    2:{ intros [= <- <- <-]. now left. }
    cbn [deref].
    destruct (nth_error (heap w) addr) as [st|] eqn:Hst; [|discriminate].
    destruct (Order.orderType order) eqn:Hty.
    + destruct (Z.geb_spec (Account.balance a)
                  (to_long (to_long (Stock.currentPrice st * Order.quantity order)
                            + Transaction.feeOf
                                (to_long (Stock.currentPrice st
                                          * Order.quantity order)))))
        as [Hge | Hlt]; [|exact Hnext].
      destruct (Portfolio.addPosition (heap w) (Account.portfolio a)
                  (Some addr) (Order.quantity order) (Stock.currentPrice st))
        as [pf|] eqn:Hpf; [|discriminate].
      destruct (Transaction.new w (Order.execute order) (Some addr)
                  (Stock.currentPrice st)) as [[x w1]|] eqn:Hx;
        [|discriminate].
      intros [= <- <- <-]. right. split; [reflexivity|].
      exists order, addr, st, x. constructor; cbn; try assumption; trivial.
      * exists [], rest'. split; reflexivity.
      * split; [exact Hx | reflexivity].
      * rewrite Hty. repeat split; trivial.
    + unfold Portfolio.hasPosition.
      destruct (Portfolio.getPosition (Account.portfolio a) (Stock.code st))
        as [pos|] eqn:Hpos; unfold Portfolio.getPosition in Hpos;
        rewrite Hpos; [|exact Hnext].
      destruct (Z.geb_spec (Position.quantity pos) (Order.quantity order))
        as [Hge | Hlt]; [|exact Hnext].
      destruct (Transaction.new w (Order.execute order) (Some addr)
                  (Stock.currentPrice st)) as [[x w1]|] eqn:Hx;
        [|discriminate].
      intros [= <- <- <-]. right. split; [reflexivity|].
      exists order, addr, st, x. constructor; cbn; try assumption; trivial.
      * exists [], rest'. split; reflexivity.
      * split; [exact Hx | reflexivity].
      * rewrite Hty. repeat split; trivial.
        exists pos. split; [exact Hpos | lia].
Qed.

Lemma executeLoop_none (w : World) (m : Market.t) (orderId : Z)
    (a : Account.t) (rest done : list Order.t) :
  Forall (fun o => selects orderId o = false) rest ->
  Account.executeLoop w m orderId a done rest = Some (false, a, w).
Proof.
  intros H. revert done.
  induction H as [|o rest Ho Hrest IH]; intros done; cbn; [reflexivity|].
  unfold selects in Ho. rewrite Ho. apply IH.
Qed.

(** X20: a refused order.  When [executeOrder] returns false the account and
    the environment are exactly as before, with no transaction logged;
    and it returns false whenever no pending order has the id. *)
Theorem executeOrder_refused (w : World) (a : Account.t) (orderId : Z)
    (m : Market.t) :
  (forall a' w',
     Account.executeOrder w a orderId m = Some (false, a', w') ->
     a' = a /\ w' = w) /\
  (Forall (fun o => Order.orderId o <> orderId \/ Order.isPending o = false)
     (Account.orders a) ->
   Account.executeOrder w a orderId m = Some (false, a, w)).
Proof.
  unfold Account.executeOrder. split.
  - intros a' w' H.
    destruct (executeLoop_result _ _ _ _ _ _ _ _ _ H)
      as [(_ & -> & ->) | (Hok & _)]; [now split | discriminate].
  - intros H. apply executeLoop_none.
    eapply Forall_impl; [|exact H]. intros o [Hid | Hp]; unfold selects.
    + apply Z.eqb_neq in Hid. now rewrite Hid.
    + rewrite Hp. apply andb_false_r.
Qed.

(** X21: an order is filled at most once.  When the ids of the orders of an
    account are distinct, an order that [executeOrder] has filled is
    refused by every later call, whatever the market does. *)
Theorem executeOrder_once (w : World) (a : Account.t) (orderId : Z)
    (m : Market.t) (a' : Account.t) (w' : World) :
  NoDup (map Order.orderId (Account.orders a)) ->
  Account.executeOrder w a orderId m = Some (true, a', w') ->
  forall w2 m2, Account.executeOrder w2 a' orderId m2 = Some (false, a', w2).
Proof.
  intros Hnd H w2 m2. unfold Account.executeOrder in *.
  destruct (executeLoop_result _ _ _ _ _ _ _ _ _ H)
    as [(Hok & _) | (_ & o & addr & st & x & F)]; [discriminate|].
  destruct F as [(pre & post & Ho & Ho') Hsel _ _ _ _ _].
  apply executeLoop_none. rewrite Ho'. cbn [app].
  unfold selects in Hsel. apply andb_prop in Hsel as [Hid _].
  apply Z.eqb_eq in Hid.
  rewrite Ho, map_app in Hnd. cbn [map] in Hnd.
  apply NoDup_remove_2 in Hnd.
  apply Forall_app. split; [|constructor].
  - apply Forall_forall. intros o1 Hin. unfold selects.
    destruct (Z.eqb_spec (Order.orderId o1) orderId) as [Heq | Hne];
      [|reflexivity].
    exfalso. apply Hnd. apply in_or_app. left. rewrite Hid, <- Heq.
    now apply in_map.
  - unfold selects. cbn. apply andb_false_r.
  - apply Forall_forall. intros o1 Hin. unfold selects.
    destruct (Z.eqb_spec (Order.orderId o1) orderId) as [Heq | Hne];
      [|reflexivity].
    exfalso. apply Hnd. apply in_or_app. right. rewrite Hid, <- Heq.
    now apply in_map.
Qed.

Lemma executeOrder_once_witness :
  Account.executeOrder SampleSession.world3 SampleSession.account2
    (Order.orderId SampleSession.buyOrder) SampleSession.market
  = Some (false, SampleSession.account2, SampleSession.world3).
Proof.
  apply (executeOrder_once SampleSession.world2 SampleSession.account1
           (Order.orderId SampleSession.buyOrder) SampleSession.market
           SampleSession.account2 SampleSession.world3).
  - vm_compute. repeat constructor. intros [].
  - vm_compute. reflexivity.
Defined.


(** X22: the log agrees with the cash.  A call of [executeOrder] that
    returns true appends exactly one transaction, for the order with the
    id and the stock's current price, and the balance has moved by that
    transaction's net amount: down for a purchase, up for a sale. *)
Theorem executeOrder_logged (w : World) (a : Account.t) (orderId : Z)
    (m : Market.t) (a' : Account.t) (w' : World) :
  Account.executeOrder w a orderId m = Some (true, a', w') ->
  exists x,
    Account.transactions a' = Account.transactions a ++ [x] /\
    Transaction.orderId x = orderId /\
    Transaction.transactionId x = nextTransactionId w /\
    nextTransactionId w' = to_int (nextTransactionId w + 1) /\
    heap w' = heap w /\
    (exists addr st,
       Market.getStock (heap w) m (Transaction.stockCode x)
         = Some (Some addr) /\
       nth_error (heap w) addr = Some st /\
       Transaction.price x = Stock.currentPrice st) /\
    (Transaction.type x = "BUY"%string /\
     Account.balance a' =
       to_long (Account.balance a - Transaction.getNetAmount x) \/
     Transaction.type x = "SELL"%string /\
     Account.balance a' =
       to_long (Account.balance a + Transaction.getNetAmount x)).
Proof.
  intros H. unfold Account.executeOrder in H.
  destruct (executeLoop_result _ _ _ _ _ _ _ _ _ H)
    as [(Hok & _) | (_ & o & addr & st & x & F)]; [discriminate|].
  destruct F as [_ Hsel Hl Hst [Hx Htx] _ He].
  exists x. split; [exact Htx|].
  unfold Transaction.new in Hx. cbn [deref] in Hx. rewrite Hst in Hx.
  injection Hx as <- <-.
  unfold selects in Hsel. apply andb_prop in Hsel as [Hid _].
  apply Z.eqb_eq in Hid.
  destruct (MarketFacts.findStock_found _ _ _ _ Hl) as (_ & st' & Hst' & Hc).
  rewrite Hst in Hst'. injection Hst' as <-.
  cbn [Transaction.orderId Transaction.transactionId Transaction.stockCode
       Transaction.price Transaction.type Order.orderId Order.execute
       Order.withStatus Order.orderType Order.quantity nextTransactionId
       heap].
  split; [exact Hid|].
  do 3 (split; [reflexivity|]).
  split.
  { exists addr, st. rewrite Hc. now repeat split. }
  unfold Transaction.getNetAmount.
  cbn [Transaction.type Transaction.totalAmount Transaction.fee
       Order.orderType Order.execute Order.withStatus Order.quantity].
  cbn zeta in He.
  destruct (Order.orderType o).
  - left. split; [reflexivity|]. cbn [String.eqb Ascii.eqb Bool.eqb].
    now destruct He as (_ & -> & _).
  - right. split; [reflexivity|]. cbn [String.eqb Ascii.eqb Bool.eqb].
    now destruct He as (_ & -> & _).
Qed.

Lemma executeOrder_logged_witness :
  exists x,
    Account.transactions SampleSession.account2 =
      Account.transactions SampleSession.account1 ++ [x] /\
    Transaction.orderId x = Order.orderId SampleSession.buyOrder /\
    Transaction.transactionId x = nextTransactionId SampleSession.world2 /\
    nextTransactionId SampleSession.world3 =
      to_int (nextTransactionId SampleSession.world2 + 1) /\
    heap SampleSession.world3 = heap SampleSession.world2 /\
    (exists addr st,
       Market.getStock (heap SampleSession.world2) SampleSession.market
         (Transaction.stockCode x) = Some (Some addr) /\
       nth_error (heap SampleSession.world2) addr = Some st /\
       Transaction.price x = Stock.currentPrice st) /\
    (Transaction.type x = "BUY"%string /\
     Account.balance SampleSession.account2 =
       to_long (Account.balance SampleSession.account1
                - Transaction.getNetAmount x) \/
     Transaction.type x = "SELL"%string /\
     Account.balance SampleSession.account2 =
       to_long (Account.balance SampleSession.account1
                + Transaction.getNetAmount x)).
Proof.
  apply (executeOrder_logged SampleSession.world2 SampleSession.account1
           (Order.orderId SampleSession.buyOrder) SampleSession.market
           SampleSession.account2 SampleSession.world3).
  vm_compute. reflexivity.
Defined.


End AccountFacts.

(** ** Arithmetic modulo the width of [long] *)

Section WrapFacts.

Import Machine.

Lemma wrap_add_l (w a b : Z) : wrap w (wrap w a + b) = wrap w (a + b).
Proof.
  unfold wrap.
  replace ((a + 2 ^ (w - 1)) mod 2 ^ w - 2 ^ (w - 1) + b + 2 ^ (w - 1))
    with ((a + 2 ^ (w - 1)) mod 2 ^ w + b) by ring.
  rewrite Zplus_mod_idemp_l. do 2 f_equal. ring.
Qed.

Lemma to_long_add_l (a b : Z) : to_long (to_long a + b) = to_long (a + b).
Proof. apply wrap_add_l. Qed.

Lemma to_long_idem (a : Z) : to_long (to_long a) = to_long a.
Proof. apply to_long_id, to_long_range. Qed.

Lemma to_long_add_r (a b : Z) : to_long (a + to_long b) = to_long (a + b).
Proof. rewrite Z.add_comm, to_long_add_l. f_equal. ring. Qed.

Lemma to_long_sub_r (a b : Z) : to_long (a - to_long b) = to_long (a - b).
Proof.
  unfold to_long, wrap.
  change (2 ^ (64 - 1)) with 9223372036854775808.
  change (2 ^ 64) with 18446744073709551616.
  f_equal.
  replace (a - ((b + 9223372036854775808) mod 18446744073709551616
                - 9223372036854775808) + 9223372036854775808)
    with (a + 18446744073709551616
          - (b + 9223372036854775808) mod 18446744073709551616) by ring.
  rewrite Zminus_mod_idemp_r.
  replace (a + 18446744073709551616 - (b + 9223372036854775808))
    with (a - b - 9223372036854775808 + 1 * 18446744073709551616) by ring.
  rewrite Z.mod_add by lia.
  replace (a - b + 9223372036854775808)
    with (a - b - 9223372036854775808 + 1 * 18446744073709551616) by ring.
  now rewrite Z.mod_add by lia.
Qed.

End WrapFacts.

(** ** The value of an account *)

Module AssetFacts.

Import Machine.

(** The sum, in [Z], of [g] over the positions of a portfolio. *)
Fixpoint plain_sum (g : Position.t -> Z) (m : Portfolio.t) : Z :=
  match m with
  | [] => 0
  | (_, p) :: rest => g p + plain_sum g rest
  end.

Lemma sumOver_plain (f : Position.t -> option Z) (g : Position.t -> Z)
    (m : Portfolio.t) (total : Z) :
  Forall (fun e => f (snd e) = Some (g (snd e))) m ->
  in_long total ->
  Portfolio.sumOver f m total = Some (to_long (total + plain_sum g m)).
Proof.
  intros H. revert total.
  induction H as [|[k p] rest Hp Hrest IH]; intros total Hin; cbn.
  - now rewrite Z.add_0_r, to_long_id.
  - cbn in Hp. rewrite Hp, IH by (apply to_long_range).
    now rewrite to_long_add_l, Z.add_assoc.
Qed.

Lemma plain_sum_update (g : Position.t -> Z) (code : string)
    (old v : Position.t) (m : Portfolio.t) :
  Portfolio.find code m = Some old ->
  plain_sum g (Portfolio.update code v m) = plain_sum g m - g old + g v.
Proof.
  induction m as [|[k p] rest IH]; cbn; [discriminate|].
  destruct (String.eqb code k).
  - intros [= ->]. cbn. ring.
  - intros H. cbn. rewrite (IH H). ring.
Qed.

Lemma plain_sum_insert (g : Position.t -> Z) (code : string)
    (v : Position.t) (m : Portfolio.t) :
  Portfolio.find code m = None ->
  plain_sum g (Portfolio.insert code v m) = plain_sum g m + g v.
Proof.
  induction m as [|[k p] rest IH]; cbn; [intros _; ring|].
  destruct (String.eqb code k) eqn:E; [discriminate|]. intros H.
  destruct (String.compare code k) eqn:C; cbn.
  - apply PortfolioFacts.compare_Eq in C. congruence.
  - ring.
  - rewrite (IH H). ring.
Qed.

Lemma find_In (code : string) (pos : Position.t) (m : Portfolio.t) :
  Portfolio.find code m = Some pos -> In (code, pos) m.
Proof.
  induction m as [|[k p] rest IH]; cbn; [discriminate|].
  destruct (String.eqb code k) eqn:E.
  - intros [= ->]. apply String.eqb_eq in E. subst k. now left.
  - intros H. right. now apply IH.
Qed.

Lemma ordered_find_tail (k : string) (p : Position.t) (rest : Portfolio.t) :
  PortfolioFacts.ordered ((k, p) :: rest) -> Portfolio.find k rest = None.
Proof.
  intros Ho. inversion Ho as [|? ? _ Hall]; subst. clear Ho.
  induction rest as [|[k' p'] rest IH]; cbn; [reflexivity|].
  inversion Hall as [|? ? Hlt Hall']; subst. cbn in Hlt.
  rewrite PortfolioFacts.compare_not_Eq by congruence. now apply IH.
Qed.

Lemma erase_absent (code : string) (m : Portfolio.t) :
  Portfolio.find code m = None -> Portfolio.erase code m = m.
Proof.
  unfold Portfolio.erase.
  induction m as [|[k p] rest IH]; cbn; [reflexivity|].
  destruct (String.eqb code k); [discriminate|]. intros H. cbn.
  now rewrite IH.
Qed.

Lemma plain_sum_erase (g : Position.t -> Z) (code : string)
    (old : Position.t) (m : Portfolio.t) :
  PortfolioFacts.ordered m ->
  Portfolio.find code m = Some old ->
  plain_sum g (Portfolio.erase code m) = plain_sum g m - g old.
Proof.
  unfold Portfolio.erase.
  induction m as [|[k p] rest IH]; cbn; [discriminate|]. intros Ho.
  destruct (String.eqb code k) eqn:E; cbn.
  - intros [= ->]. apply String.eqb_eq in E. subst k.
    pose proof (erase_absent _ _ (ordered_find_tail _ _ _ Ho)) as Hr.
    unfold Portfolio.erase in Hr. rewrite Hr. ring.
  - intros H. inversion Ho; subst. rewrite IH by assumption. ring.
Qed.

(** The portfolio of an account that trades on the market [m]: every
    position is held under the code of its stock, and its pointer is the
    one the market lists under that code. *)
Definition linked (h : list Stock.t) (m : Market.t) (pf : Portfolio.t)
  : Prop :=
  Forall (fun e =>
            exists addr, Position.stock (snd e) = Some addr /\
                         Market.getStock h m (fst e) = Some (Some addr))
    pf.

Lemma linked_find (h : list Stock.t) (m : Market.t) (pf : Portfolio.t)
    (code : string) (pos : Position.t) :
  linked h m pf -> Portfolio.find code pf = Some pos ->
  exists addr, Position.stock pos = Some addr /\
               Market.getStock h m code = Some (Some addr).
Proof.
  intros Hl Hf. apply find_In in Hf.
  unfold linked in Hl. rewrite Forall_forall in Hl. exact (Hl _ Hf).
Qed.

(** The current value of a position, as a number. *)
Definition worth (h : list Stock.t) (p : Position.t) : Z :=
  match Position.getCurrentValue h p with
  | Some v => v
  | None => 0
  end.

Lemma linked_valued (h : list Stock.t) (m : Market.t) (pf : Portfolio.t) :
  linked h m pf ->
  Forall (fun e => Position.getCurrentValue h (snd e) = Some (worth h (snd e)))
    pf.
Proof.
  intros Hl. eapply Forall_impl; [|exact Hl].
  intros [k p] (addr & Hs & Hg). cbn in *.
  destruct (MarketFacts.findStock_found _ _ _ _ Hg) as (_ & st & Hst & _).
  unfold worth, Position.getCurrentValue. rewrite Hs. cbn. now rewrite Hst.
Qed.

Lemma getTotalValue_plain (h : list Stock.t) (m : Market.t)
    (pf : Portfolio.t) :
  linked h m pf ->
  Portfolio.getTotalValue h pf = Some (to_long (plain_sum (worth h) pf)).
Proof.
  intros Hl. unfold Portfolio.getTotalValue.
  rewrite (sumOver_plain _ (worth h)) by
    (try apply linked_valued with m; trivial;
     unfold in_long, long_min, long_max; lia).
  reflexivity.
Qed.

Lemma worth_at (h : list Stock.t) (p : Position.t) (addr : nat)
    (st : Stock.t) :
  Position.stock p = Some addr -> nth_error h addr = Some st ->
  worth h p = to_long (Stock.currentPrice st * Position.quantity p).
Proof.
  intros Hs Hst. unfold worth, Position.getCurrentValue.
  rewrite Hs. cbn. now rewrite Hst.
Qed.

Lemma linked_update (h : list Stock.t) (m : Market.t) (pf : Portfolio.t)
    (code : string) (v : Position.t) (addr : nat) :
  linked h m pf ->
  Position.stock v = Some addr ->
  Market.getStock h m code = Some (Some addr) ->
  linked h m (Portfolio.update code v pf).
Proof.
  intros Hl Hs Hg. unfold linked in *.
  induction Hl as [|[k p] rest Hp Hrest IH]; cbn; [constructor|].
  destruct (String.eqb code k) eqn:E.
  - apply String.eqb_eq in E. subst k. constructor; [|exact Hrest].
    exists addr. now split.
  - constructor; assumption.
Qed.

Lemma linked_insert (h : list Stock.t) (m : Market.t) (pf : Portfolio.t)
    (code : string) (v : Position.t) (addr : nat) :
  linked h m pf ->
  Position.stock v = Some addr ->
  Market.getStock h m code = Some (Some addr) ->
  linked h m (Portfolio.insert code v pf).
Proof.
  intros Hl Hs Hg. unfold linked in *.
  assert (Hv : exists a, Position.stock (snd (code, v)) = Some a /\
                         Market.getStock h m (fst (code, v)) = Some (Some a))
    by (exists addr; now split).
  induction Hl as [|[k p] rest Hp Hrest IH]; cbn; [now repeat constructor|].
  destruct (String.compare code k); repeat constructor; assumption.
Qed.

Lemma linked_erase (h : list Stock.t) (m : Market.t) (pf : Portfolio.t)
    (code : string) :
  linked h m pf -> linked h m (Portfolio.erase code pf).
Proof.
  unfold linked, Portfolio.erase. intros Hl.
  apply Forall_forall. intros e He. apply filter_In in He as [He _].
  rewrite Forall_forall in Hl. now apply Hl.
Qed.

(** The quantities of the orders and of the positions are small enough
    for their sums and differences to be [int]s. *)
Definition small (q : Z) : Prop := - 2 ^ 30 <= q < 2 ^ 30.

Record tidy (w : World) (m : Market.t) (a : Account.t) : Prop := mkTidy {
  t_ordered : PortfolioFacts.ordered (Account.portfolio a);
  t_linked : linked (heap w) m (Account.portfolio a)
}.

Lemma small_sum (a b : Z) : small a -> small b -> to_int (a + b) = a + b.
Proof.
  unfold small. intros Ha Hb. apply to_int_id.
  unfold in_int, int_min, int_max. lia.
Qed.

Lemma small_diff (a b : Z) : small a -> small b -> to_int (a - b) = a - b.
Proof.
  unfold small. intros Ha Hb. apply to_int_id.
  unfold in_int, int_min, int_max. lia.
Qed.

Lemma wrapped (x : Z) : exists k, to_long x = x + k * 2 ^ 64.
Proof.
  unfold to_long, wrap. change (2 ^ (64 - 1)) with (2 ^ 63).
  exists (- ((x + 2 ^ 63) / 2 ^ 64)).
  pose proof (Z.div_mod (x + 2 ^ 63) (2 ^ 64) ltac:(lia)). lia.
Qed.

Lemma to_long_congr (a b k : Z) : a = b + k * 2 ^ 64 -> to_long a = to_long b.
Proof.
  intros ->. unfold to_long, wrap. f_equal.
  replace (b + k * 2 ^ 64 + 2 ^ (64 - 1)) with (b + 2 ^ (64 - 1) + k * 2 ^ 64)
    by ring.
  apply Z.mod_add. lia.
Qed.

(** The value of the account after a purchase and after a sale, from the
    value before. *)
Lemma value_after_buy (bal cost fee total old new : Z) :
  to_long new = to_long (old + cost) ->
  to_long (to_long (bal - to_long (to_long cost + fee))
           + to_long (total - old + new)) =
  to_long (to_long (bal + to_long total) - fee).
Proof.
  intros Hn.
  destruct (wrapped cost) as [k1 E1]. rewrite E1.
  destruct (wrapped (cost + k1 * 2 ^ 64 + fee)) as [k2 E2]. rewrite E2.
  destruct (wrapped (bal - (cost + k1 * 2 ^ 64 + fee + k2 * 2 ^ 64)))
    as [k3 E3]. rewrite E3.
  destruct (wrapped total) as [k4 E4]. rewrite E4.
  destruct (wrapped (bal + (total + k4 * 2 ^ 64))) as [k5 E5]. rewrite E5.
  destruct (wrapped new) as [k6 E6]. destruct (wrapped (old + cost)) as [k7 E7].
  destruct (wrapped (total - old + new)) as [k8 E8]. rewrite E8.
  apply (to_long_congr _ _ (- k1 - k2 + k3 - k4 - k5 + k8 - k6 + k7)).
  rewrite E6, E7 in Hn. lia.
Qed.

Lemma value_after_sell (bal cost fee total old new : Z) :
  to_long old = to_long (new + cost) ->
  to_long (to_long (bal + to_long (to_long cost - fee))
           + to_long (total - old + new)) =
  to_long (to_long (bal + to_long total) - fee).
Proof.
  intros Hn.
  destruct (wrapped cost) as [k1 E1]. rewrite E1.
  destruct (wrapped (cost + k1 * 2 ^ 64 - fee)) as [k2 E2]. rewrite E2.
  destruct (wrapped (bal + (cost + k1 * 2 ^ 64 - fee + k2 * 2 ^ 64)))
    as [k3 E3]. rewrite E3.
  destruct (wrapped total) as [k4 E4]. rewrite E4.
  destruct (wrapped (bal + (total + k4 * 2 ^ 64))) as [k5 E5]. rewrite E5.
  destruct (wrapped old) as [k6 E6]. destruct (wrapped (new + cost)) as [k7 E7].
  destruct (wrapped (total - old + new)) as [k8 E8]. rewrite E8.
  apply (to_long_congr _ _ (k1 + k2 + k3 - k4 - k5 + k8 + k6 - k7)).
  rewrite E6, E7 in Hn. lia.
Qed.

Lemma value_after_first_buy (bal cost fee total new : Z) :
  to_long new = to_long cost ->
  to_long (to_long (bal - to_long (to_long cost + fee)) + to_long (total + new))
  = to_long (to_long (bal + to_long total) - fee).
Proof.
  intros Hn. replace (total + new) with (total - 0 + new) by ring.
  apply value_after_buy. now rewrite Z.add_0_l.
Qed.

Lemma value_after_last_sell (bal cost fee total old : Z) :
  to_long old = to_long cost ->
  to_long (to_long (bal + to_long (to_long cost - fee)) + to_long (total - old))
  = to_long (to_long (bal + to_long total) - fee).
Proof.
  intros Hn. replace (total - old) with (total - old + 0) by ring.
  apply value_after_sell. now rewrite Z.add_0_l.
Qed.

(** X23: what an executed order costs.  For an account whose positions
    point to the stocks the market lists under their codes, with the
    quantities of its orders and positions within [-2^30, 2^30): when
    [executeOrder] fills an order, a purchase or a sale, the total asset
    value of the account at the unchanged prices goes down by exactly the
    fee of the transaction it logs, in the arithmetic of [long], and the
    portfolio keeps its links to the market. *)
Theorem executeOrder_value (w : World) (a : Account.t) (orderId : Z)
    (m : Market.t) (a' : Account.t) (w' : World) :
  tidy w m a ->
  Forall (fun o => small (Order.quantity o)) (Account.orders a) ->
  Forall (fun e => small (Position.quantity (snd e))) (Account.portfolio a) ->
  Account.executeOrder w a orderId m = Some (true, a', w') ->
  exists x total,
    Account.transactions a' = Account.transactions a ++ [x] /\
    Account.getTotalAssetValue (heap w) a = Some total /\
    Account.getTotalAssetValue (heap w') a' =
      Some (to_long (total - Transaction.fee x)) /\
    tidy w' m a'.
Proof.
  intros [Ho Hl] Hqo Hqp H. unfold Account.executeOrder in H.
  destruct (AccountFacts.executeLoop_result _ _ _ _ _ _ _ _ _ H)
    as [(Hok & _) | (_ & o & addr & st & x & F)]; [discriminate|].
  destruct F as [(pre & post & Hpre & _) _ Hg Hst [Hx Htx] _ He].
  assert (Hq : small (Order.quantity o)).
  { rewrite Forall_forall in Hqo. apply Hqo. rewrite Hpre.
    apply in_or_app. right. now left. }
  destruct (MarketFacts.findStock_found _ _ _ _ Hg) as (_ & st' & Hst' & Hc).
  rewrite Hst in Hst'. injection Hst' as <-.
  unfold Transaction.new in Hx. cbn [deref] in Hx. rewrite Hst in Hx.
  injection Hx as <- <-.
  exists (Transaction.mk (nextTransactionId w) (Order.orderId (Order.execute o))
            (Stock.code st) (Stock.name st)
            match Order.orderType (Order.execute o) with
            | BUY => "BUY"%string
            | SELL => "SELL"%string
            end (Order.quantity (Order.execute o)) (Stock.currentPrice st)
            (to_long (Stock.currentPrice st * Order.quantity (Order.execute o)))
            (Transaction.feeOf
               (to_long (Stock.currentPrice st
                         * Order.quantity (Order.execute o))))
            (clock w)).
  cbn [Transaction.fee heap Order.quantity Order.execute Order.withStatus].
  unfold Account.getTotalAssetValue.
  rewrite (getTotalValue_plain _ m _ Hl).
  eexists. split; [exact Htx|]. split; [reflexivity|].
  match goal with
  | |- ?G /\ _ =>
      enough (Hgoal : G /\
                PortfolioFacts.ordered (Account.portfolio a') /\
                linked (heap w) m (Account.portfolio a'))
        by (destruct Hgoal as (? & ? & ?);
            split; [assumption | constructor; assumption])
  end.
  cbn zeta in He.
  set (price := Stock.currentPrice st) in *.
  set (qty := Order.quantity o) in *.
  assert (Hfind : forall pos,
            Portfolio.find (Stock.code st) (Account.portfolio a) = Some pos ->
            Position.stock pos = Some addr /\ small (Position.quantity pos) /\
            worth (heap w) pos = to_long (price * Position.quantity pos)).
  { intros pos Hf.
    destruct (linked_find _ _ _ _ _ Hl Hf) as (addr' & Hs & Hg').
    rewrite Hc, Hg in Hg'. injection Hg' as <-.
    split; [exact Hs|]. split.
    - rewrite Forall_forall in Hqp. exact (Hqp _ (find_In _ _ _ Hf)).
    - now apply worth_at with addr. }
  destruct (Order.orderType o).
  - destruct He as (_ & Hbal & Hpf).
    unfold Portfolio.addPosition in Hpf. cbn [deref] in Hpf.
    rewrite Hst in Hpf. rewrite Hbal.
    destruct (Portfolio.find (Stock.code st) (Account.portfolio a))
      as [pos|] eqn:Hf; injection Hpf as Hpf; rewrite <- Hpf.
    + destruct (Hfind pos eq_refl) as (Hs & Hsm & Hw).
      assert (Hl' : linked (heap w) m
                      (Portfolio.update (Stock.code st)
                         (Position.addQuantity pos qty price)
                         (Account.portfolio a))).
      { apply linked_update with addr; trivial. now rewrite Hc. }
      rewrite (getTotalValue_plain _ m _ Hl').
      rewrite (plain_sum_update _ _ pos) by exact Hf.
      split.
      * f_equal. rewrite Hw.
        rewrite (worth_at _ _ addr st) by trivial.
        cbn [Position.quantity Position.addQuantity].
        rewrite small_sum by trivial.
        apply value_after_buy.
        rewrite to_long_idem, to_long_add_l. subst price qty. f_equal. ring.
      * split; [|exact Hl'].
        eapply PortfolioFacts.ordered_keys;
          [apply PortfolioFacts.update_keys | exact Ho].
    + assert (Hl' : linked (heap w) m
                      (Portfolio.insert (Stock.code st)
                         (Position.new (Some addr) qty price)
                         (Account.portfolio a))).
      { apply linked_insert with addr; trivial. now rewrite Hc. }
      rewrite (getTotalValue_plain _ m _ Hl').
      rewrite plain_sum_insert by exact Hf.
      split.
      * f_equal.
        rewrite (worth_at _ _ addr st) by trivial.
        cbn [Position.quantity Position.new].
        apply value_after_first_buy.
        now rewrite to_long_idem.
      * split; [|exact Hl'].
        now apply PortfolioFacts.insert_ordered.
  - destruct He as ((pos & Hpos & Hle) & Hbal & Hpf).
    unfold Portfolio.getPosition in Hpos.
    destruct (Hfind pos Hpos) as (Hs & Hsm & Hw).
    rewrite Hbal, Hpf. unfold Portfolio.reducePosition. rewrite Hpos.
    unfold Position.reduceQuantity. fold qty.
    destruct (Z.gtb_spec qty (Position.quantity pos)) as [Hgt | _]; [lia|].
    rewrite small_diff by trivial.
    assert (Hlu : forall v, Position.stock v = Some addr ->
              linked (heap w) m
                (Portfolio.update (Stock.code st) v (Account.portfolio a))).
    { intros v Hv. apply linked_update with addr; trivial. now rewrite Hc. }
    assert (Hou : forall v,
              PortfolioFacts.ordered
                (Portfolio.update (Stock.code st) v (Account.portfolio a))).
    { intros v. eapply PortfolioFacts.ordered_keys;
        [apply PortfolioFacts.update_keys | exact Ho]. }
    destruct (Z.eqb_spec (Position.quantity pos - qty) 0) as [Hz | Hnz].
    + cbn [andb Position.quantity Z.eqb snd].
      assert (Hl' : linked (heap w) m
                (Portfolio.erase (Stock.code st)
                   (Portfolio.update (Stock.code st)
                      (Position.mk (Position.stock pos) 0 0 0)
                      (Account.portfolio a))))
        by (apply linked_erase, Hlu; exact Hs).
      rewrite (getTotalValue_plain _ m _ Hl').
      rewrite (plain_sum_erase _ _ (Position.mk (Position.stock pos) 0 0 0))
        by (trivial; rewrite PortfolioFacts.find_update, Hpos; reflexivity).
      rewrite (plain_sum_update _ _ pos) by exact Hpos.
      split.
      * f_equal. rewrite Hw.
        match goal with
        | |- context [to_long (?t - ?o + ?n - ?n)] =>
            replace (t - o + n - n) with (t - o) by ring
        end.
        apply value_after_last_sell.
        rewrite to_long_idem.
        now replace (Position.quantity pos) with qty by lia.
      * split; [|exact Hl']. apply PortfolioFacts.erase_ordered, Hou.
    + apply Z.eqb_neq in Hnz.
      cbn [Position.quantity snd].
      rewrite Hnz, andb_false_r. cbn [snd].
      set (pos' := Position.mk (Position.stock pos)
                     (Position.quantity pos - qty) (Position.avgPrice pos)
                     (to_long ((Position.quantity pos - qty)
                               * Position.avgPrice pos))).
      rewrite (getTotalValue_plain _ m _ (Hlu pos' Hs)).
      rewrite (plain_sum_update _ _ pos) by exact Hpos.
      split.
      * f_equal. rewrite Hw.
        rewrite (worth_at _ pos' addr st) by trivial.
        cbn [Position.quantity pos'].
        apply value_after_sell.
        rewrite to_long_idem, to_long_add_l. subst price qty. f_equal. ring.
      * split; [apply Hou | apply Hlu, Hs].
Qed.

Lemma executeOrder_value_witness :
  exists x total,
    Account.transactions SampleSession.account2 =
      Account.transactions SampleSession.account1 ++ [x] /\
    Account.getTotalAssetValue (heap SampleSession.world2)
      SampleSession.account1 = Some total /\
    Account.getTotalAssetValue (heap SampleSession.world3)
      SampleSession.account2 = Some (to_long (total - Transaction.fee x)) /\
    tidy SampleSession.world3 SampleSession.market SampleSession.account2.
Proof.
  apply (executeOrder_value SampleSession.world2 SampleSession.account1
           (Order.orderId SampleSession.buyOrder) SampleSession.market
           SampleSession.account2 SampleSession.world3).
  - split; constructor.
  - repeat constructor; vm_compute; discriminate || reflexivity.
  - constructor.
  - vm_compute. reflexivity.
Defined.


End AssetFacts.

(** ** The fee of a transaction *)

Section FeeFacts.

Import Machine.

Lemma default_fee_rate_unit : unit_rate DEFAULT_FEE_RATE.
Proof. vm_compute. auto. Qed.

Lemma default_fee_rate_finite :
  exists m e, DEFAULT_FEE_RATE = S754_finite false m e /\
              valid (S754_finite false m e).
Proof. vm_compute. eexists _, _. split; reflexivity. Qed.

Lemma double_to_int_range (z : double) : in_int (Double.to_int z).
Proof.
  unfold Double.to_int, in_int.
  destruct (Double.trunc z) as [t|]; [|unfold int_min, int_max; lia].
  destruct (Z.leb_spec int_min t); cbn [andb];
    [|unfold int_min, int_max; lia].
  destruct (Z.leb_spec t int_max); [lia | unfold int_min, int_max; lia].
Qed.

(** The fee on an amount that is not negative is not above the amount. *)
Lemma feeOf_le (amount : Z) :
  0 <= amount <= 2 ^ 53 -> Transaction.feeOf amount <= amount.
Proof.
  intros Ha. unfold Transaction.feeOf, Double.to_int.
  destruct (mul_rate_trunc amount DEFAULT_FEE_RATE Ha default_fee_rate_unit)
    as (t & -> & Ht).
  destruct ((int_min <=? t) && (t <=? int_max)); [lia|].
  unfold int_min. lia.
Qed.

(** The fee on a negative amount is not positive. *)
Lemma feeOf_nonpos (amount : Z) :
  - 2 ^ 64 < amount < 0 -> Transaction.feeOf amount <= 0.
Proof.
  intros Ha. unfold Transaction.feeOf.
  destruct (of_Z_signed amount ltac:(lia) ltac:(lia))
    as (m & e & E & Hv & _).
  destruct (Z.ltb_spec amount 0); [|lia]. rewrite E.
  destruct default_fee_rate_finite as (mf & ef & -> & Hvf).
  destruct (mul_finite_props true false m mf e ef Hv Hvf) as (_ & Hs & _).
  unfold Double.to_int.
  destruct (Double.mul _ _) as [s|s| |s m' e']; cbn [Double.trunc];
    try (unfold int_min; lia).
  - cbn. lia.
  - cbn [has_sign xorb] in Hs. subst s. cbn [cond_Zopp].
    pose proof (Z.shiftl_nonneg (Zpos m') e') as [_ Hn].
    specialize (Hn ltac:(lia)).
    destruct (_ && _); [lia | unfold int_min; lia].
Qed.

End FeeFacts.

(** ** [executeOrder]: the balance *)

Module BalanceFacts.

Import Machine AccountFacts.

Ltac numerals :=
  change (2 ^ 22) with 4194304 in *;
  change (2 ^ 31) with 2147483648 in *;
  change (2 ^ 53) with 9007199254740992 in *;
  change (2 ^ 61) with 2305843009213693952 in *;
  change (2 ^ 62) with 4611686018427387904 in *;
  change (2 ^ 63) with 9223372036854775808 in *;
  change (2 ^ 64) with 18446744073709551616 in *.

(** X24: the balance is never overdrawn by a plain order.  When the prices
    of the stocks are between 0 and [2^22], the quantities of the orders
    are not negative and the balance is between 0 and [2^62], the balance
    after [executeOrder], whatever it returns, is not negative. *)
Theorem executeOrder_balance (w : World) (a : Account.t) (orderId : Z)
    (m : Market.t) (ok : bool) (a' : Account.t) (w' : World) :
  Forall (fun s => 0 <= Stock.currentPrice s <= 2 ^ 22) (heap w) ->
  Forall (fun o => 0 <= Order.quantity o <= int_max) (Account.orders a) ->
  0 <= Account.balance a <= 2 ^ 62 ->
  Account.executeOrder w a orderId m = Some (ok, a', w') ->
  0 <= Account.balance a'.
Proof.
  intros Hp Hq Hb H. unfold Account.executeOrder in H.
  destruct (executeLoop_result _ _ _ _ _ _ _ _ _ H)
    as [(_ & -> & _) | (_ & o & addr & st & x & F)]; [lia|].
  destruct F as [(pre & post & Ho & _) _ _ Hst _ _ He].
  assert (Hqo : 0 <= Order.quantity o <= int_max).
  { rewrite Forall_forall in Hq. apply Hq. cbn [app] in Ho. rewrite Ho.
    apply in_or_app. right. now left. }
  assert (Hpo : 0 <= Stock.currentPrice st <= 2 ^ 22).
  { rewrite Forall_forall in Hp. apply Hp. eapply nth_error_In. eassumption. }
  cbn zeta in He.
  set (cost := Stock.currentPrice st * Order.quantity o) in *.
  assert (Hcost : 0 <= cost <= 2 ^ 53).
  { unfold cost, int_max in *. numerals.
    split; [apply Z.mul_nonneg_nonneg; lia|].
    change 9007199254740992 with (4194304 * 2147483648).
    apply Z.mul_le_mono_nonneg; lia. }
  rewrite (to_long_id cost) in He
    by (unfold in_long, long_min, long_max; numerals; lia).
  pose proof (double_to_int_range (Double.mul (Double.of_Z cost) DEFAULT_FEE_RATE))
    as Hfr.
  pose proof (feeOf_le cost Hcost) as Hfl.
  unfold Transaction.feeOf in *. unfold in_int, int_min, int_max in Hfr.
  set (fee := Double.to_int _) in *.
  numerals.
  destruct (Order.orderType o).
  - destruct He as (Hle & -> & _).
    rewrite (to_long_id (cost + fee)) in *
      by (unfold in_long, long_min, long_max; numerals; lia).
    rewrite to_long_id by (unfold in_long, long_min, long_max; numerals; lia).
    lia.
  - destruct He as (_ & -> & _).
    rewrite (to_long_id (cost - fee))
      by (unfold in_long, long_min, long_max; numerals; lia).
    rewrite to_long_id by (unfold in_long, long_min, long_max; numerals; lia).
    lia.
Qed.

Lemma executeOrder_balance_witness :
  0 <= Account.balance SampleSession.account2.
Proof.
  apply (executeOrder_balance SampleSession.world2 SampleSession.account1
           (Order.orderId SampleSession.buyOrder) SampleSession.market
           true SampleSession.account2 SampleSession.world3).
  - repeat constructor; vm_compute; discriminate.
  - repeat constructor; vm_compute; discriminate.
  - vm_compute. split; discriminate.
  - vm_compute. reflexivity.
Defined.


Lemma executeLoop_skip (w : World) (m : Market.t) (orderId : Z)
    (a : Account.t) (pre rest done : list Order.t) :
  Forall (fun o => selects orderId o = false) pre ->
  Account.executeLoop w m orderId a done (pre ++ rest) =
  Account.executeLoop w m orderId a (done ++ pre) rest.
Proof.
  intros H. revert done.
  induction H as [|o pre Ho Hpre IH]; intros done; cbn [app].
  - now rewrite app_nil_r.
  - cbn [Account.executeLoop]. unfold selects in Ho. rewrite Ho.
    rewrite IH, <- app_assoc. reflexivity.
Qed.

(** X25: the quantity of an order is not checked.  A pending purchase of a
    negative quantity of a listed stock with a positive price is executed
    for every balance between 0 and [2^61]: [executeOrder] returns true,
    the balance goes up, and the portfolio then has a position of the
    stock whose quantity is the one held before plus the negative
    quantity of the order, or that quantity alone when none was held. *)
Theorem executeOrder_negative_purchase (w : World) (a : Account.t)
    (m : Market.t) (pre post : list Order.t) (o : Order.t) (addr : nat)
    (st : Stock.t) :
  Account.orders a = pre ++ o :: post ->
  Forall (fun o' => Order.orderId o' <> Order.orderId o) pre ->
  Order.isPending o = true ->
  Order.orderType o = BUY ->
  Market.getStock (heap w) m (Order.stockCode o) = Some (Some addr) ->
  nth_error (heap w) addr = Some st ->
  0 < Stock.currentPrice st <= int_max ->
  int_min <= Order.quantity o < 0 ->
  0 <= Account.balance a <= 2 ^ 61 ->
  exists a' w' pos,
    Account.executeOrder w a (Order.orderId o) m = Some (true, a', w') /\
    Account.balance a < Account.balance a' /\
    Portfolio.getPosition (Account.portfolio a') (Stock.code st) = Some pos /\
    Position.quantity pos =
      match Portfolio.getPosition (Account.portfolio a) (Stock.code st) with
      | Some old => to_int (Position.quantity old + Order.quantity o)
      | None => Order.quantity o
      end.
Proof.
  intros Ho Hpre Hpend Hty Hg Hst Hp Hq Hb.
  unfold Account.executeOrder. rewrite Ho.
  rewrite executeLoop_skip.
  2:{ eapply Forall_impl; [|exact Hpre]. intros o' Hne. unfold selects.
      apply Z.eqb_neq in Hne. now rewrite Hne. }
  cbn [app Account.executeLoop]. rewrite Z.eqb_refl, Hpend. cbn [andb].
  rewrite Hg. cbn [deref]. rewrite Hst, Hty.
  set (cost := Stock.currentPrice st * Order.quantity o) in *.
  assert (Hcost : - 2 ^ 62 <= cost < 0).
  { unfold cost, int_min, int_max in *. numerals. nia. }
  rewrite (to_long_id cost)
    by (unfold in_long, long_min, long_max; numerals; lia).
  pose proof (double_to_int_range (Double.mul (Double.of_Z cost) DEFAULT_FEE_RATE))
    as Hfr.
  pose proof (feeOf_nonpos cost ltac:(numerals; lia)) as Hfn.
  unfold Transaction.feeOf in *. unfold in_int, int_min, int_max in Hfr.
  set (fee := Double.to_int _) in *. numerals.
  rewrite (to_long_id (cost + fee))
    by (unfold in_long, long_min, long_max; numerals; lia).
  destruct (Z.geb_spec (Account.balance a) (cost + fee)); [|lia].
  destruct (PortfolioFacts.addPosition_find (heap w) (Account.portfolio a)
              (Some addr) st (Order.quantity o) (Stock.currentPrice st) Hst)
    as (pf & -> & _ & Hpos & _).
  unfold Transaction.new. cbn [deref]. rewrite Hst.
  eexists _, _, _. split; [reflexivity|].
  cbn [Account.balance Account.portfolio].
  rewrite to_long_id by (unfold in_long, long_min, long_max; numerals; lia).
  split; [lia|]. split; [exact Hpos|].
  destruct (Portfolio.getPosition (Account.portfolio a) (Stock.code st));
    reflexivity.
Qed.

Lemma executeOrder_negative_purchase_witness :
  exists a' w' pos,
    Account.executeOrder SampleSession.world2 SampleSession.shortAccount
      (Order.orderId SampleSession.shortOrder) SampleSession.market
      = Some (true, a', w') /\
    Account.balance SampleSession.shortAccount < Account.balance a' /\
    Portfolio.getPosition (Account.portfolio a') "005930" = Some pos /\
    Position.quantity pos =
      match Portfolio.getPosition
              (Account.portfolio SampleSession.shortAccount) "005930" with
      | Some old =>
          to_int (Position.quantity old
                  + Order.quantity SampleSession.shortOrder)
      | None => Order.quantity SampleSession.shortOrder
      end.
Proof.
  apply (executeOrder_negative_purchase SampleSession.world2
           SampleSession.shortAccount SampleSession.market [] []
           SampleSession.shortOrder 0%nat
           (Stock.new "005930" "삼성전자" 70000)).
  - reflexivity.
  - constructor.
  - reflexivity.
  - reflexivity.
  - vm_compute. reflexivity.
  - reflexivity.
  - vm_compute. split; [reflexivity | discriminate].
  - vm_compute. split; [discriminate | reflexivity].
  - vm_compute. split; discriminate.
Defined.


End BalanceFacts.

(** ** Profits *)

Module ProfitFacts.

Import Machine AssetFacts.

(** X26: the sign of [getProfitRate].  For a position with a positive total
    invested, the profit rate is above zero exactly when the current
    value is above the total invested and below zero exactly when it is
    below, and it is never NaN; for a total invested of 0 it is 0.0. *)
Theorem getProfitRate_sign (h : list Stock.t) (p : Position.t) (v : Z) :
  Position.getCurrentValue h p = Some v ->
  in_long (Position.totalInvested p) ->
  in_long (v - Position.totalInvested p) ->
  (Position.totalInvested p = 0 ->
   Position.getProfitRate h p = Some Double.zero) /\
  (0 < Position.totalInvested p ->
   exists r,
     Position.getProfitRate h p = Some r /\
     Double.ltb Double.zero r = (Position.totalInvested p <? v) /\
     Double.ltb r Double.zero = (v <? Position.totalInvested p) /\
     r <> S754_nan).
Proof.
  intros Hv Hi Hd. unfold Position.getProfitRate, Position.getProfit.
  rewrite Hv. split.
  - intros ->. reflexivity.
  - intros Hpos.
    destruct (Z.eqb_spec (Position.totalInvested p) 0); [lia|].
    rewrite (to_long_id _ Hd). eexists. split; [reflexivity|].
    unfold in_long, long_min, long_max in *.
    destruct (percent_sign (v - Position.totalInvested p)
                (Position.totalInvested p) ltac:(lia) ltac:(lia))
      as (H1 & H2 & H3).
    unfold percent in *. rewrite H1, H2. repeat split; [| |exact H3].
    + destruct (Z.ltb_spec 0 (v - Position.totalInvested p)),
        (Z.ltb_spec (Position.totalInvested p) v); lia || reflexivity.
    + destruct (Z.ltb_spec (v - Position.totalInvested p) 0),
        (Z.ltb_spec v (Position.totalInvested p)); lia || reflexivity.
Qed.

Lemma getProfitRate_sign_witness :
  let h := heap SampleSession.world3 in
  let p := Position.new (Some 0%nat) 10 65000 in
  (Position.totalInvested p = 0 ->
   Position.getProfitRate h p = Some Double.zero) /\
  (0 < Position.totalInvested p ->
   exists r,
     Position.getProfitRate h p = Some r /\
     Double.ltb Double.zero r = (Position.totalInvested p <? 700000) /\
     Double.ltb r Double.zero = (700000 <? Position.totalInvested p) /\
     r <> S754_nan).
Proof.
  apply (getProfitRate_sign (heap SampleSession.world3)
           (Position.new (Some 0%nat) 10 65000) 700000).
  - vm_compute. reflexivity.
  - vm_compute. split; discriminate.
  - vm_compute. split; discriminate.
Defined.

Lemma plain_sum_wrapped (g : Position.t -> Z) (m : Portfolio.t) :
  to_long (plain_sum (fun p => to_long (g p)) m) = to_long (plain_sum g m).
Proof.
  induction m as [|[k p] rest IH]; cbn [plain_sum]; [reflexivity|].
  rewrite to_long_add_l, <- (to_long_add_r (g p)), IH.
  now rewrite to_long_add_r.
Qed.

Lemma plain_sum_minus (f g : Position.t -> Z) (m : Portfolio.t) :
  plain_sum (fun p => f p - g p) m = plain_sum f m - plain_sum g m.
Proof.
  induction m as [|[k p] rest IH]; cbn [plain_sum]; [reflexivity|].
  rewrite IH. ring.
Qed.

Lemma to_long_sub_l (a b : Z) : to_long (to_long a - b) = to_long (a - b).
Proof.
  replace (to_long a - b) with (to_long a + - b) by ring.
  now rewrite to_long_add_l.
Qed.

(** X27: the total profit of a portfolio.  For a portfolio whose positions
    point to the stocks the market lists under their codes, the total
    value and the total profit are both defined, and the total profit is
    the total value minus the sum of the totals invested, in the
    arithmetic of [long]. *)
Theorem getTotalProfit_value (h : list Stock.t) (m : Market.t)
    (pf : Portfolio.t) :
  linked h m pf ->
  exists v,
    Portfolio.getTotalValue h pf = Some v /\
    Portfolio.getTotalProfit h pf =
      Some (to_long (v - plain_sum Position.totalInvested pf)).
Proof.
  intros Hl. rewrite (getTotalValue_plain h m pf Hl).
  eexists. split; [reflexivity|].
  unfold Portfolio.getTotalProfit.
  rewrite (sumOver_plain _
             (fun p => to_long (worth h p - Position.totalInvested p))).
  - f_equal. rewrite Z.add_0_l, plain_sum_wrapped, plain_sum_minus.
    now rewrite to_long_sub_l.
  - eapply Forall_impl; [|exact (linked_valued h m pf Hl)].
    intros [k p] Hp. cbn [snd] in *. unfold Position.getProfit.
    now rewrite Hp.
  - unfold in_long, long_min, long_max. lia.
Qed.

Lemma getTotalProfit_value_witness :
  exists v,
    Portfolio.getTotalValue (heap SampleSession.world3)
      (Account.portfolio SampleSession.account2) = Some v /\
    Portfolio.getTotalProfit (heap SampleSession.world3)
      (Account.portfolio SampleSession.account2) =
      Some (to_long (v - plain_sum Position.totalInvested
                           (Account.portfolio SampleSession.account2))).
Proof.
  apply (getTotalProfit_value (heap SampleSession.world3)
           SampleSession.market
           (Account.portfolio SampleSession.account2)).
  repeat constructor. exists 0%nat. split; reflexivity.
Defined.

End ProfitFacts.

(** ** [Order]: the ids *)

Module OrderFacts.

Import Machine.

(** The arguments of the constructor of an order. *)
Definition request : Type := (string * OrderType * PriceType * Z * Z)%type.

(** Orders constructed one after the other, each placed on the account as
    soon as it is constructed. *)
Fixpoint placeAll (w : World) (a : Account.t) (rs : list request)
  : Account.t * World :=
  match rs with
  | [] => (a, w)
  | (code, ot, pt, price, qty) :: rest =>
      let '(o, w') := Order.new w code ot pt price qty in
      placeAll w' (snd (Account.placeOrder a o)) rest
  end.

(** The ids of the orders of the account are distinct and below the next
    id of the counter. *)
Definition numbered (w : World) (a : Account.t) : Prop :=
  NoDup (map Order.orderId (Account.orders a)) /\
  Forall (fun o => Order.orderId o < nextOrderId w) (Account.orders a).

Lemma numbered_place (w : World) (a : Account.t) (code : string)
    (ot : OrderType) (pt : PriceType) (price qty : Z) :
  numbered w a ->
  int_min <= nextOrderId w < int_max ->
  numbered (snd (Order.new w code ot pt price qty))
    (snd (Account.placeOrder a (fst (Order.new w code ot pt price qty)))).
Proof.
  intros [Hnd Hlt] Hr.
  unfold numbered.
  cbn [Order.new Account.placeOrder snd fst Account.orders nextOrderId].
  rewrite to_int_id by (unfold in_int; lia).
  rewrite map_app. cbn [map Order.orderId].
  split.
  - apply NoDup_app; [exact Hnd | repeat constructor; intros [] |].
    intros x Hx [Hy | []]. subst x.
    apply in_map_iff in Hx. destruct Hx as [o [Ho Hin]].
    rewrite Forall_forall in Hlt. specialize (Hlt o Hin). lia.
  - apply Forall_app. split.
    + eapply Forall_impl; [| exact Hlt]. cbv beta. intros o Ho. lia.
    + repeat constructor. cbn [Order.orderId]. lia.
Qed.

(** X28: orders constructed one after the other and placed on an account
    whose order ids are distinct and below the counter of the order ids
    get distinct ids as long as the counter stays within [int]: after
    them the ids of the account are still distinct and below the counter,
    which has advanced by the number of the orders; the new orders are
    appended, all pending, and neither the balance nor the portfolio has
    changed. *)
Theorem placeAll_numbered (w : World) (a : Account.t) (rs : list request) :
  numbered w a ->
  int_min <= nextOrderId w ->
  nextOrderId w + Z.of_nat (length rs) <= int_max ->
  numbered (snd (placeAll w a rs)) (fst (placeAll w a rs)) /\
  nextOrderId (snd (placeAll w a rs))
  = nextOrderId w + Z.of_nat (length rs) /\
  Account.balance (fst (placeAll w a rs)) = Account.balance a /\
  Account.portfolio (fst (placeAll w a rs)) = Account.portfolio a /\
  exists os,
    Account.orders (fst (placeAll w a rs)) = Account.orders a ++ os /\
    length os = length rs /\
    Forall (fun o => Order.isPending o = true) os.
Proof.
  revert w a.
  induction rs as [|[[[[code ot] pt] price] qty] rest IH];
    intros w a Hn Hlo Hhi.
  - cbn [placeAll fst snd length Z.of_nat]. repeat split; try apply Hn; try lia.
    exists []. rewrite app_nil_r. repeat split. constructor.
  - cbn [length] in Hhi. rewrite Nat2Z.inj_succ in Hhi.
    pose proof (numbered_place w a code ot pt price qty Hn
                  ltac:(lia)) as Hn'.
    change (placeAll w a ((code, ot, pt, price, qty) :: rest))
      with (placeAll (snd (Order.new w code ot pt price qty))
              (snd (Account.placeOrder a
                      (fst (Order.new w code ot pt price qty)))) rest).
    assert (Hnext : nextOrderId (snd (Order.new w code ot pt price qty))
                    = nextOrderId w + 1).
    { cbn [Order.new snd nextOrderId].
      apply to_int_id. unfold in_int. lia. }
    destruct (IH _ _ Hn' ltac:(lia) ltac:(lia))
      as [H1 [H2 [H3 [H4 [os [H5 [H6 H7]]]]]]].
    split; [exact H1|].
    split; [rewrite H2, Hnext; cbn [length]; lia|].
    split; [rewrite H3; reflexivity|].
    split; [rewrite H4; reflexivity|].
    exists (fst (Order.new w code ot pt price qty) :: os).
    split; [|split].
    + rewrite H5. cbn [Account.placeOrder snd Account.orders].
      rewrite <- app_assoc. reflexivity.
    + cbn [length]. lia.
    + constructor; [reflexivity | exact H7].
Qed.

Lemma placeAll_numbered_witness :
  let rs := [("005930"%string, BUY, MARKET, 0, 10);
             ("005930"%string, SELL, LIMIT, 71000, 4)] in
  numbered (snd (placeAll SampleSession.world1 SampleSession.account0 rs))
    (fst (placeAll SampleSession.world1 SampleSession.account0 rs)) /\
  nextOrderId (snd (placeAll SampleSession.world1 SampleSession.account0 rs))
  = 3.
Proof.
  intros rs.
  assert (Hn : numbered SampleSession.world1 SampleSession.account0).
  { split; [constructor | constructor]. }
  assert (Hlo : int_min <= nextOrderId SampleSession.world1).
  { vm_compute. discriminate. }
  assert (Hhi : nextOrderId SampleSession.world1 + Z.of_nat (length rs)
                <= int_max).
  { vm_compute. discriminate. }
  destruct (placeAll_numbered SampleSession.world1 SampleSession.account0 rs
              Hn Hlo Hhi) as [H1 [H2 _]].
  split; [exact H1 | exact H2].
Defined.

End OrderFacts.
